(** * geo-wavelets (uncoverml): the learning pipeline, the kriging wrapper
      and the prediction command, embedded and verified.

    Sources embedded here:
    - [src/uncoverml/krige/krige.py]              (module [Krige])
    - [src/uncoverml/scripts/learningpipeline.py] (module [Pipeline])
    - [src/uncoverml/scripts/uncoverml.py], the [predict] command
                                                  (module [Pipeline])

    Python values are modelled as the code has them: dictionaries as
    insertion-ordered association lists, exceptions as an error result,
    two-dimensional (masked) arrays as a shape together with their rows.
    Functions of collaborators that are not part of these sources (pykrige,
    scipy, numpy internals, [uncoverml.pipeline], [uncoverml.mpiops],
    [uncoverml.geoio]) are section variables. *)

From Stdlib Require Import List String Ascii ZArith Lia Bool Arith.
From Stdlib Require Import Sorting.Sorted Sorting.Permutation.
From Stdlib Require Import Structures.OrdersEx.
From Stdlib Require Import Numbers.DecimalString.
From Stdlib Require Import Classes.RelationClasses.
Import ListNotations.
Local Open Scope string_scope.
Local Open Scope list_scope.

(* ================================================================== *)
(** * The fragment of the Python runtime the scripts rely on *)
(* ================================================================== *)

Module Py.

(** Exceptions the embedded code can raise.  [External] stands for any
    exception raised inside a collaborator that is not part of the sources. *)
Inductive exn : Type :=
| ConfigException (msg : string)
| KeyError (key : string)
| ValueError (msg : string)
| IndexError (msg : string)
| AttributeError (msg : string)
| StopIteration
| SystemExit (code : Z)
| External (what : string).

Inductive result (A : Type) : Type :=
| OK (a : A)
| Raise (e : exn).
Arguments OK {A} a.
Arguments Raise {A} e.

Definition bind {A B : Type} (r : result A) (k : A -> result B) : result B :=
  match r with
  | OK a => k a
  | Raise e => Raise e
  end.

(** A collaborator's outcome: its value, or the name of what it raised. *)
Definition lift_external {A : Type} (r : A + string) : result A :=
  match r with
  | inl a => OK a
  | inr what => Raise (External what)
  end.

(** ** Dictionaries: insertion-ordered association lists with unique keys *)

Definition dict (V : Type) : Type := list (string * V).

Definition keys {V : Type} (d : dict V) : list string := map fst d.
Definition values {V : Type} (d : dict V) : list V := map snd d.

Fixpoint lookup {V : Type} (k : string) (d : dict V) : option V :=
  match d with
  | [] => None
  | (k', v) :: d' => if String.eqb k k' then Some v else lookup k d'
  end.

(** [k in d.keys()] *)
Definition contains {V : Type} (k : string) (d : dict V) : bool :=
  existsb (String.eqb k) (keys d).

(** [d[k]] *)
Definition getitem {V : Type} (d : dict V) (k : string) : result V :=
  match lookup k d with
  | Some v => OK v
  | None => Raise (KeyError k)
  end.

(** [d[k] = v]: an existing key keeps its position, a new one goes last. *)
Fixpoint setitem {V : Type} (d : dict V) (k : string) (v : V) : dict V :=
  match d with
  | [] => [(k, v)]
  | (k', v') :: d' =>
      if String.eqb k k' then (k', v) :: d' else (k', v') :: setitem d' k v
  end.

(** [del d[k]] for a key that is present (absent keys leave [d] as it is;
    the callers below only delete keys they are iterating over). *)
Fixpoint delitem {V : Type} (d : dict V) (k : string) : dict V :=
  match d with
  | [] => []
  | (k', v') :: d' =>
      if String.eqb k k' then d' else (k', v') :: delitem d' k
  end.

(** [dict(items)]: later items overwrite earlier ones with the same key. *)
Definition dict_of_items {V : Type} (items : list (string * V)) : dict V :=
  fold_left (fun d kv => setitem d (fst kv) (snd kv)) items [].

(** ** [sorted(xs, key=...)]: a stable sort by [<] on the keys *)

Section Sorted.
Context {A K : Type}.
Variable key : A -> K.
Variable ltb : K -> K -> bool.

(** [x] goes in front of the first element whose key is not below its
    own, so that equal keys keep their input order when the input is
    processed from the right. *)
Fixpoint insert_sorted (x : A) (l : list A) : list A :=
  match l with
  | [] => [x]
  | y :: l' =>
      if ltb (key y) (key x) then y :: insert_sorted x l' else x :: y :: l'
  end.

Definition sorted (l : list A) : list A := fold_right insert_sorted [] l.

(** [a] may stand before [b]: [b]'s key is not below [a]'s. *)
Definition key_le (a b : A) : Prop := ltb (key b) (key a) = false.

(** [<] is negatively transitive on the keys of [l]: being unordered is
    transitive.  It is for strings and for numbers; a [nan] among floats
    that differ breaks it.  On such keys [list.sort] is the stable sort
    above. *)
Definition consistent (l : list A) : bool :=
  forallb (fun a =>
    forallb (fun b =>
      forallb (fun c =>
        implb (negb (ltb (key b) (key a)) && negb (ltb (key c) (key b)))
              (negb (ltb (key c) (key a)))) l) l) l.

(** No element is below the one before it.  [list.sort] then finds that
    the list is a single ascending run and leaves it as it is, whatever
    [<] says of elements that are not neighbours. *)
Fixpoint no_descent (l : list A) : bool :=
  match l with
  | x :: ((y :: _) as l') => negb (ltb (key y) (key x)) && no_descent l'
  | _ => true
  end.
End Sorted.

(** [<] on [str]: lexicographic by character code. *)
Definition str_ltb (a b : string) : bool :=
  match String_as_OT.compare a b with Lt => true | _ => false end.

Definition sorted_strings (l : list string) : list string :=
  sorted (fun s => s) str_ltb l.

(** Strictly ascending lists of strings. *)
Definition ascending (l : list string) : Prop :=
  StronglySorted (fun a b => str_ltb a b = true) l.

(** ** [str.rstrip(chars)]: drops every trailing character that occurs in
    [chars] (a set of characters, not a suffix). *)

Definition char_in (c : ascii) (chars : string) : bool :=
  existsb (Ascii.eqb c) (list_ascii_of_string chars).

Fixpoint rstrip (s chars : string) : string :=
  match s with
  | EmptyString => EmptyString
  | String c s' =>
      match rstrip s' chars with
      | EmptyString => if char_in c chars then EmptyString else String c EmptyString
      | rest => String c rest
      end
  end.

(** ** [os.path.join] of two components, and [os.path.basename] *)

Definition starts_with_slash (s : string) : bool :=
  match s with
  | String c _ => Ascii.eqb c "/"
  | EmptyString => false
  end.

Fixpoint ends_with_slash (s : string) : bool :=
  match s with
  | EmptyString => false
  | String c EmptyString => Ascii.eqb c "/"
  | String _ s' => ends_with_slash s'
  end.

Definition path_join (a b : string) : string :=
  if starts_with_slash b then b
  else if orb (String.eqb a "") (ends_with_slash a) then a ++ b
  else a ++ "/" ++ b.

Fixpoint has_slash (s : string) : bool :=
  match s with
  | EmptyString => false
  | String c s' => orb (Ascii.eqb c "/") (has_slash s')
  end.

(** Everything after the last ["/"]. *)
Fixpoint basename (p : string) : string :=
  match p with
  | EmptyString => EmptyString
  | String c p' =>
      if has_slash p' then basename p'
      else if Ascii.eqb c "/" then p' else p
  end.

(** ["{}".format(n)] for an [int]. *)
Definition format_int (n : Z) : string :=
  NilZero.string_of_int (Z.to_int n).

(** ** [x is None], and the elements of a list that are not [None] *)

Definition is_None {A : Type} (o : option A) : bool :=
  match o with None => true | Some _ => false end.

Definition present {A : Type} (l : list (option A)) : list A :=
  flat_map (fun o => match o with Some a => [a] | None => [] end) l.

(** A loop body that can raise, run over a list from left to right. *)
Fixpoint map_result {A B : Type} (f : A -> result B) (l : list A)
  : result (list B) :=
  match l with
  | [] => OK []
  | a :: l' =>
      match f a with
      | OK b =>
          match map_result f l' with
          | OK bs => OK (b :: bs)
          | Raise e => Raise e
          end
      | Raise e => Raise e
      end
  end.

End Py.

Export Py.

Declare Scope result_scope.
Delimit Scope result_scope with res.
Notation "x <- c1 ;; c2" := (Py.bind c1 (fun x => c2))
  (at level 61, c1 at next level, right associativity) : result_scope.
Notation "' pat <- c1 ;; c2" :=
  (Py.bind c1 (fun x => match x with pat => c2 end))
  (at level 61, pat pattern, c1 at next level, right associativity)
  : result_scope.

(* ================================================================== *)
(** * Two-dimensional numpy arrays *)
(* ================================================================== *)

Module Np.

(** An array of shape [(nrows, ncols)].  The shape is kept beside the rows
    because numpy keeps the number of columns of an array with no rows. *)
Record ndarray (A : Type) : Type := mk_ndarray {
  nrows : nat;
  ncols : nat;
  rows : list (list A)
}.
Arguments mk_ndarray {A} nrows ncols rows.
Arguments nrows {A} _.
Arguments ncols {A} _.
Arguments rows {A} _.

Definition wf {A : Type} (a : ndarray A) : Prop :=
  List.length (rows a) = nrows a /\
  Forall (fun r => List.length r = ncols a) (rows a).

(** [a[:, j]] *)
Definition column {A : Type} (a : ndarray A) (j : nat) : result (list A) :=
  if Nat.ltb j (ncols a)
  then OK (flat_map (fun r => firstn 1 (skipn j r)) (rows a))
  else Raise (IndexError "index is out of bounds for axis 1").

(** [concatenate(arrays, axis=1)]: side by side; the row counts must agree. *)
Fixpoint zip_rows {A : Type} (xs ys : list (list A)) : list (list A) :=
  match xs, ys with
  | x :: xs', y :: ys' => (x ++ y) :: zip_rows xs' ys'
  | _, _ => []
  end.

Definition hstack2 {A : Type} (a b : ndarray A) : ndarray A :=
  mk_ndarray (nrows a) (ncols a + ncols b) (zip_rows (rows a) (rows b)).

Definition concatenate_axis1 {A : Type} (arrays : list (ndarray A))
  : result (ndarray A) :=
  match arrays with
  | [] => Raise (ValueError "need at least one array to concatenate")
  | a :: rest =>
      if forallb (fun b => Nat.eqb (nrows b) (nrows a)) rest
      then OK (fold_left hstack2 rest a)
      else Raise (ValueError "all the input array dimensions except for the concatenation axis must match exactly")
  end.

(** [vstack(arrays)]: one below the other; the column counts must agree. *)
Definition vstack2 {A : Type} (a b : ndarray A) : ndarray A :=
  mk_ndarray (nrows a + nrows b) (ncols a) (rows a ++ rows b).

Definition vstack {A : Type} (arrays : list (ndarray A)) : result (ndarray A) :=
  match arrays with
  | [] => Raise (ValueError "need at least one array to concatenate")
  | a :: rest =>
      if forallb (fun b => Nat.eqb (ncols b) (ncols a)) rest
      then OK (fold_left vstack2 rest a)
      else Raise (ValueError "all the input array dimensions except for the concatenation axis must match exactly")
  end.

End Np.

(* ================================================================== *)
(** * A fixed-point stand-in for float64, for the concrete runs *)
(* ================================================================== *)

Module F64.

(** A number of hundredths, or [nan]. *)
Inductive t : Type := Num (hundredths : Z) | NaN.

(** [<]: every comparison with [nan] is false. *)
Definition ltb (a b : t) : bool :=
  match a, b with
  | Num x, Num y => Z.ltb x y
  | _, _ => false
  end.

(** [np.sqrt]: [nan] below zero. *)
Definition sqrt (a : t) : t :=
  match a with
  | Num x => if (x <? 0)%Z then NaN else Num (Z.sqrt (100 * x))
  | NaN => NaN
  end.

End F64.

(* ================================================================== *)
(** * Facts about dictionaries, [sorted] and the order on strings *)
(* ================================================================== *)

Module PyFacts.

Section Dict.
Context {V : Type}.

Lemma lookup_setitem (d : dict V) (k k' : string) (v : V) :
  lookup k (setitem d k' v)
  = if String.eqb k k' then Some v else lookup k d.
Proof.
  induction d as [|[k0 v0] d IH]; simpl.
  - reflexivity.
  - destruct (String.eqb k' k0) eqn:E; simpl.
    + apply String.eqb_eq in E. subst k0.
      destruct (String.eqb k k'); reflexivity.
    + rewrite IH. destruct (String.eqb k k0) eqn:E0; [|reflexivity].
      apply String.eqb_eq in E0. subst k0.
      rewrite String.eqb_sym, E. reflexivity.
Qed.

Lemma keys_setitem (d : dict V) (k' : string) (v : V) (k : string) :
  In k (keys (setitem d k' v)) <-> k = k' \/ In k (keys d).
Proof.
  unfold keys. induction d as [|[k0 v0] d IH]; simpl.
  - intuition.
  - destruct (String.eqb k' k0) eqn:E; simpl.
    + apply String.eqb_eq in E. subst k0. intuition.
    + rewrite IH. intuition.
Qed.

Lemma keys_setitem_fresh (d : dict V) (k : string) (v : V) :
  ~ In k (keys d) -> setitem d k v = d ++ [(k, v)].
Proof.
  unfold keys. induction d as [|[k0 v0] d IH]; simpl; intros Hn.
  - reflexivity.
  - destruct (String.eqb k k0) eqn:E.
    + apply String.eqb_eq in E. subst k0. exfalso. apply Hn. now left.
    + rewrite IH; [reflexivity|]. intros Hin. apply Hn. now right.
Qed.

Lemma keys_setitem_NoDup (d : dict V) (k : string) (v : V) :
  NoDup (keys d) -> NoDup (keys (setitem d k v)).
Proof.
  unfold keys. induction d as [|[k0 v0] d IH]; simpl; intros Hnd.
  - constructor; [intros []|constructor].
  - inversion Hnd as [|? ? Hnotin Hnd']; subst.
    destruct (String.eqb k k0) eqn:E; simpl.
    + constructor; assumption.
    + constructor; [|apply IH; exact Hnd'].
      intros Hin. apply (keys_setitem d k v k0) in Hin.
      destruct Hin as [->|Hin]; [|contradiction].
      rewrite String.eqb_refl in E. discriminate.
Qed.

Lemma lookup_None_iff (d : dict V) (k : string) :
  lookup k d = None <-> ~ In k (keys d).
Proof.
  unfold keys. induction d as [|[k0 v0] d IH]; simpl.
  - intuition.
  - destruct (String.eqb k k0) eqn:E.
    + apply String.eqb_eq in E. subst k0.
      split; [discriminate|]. intros Hn. exfalso. apply Hn. now left.
    + rewrite IH. apply String.eqb_neq in E.
      split; intros Hn; [intros [Heq|Hin]|]; try congruence; try tauto.
Qed.

(** Items with pairwise different keys make the dictionary they are. *)
Lemma lookup_In (d : dict V) (k : string) (v : V) :
  lookup k d = Some v -> In (k, v) d.
Proof.
  induction d as [|[k0 v0] d IH]; simpl; [discriminate|].
  destruct (String.eqb k k0) eqn:E.
  - apply String.eqb_eq in E. subst k0. intros H. injection H as <-.
    left. reflexivity.
  - intros H. right. apply IH. exact H.
Qed.

Lemma lookup_In_NoDup (d : dict V) (k : string) (v : V) :
  NoDup (keys d) -> In (k, v) d -> lookup k d = Some v.
Proof.
  unfold keys. induction d as [|[k0 v0] d IH]; simpl; intros Hnd Hin;
    [contradiction|].
  inversion Hnd as [|? ? Hnotin Hnd']; subst.
  destruct Hin as [H|Hin].
  - injection H as -> ->. rewrite String.eqb_refl. reflexivity.
  - destruct (String.eqb k k0) eqn:E.
    + apply String.eqb_eq in E. subst k0. exfalso. apply Hnotin.
      apply in_map_iff. exists (k, v). split; [reflexivity|exact Hin].
    + apply IH; assumption.
Qed.

(** With unique keys, what a key is bound to does not depend on the order
    of the items. *)
Lemma lookup_perm (d d' : dict V) (k : string) :
  NoDup (keys d) -> Permutation d d' -> lookup k d' = lookup k d.
Proof.
  intros Hnd Hp.
  assert (Hnd' : NoDup (keys d')).
  { eapply Permutation_NoDup; [|exact Hnd].
    unfold keys. apply Permutation_map. exact Hp. }
  destruct (lookup k d) as [v|] eqn:E.
  - apply lookup_In_NoDup; [exact Hnd'|].
    eapply Permutation_in; [exact Hp|]. apply lookup_In. exact E.
  - destruct (lookup k d') as [v'|] eqn:E'; [|reflexivity].
    apply lookup_In in E'.
    apply (Permutation_in _ (Permutation_sym Hp)) in E'.
    rewrite (lookup_In_NoDup _ _ _ Hnd E') in E. discriminate.
Qed.

Lemma dict_of_items_NoDup (items : list (string * V)) :
  NoDup (keys items) -> dict_of_items items = items.
Proof.
  unfold dict_of_items.
  assert (G : forall acc,
             NoDup (keys (acc ++ items)) ->
             fold_left (fun d kv => setitem d (fst kv) (snd kv)) items acc
             = acc ++ items).
  { induction items as [|[k v] items IH]; intros acc Hnd; simpl.
    - rewrite app_nil_r. reflexivity.
    - rewrite keys_setitem_fresh.
      + rewrite IH; rewrite <- app_assoc; [reflexivity|exact Hnd].
      + unfold keys in *. rewrite map_app in Hnd. simpl in Hnd.
        apply NoDup_remove_2 in Hnd. intros Hin. apply Hnd.
        apply in_or_app. left. exact Hin. }
  intros Hnd. apply (G []). exact Hnd.
Qed.
End Dict.

Section SortedFacts.
Context {A K : Type}.
Variable key : A -> K.
Variable ltb : K -> K -> bool.

Lemma insert_sorted_perm (x : A) (l : list A) :
  Permutation (insert_sorted key ltb x l) (x :: l).
Proof.
  induction l as [|y l IH]; simpl.
  - apply Permutation_refl.
  - destruct (ltb (key y) (key x)).
    + eapply Permutation_trans; [apply perm_skip; exact IH|].
      apply perm_swap.
    + apply Permutation_refl.
Qed.

Lemma sorted_perm (l : list A) : Permutation (sorted key ltb l) l.
Proof.
  induction l as [|x l IH]; simpl.
  - constructor.
  - eapply Permutation_trans; [apply insert_sorted_perm|].
    apply perm_skip. exact IH.
Qed.

Lemma insert_sorted_not_nil (x : A) (l : list A) :
  insert_sorted key ltb x l <> [].
Proof. destruct l as [|y l]; simpl; [|destruct (ltb _ _)]; discriminate. Qed.

Lemma sorted_nil_iff (l : list A) : sorted key ltb l = [] <-> l = [].
Proof.
  destruct l as [|x l]; simpl; [tauto|].
  split; [|discriminate]. intros H.
  exfalso. exact (insert_sorted_not_nil _ _ H).
Qed.

Lemma map_insert_sorted (x : A) (l : list A) :
  map key (insert_sorted key ltb x l)
  = insert_sorted (fun k => k) ltb (key x) (map key l).
Proof.
  induction l as [|y l IH]; simpl; [reflexivity|].
  destruct (ltb (key y) (key x)); simpl; [rewrite IH|]; reflexivity.
Qed.

Lemma map_sorted (l : list A) :
  map key (sorted key ltb l) = sorted (fun k => k) ltb (map key l).
Proof.
  induction l as [|x l IH]; simpl; [reflexivity|].
  rewrite map_insert_sorted, IH. reflexivity.
Qed.

(** [<] on the keys is a strict weak order. *)
Hypothesis ltb_asym : forall a b, ltb a b = true -> ltb b a = false.
Hypothesis ltb_negtrans :
  forall a b c, ltb b a = false -> ltb c b = false -> ltb c a = false.

Lemma insert_sorted_Sorted (x : A) (l : list A) :
  StronglySorted (key_le key ltb) l ->
  StronglySorted (key_le key ltb) (insert_sorted key ltb x l).
Proof.
  induction 1 as [|y l Hs IH Hall]; simpl.
  - constructor; constructor.
  - destruct (ltb (key y) (key x)) eqn:E.
    + constructor; [exact IH|].
      apply Forall_forall. intros z Hz.
      apply (Permutation_in _ (insert_sorted_perm x l)) in Hz.
      destruct Hz as [<-|Hz].
      * unfold key_le. apply ltb_asym. exact E.
      * rewrite Forall_forall in Hall. apply Hall. exact Hz.
    + constructor; [constructor; assumption|].
      constructor; [exact E|].
      apply Forall_forall. intros z Hz.
      rewrite Forall_forall in Hall. specialize (Hall z Hz).
      unfold key_le in *. eapply ltb_negtrans; eassumption.
Qed.

Lemma sorted_Sorted (l : list A) : StronglySorted (key_le key ltb) (sorted key ltb l).
Proof.
  induction l as [|x l IH]; simpl; [constructor|].
  apply insert_sorted_Sorted. exact IH.
Qed.
End SortedFacts.

(** ** The order on strings *)

Lemma str_ltb_lt (a b : string) :
  str_ltb a b = true <-> String_as_OT.lt a b.
Proof.
  unfold str_ltb, String_as_OT.lt.
  destruct (String_as_OT.compare a b); split; congruence.
Qed.

Lemma str_ltb_irrefl (a : string) : str_ltb a a = false.
Proof.
  destruct (str_ltb a a) eqn:E; [|reflexivity].
  apply str_ltb_lt in E.
  exfalso. exact (StrictOrder_Irreflexive a E).
Qed.

Lemma str_ltb_trans (a b c : string) :
  str_ltb a b = true -> str_ltb b c = true -> str_ltb a c = true.
Proof.
  rewrite !str_ltb_lt. apply StrictOrder_Transitive.
Qed.

Lemma str_ltb_asym (a b : string) :
  str_ltb a b = true -> str_ltb b a = false.
Proof.
  intros Hab. destruct (str_ltb b a) eqn:E; [|reflexivity].
  pose proof (str_ltb_trans _ _ _ Hab E) as H.
  rewrite str_ltb_irrefl in H. discriminate.
Qed.

Lemma str_ltb_total (a b : string) :
  str_ltb a b = false -> str_ltb b a = false -> a = b.
Proof.
  intros Hab Hba.
  destruct (String_as_OT.compare_spec a b) as [Heq|Hlt|Hgt].
  - exact Heq.
  - apply str_ltb_lt in Hlt. congruence.
  - apply str_ltb_lt in Hgt. congruence.
Qed.

Lemma str_ltb_negtrans (a b c : string) :
  str_ltb b a = false -> str_ltb c b = false -> str_ltb c a = false.
Proof.
  intros Hba Hcb. destruct (str_ltb c a) eqn:Hca; [|reflexivity].
  destruct (str_ltb a b) eqn:Hab.
  - pose proof (str_ltb_trans _ _ _ Hca Hab). congruence.
  - pose proof (str_ltb_total _ _ Hab Hba). subst b. congruence.
Qed.

(** A strictly ascending list is determined by its elements. *)
Lemma ascending_unique (l1 : list string) :
  forall l2,
    ascending l1 -> ascending l2 ->
    (forall x, In x l1 <-> In x l2) -> l1 = l2.
Proof.
  unfold ascending.
  induction l1 as [|a l1 IH]; intros l2 H1 H2 Hin.
  - destruct l2 as [|b l2]; [reflexivity|].
    exfalso. apply (Hin b). now left.
  - destruct l2 as [|b l2].
    + exfalso. apply (Hin a). now left.
    + inversion H1 as [|? ? Hs1 Ha]; subst.
      inversion H2 as [|? ? Hs2 Hb]; subst.
      rewrite Forall_forall in Ha, Hb.
      assert (Hab : a = b).
      { destruct (proj1 (Hin a) (or_introl eq_refl)) as [E|Hain];
          [congruence|].
        destruct (proj2 (Hin b) (or_introl eq_refl)) as [E|Hbin];
          [congruence|].
        pose proof (Hb a Hain) as Hlt1. pose proof (Ha b Hbin) as Hlt2.
        apply str_ltb_asym in Hlt1. congruence. }
      subst b. f_equal. apply IH; try assumption.
      intros x. split; intros Hx.
      * destruct (proj1 (Hin x) (or_intror Hx)) as [E|Hx2]; [|exact Hx2].
        subst x. specialize (Ha a Hx). rewrite str_ltb_irrefl in Ha.
        discriminate.
      * destruct (proj2 (Hin x) (or_intror Hx)) as [E|Hx1]; [|exact Hx1].
        subst x. specialize (Hb a Hx). rewrite str_ltb_irrefl in Hb.
        discriminate.
Qed.

(** Sorting strings without repetitions gives a strictly ascending list. *)
Lemma sorted_strings_ascending (l : list string) :
  NoDup l -> ascending (sorted_strings l).
Proof.
  intros Hnd. unfold ascending, sorted_strings.
  pose proof (sorted_Sorted (fun s : string => s) str_ltb
                str_ltb_asym str_ltb_negtrans l) as Hs.
  assert (Hnd' : NoDup (sorted (fun s : string => s) str_ltb l)).
  { eapply Permutation_NoDup; [|exact Hnd].
    apply Permutation_sym. apply sorted_perm. }
  induction Hs as [|a l' Hs IH Hall].
  - constructor.
  - inversion Hnd' as [|? ? Hnotin Hnd'']; subst.
    constructor; [apply IH; exact Hnd''|].
    rewrite Forall_forall in *. intros x Hx.
    specialize (Hall x Hx). unfold key_le in Hall.
    destruct (str_ltb a x) eqn:E; [reflexivity|].
    pose proof (str_ltb_total _ _ E Hall). subst x. contradiction.
Qed.

Lemma sorted_strings_In (l : list string) (x : string) :
  In x (sorted_strings l) <-> In x l.
Proof.
  unfold sorted_strings. split; intros H.
  - eapply Permutation_in;
      [apply (sorted_perm (fun s : string => s) str_ltb)|exact H].
  - eapply Permutation_in;
      [apply Permutation_sym, (sorted_perm (fun s : string => s) str_ltb)
      |exact H].
Qed.

(** ** [sorted] is stable *)

Section Stable.
Context {A K : Type}.
Variable key : A -> K.
Variable ltb : K -> K -> bool.

(** [a]'s key ties with [v]: neither is below the other. *)
Definition tied (v : K) (a : A) : bool :=
  negb (ltb (key a) v) && negb (ltb v (key a)).

Lemma insert_sorted_filter (P : A -> bool) (x : A) (l : list A) :
  (forall y, P x = true -> ltb (key y) (key x) = true -> P y = false) ->
  filter P (insert_sorted key ltb x l) = filter P (x :: l).
Proof.
  intros Hsep. induction l as [|y l IH]; simpl; [reflexivity|].
  destruct (ltb (key y) (key x)) eqn:E; simpl; [|reflexivity].
  rewrite IH. simpl.
  destruct (P x) eqn:Px; [|reflexivity].
  rewrite (Hsep y eq_refl E). reflexivity.
Qed.

Lemma sorted_filter (P : A -> bool) (l : list A) :
  (forall x y, P x = true -> ltb (key y) (key x) = true -> P y = false) ->
  filter P (sorted key ltb l) = filter P l.
Proof.
  intros Hsep. induction l as [|x l IH]; simpl; [reflexivity|].
  rewrite insert_sorted_filter by (intros y; apply Hsep).
  simpl. rewrite IH. reflexivity.
Qed.

Hypothesis ltb_negtrans :
  forall a b c, ltb b a = false -> ltb c b = false -> ltb c a = false.

(** Elements whose keys tie keep the order they had in the input. *)
Lemma sorted_stable (v : K) (l : list A) :
  filter (tied v) (sorted key ltb l) = filter (tied v) l.
Proof.
  apply sorted_filter. intros x y Hx Hlt. unfold tied in *.
  apply andb_true_iff in Hx. destruct Hx as [H1 H2].
  apply negb_true_iff in H1, H2.
  destruct (ltb (key y) v) eqn:E; [reflexivity|]. simpl.
  pose proof (ltb_negtrans _ _ _ H2 E) as H. congruence.
Qed.
End Stable.

(** ** [sorted] on keys for which [<] is consistent *)

Section Consistent.
Context {A K : Type}.
Variable key : A -> K.
Variable ltb : K -> K -> bool.

Lemma consistent_spec (l : list A) :
  consistent key ltb l = true <->
  (forall a b c, In a l -> In b l -> In c l ->
     ltb (key b) (key a) = false -> ltb (key c) (key b) = false ->
     ltb (key c) (key a) = false).
Proof.
  unfold consistent. split.
  - intros H a b c Ha Hb Hc Hba Hcb.
    rewrite forallb_forall in H. specialize (H a Ha).
    rewrite forallb_forall in H. specialize (H b Hb).
    rewrite forallb_forall in H. specialize (H c Hc).
    rewrite Hba, Hcb in H. simpl in H.
    apply negb_true_iff in H. exact H.
  - intros H. apply forallb_forall. intros a Ha.
    apply forallb_forall. intros b Hb.
    apply forallb_forall. intros c Hc.
    destruct (ltb (key b) (key a)) eqn:Hba; [reflexivity|].
    destruct (ltb (key c) (key b)) eqn:Hcb; [reflexivity|].
    simpl. rewrite (H a b c Ha Hb Hc Hba Hcb). reflexivity.
Qed.

Lemma consistent_of_negtrans (l : list A) :
  (forall a b c, ltb b a = false -> ltb c b = false -> ltb c a = false) ->
  consistent key ltb l = true.
Proof.
  intros H. apply consistent_spec. intros a b c _ _ _. apply H.
Qed.

(** A list that contradicts the consistency of [<] on its keys. *)
Lemma inconsistent_witness (l : list A) (a b c : A) :
  In a l -> In b l -> In c l ->
  ltb (key b) (key a) = false -> ltb (key c) (key b) = false ->
  ltb (key c) (key a) = true ->
  consistent key ltb l = false.
Proof.
  intros Ha Hb Hc Hba Hcb Hca.
  destruct (consistent key ltb l) eqn:E; [|reflexivity].
  rewrite consistent_spec in E.
  rewrite (E a b c Ha Hb Hc Hba Hcb) in Hca. discriminate.
Qed.

Hypothesis ltb_asym : forall a b, ltb a b = true -> ltb b a = false.

Lemma insert_sorted_Sorted_on (l0 : list A) (x : A) (l : list A) :
  consistent key ltb l0 = true ->
  In x l0 -> incl l l0 ->
  StronglySorted (key_le key ltb) l ->
  StronglySorted (key_le key ltb) (insert_sorted key ltb x l).
Proof.
  intros Hc Hx Hincl Hs. rewrite consistent_spec in Hc.
  induction Hs as [|y l Hs IH Hall]; simpl.
  - constructor; constructor.
  - assert (Hy : In y l0) by (apply Hincl; left; reflexivity).
    assert (Hl : incl l l0) by (intros z Hz; apply Hincl; right; exact Hz).
    destruct (ltb (key y) (key x)) eqn:E.
    + constructor; [apply IH; exact Hl|].
      apply Forall_forall. intros z Hz.
      apply (Permutation_in _ (insert_sorted_perm key ltb x l)) in Hz.
      destruct Hz as [<-|Hz].
      * unfold key_le. apply ltb_asym. exact E.
      * rewrite Forall_forall in Hall. apply Hall. exact Hz.
    + constructor; [constructor; assumption|].
      constructor; [exact E|].
      apply Forall_forall. intros z Hz.
      rewrite Forall_forall in Hall. specialize (Hall z Hz).
      unfold key_le in *.
      apply (Hc x y z Hx Hy (Hl z Hz) E Hall).
Qed.

Lemma sorted_Sorted_sub (l0 l : list A) :
  consistent key ltb l0 = true -> incl l l0 ->
  StronglySorted (key_le key ltb) (sorted key ltb l).
Proof.
  intros Hc. induction l as [|x l IH]; intros Hincl; simpl; [constructor|].
  apply (insert_sorted_Sorted_on l0); [exact Hc| | |].
  - apply Hincl. left. reflexivity.
  - intros z Hz. apply Hincl. right.
    eapply Permutation_in; [apply (sorted_perm key ltb)|exact Hz].
  - apply IH. intros z Hz. apply Hincl. right. exact Hz.
Qed.

(** On consistent keys the sorted list is in ascending order of key. *)
Lemma sorted_Sorted_on (l : list A) :
  consistent key ltb l = true ->
  StronglySorted (key_le key ltb) (sorted key ltb l).
Proof.
  intros Hc. apply (sorted_Sorted_sub l l Hc). apply incl_refl.
Qed.

(** Elements whose keys tie keep the order they had in the input. *)
Lemma sorted_stable_on (v : A) (l : list A) :
  consistent key ltb l = true -> In v l ->
  filter (tied key ltb (key v)) (sorted key ltb l)
  = filter (tied key ltb (key v)) l.
Proof.
  intros Hc Hv. rewrite consistent_spec in Hc.
  assert (G : forall l1, incl l1 l ->
            filter (tied key ltb (key v)) (sorted key ltb l1)
            = filter (tied key ltb (key v)) l1).
  { induction l1 as [|x l1 IH]; intros Hincl; simpl; [reflexivity|].
    assert (Hx : In x l) by (apply Hincl; left; reflexivity).
    assert (Hl1 : incl l1 l) by (intros z Hz; apply Hincl; right; exact Hz).
    assert (Hins : forall l2, incl l2 l ->
              filter (tied key ltb (key v)) (insert_sorted key ltb x l2)
              = filter (tied key ltb (key v)) (x :: l2)).
    { induction l2 as [|y l2 IH2]; intros Hi2; simpl; [reflexivity|].
      assert (Hy : In y l) by (apply Hi2; left; reflexivity).
      destruct (ltb (key y) (key x)) eqn:E; simpl; [|reflexivity].
      rewrite IH2 by (intros z Hz; apply Hi2; right; exact Hz). simpl.
      destruct (tied key ltb (key v) x) eqn:Tx; [|reflexivity].
      assert (Ty : tied key ltb (key v) y = false).
      { unfold tied in *. apply andb_true_iff in Tx. destruct Tx as [T1 T2].
        apply negb_true_iff in T1, T2.
        destruct (ltb (key y) (key v)) eqn:Eyv; [reflexivity|]. simpl.
        pose proof (Hc x v y Hx Hv Hy T2 Eyv) as H. congruence. }
      rewrite Ty. reflexivity. }
    rewrite Hins.
    2:{ intros z Hz. apply Hl1.
        eapply Permutation_in; [apply (sorted_perm key ltb)|exact Hz]. }
    simpl. rewrite (IH Hl1). reflexivity. }
  apply G. apply incl_refl.
Qed.

End Consistent.

(** ** Appending strings *)

Lemma chars_app (a b : string) :
  list_ascii_of_string (a ++ b)%string
  = list_ascii_of_string a ++ list_ascii_of_string b.
Proof.
  induction a as [|c a IH]; simpl; [reflexivity|]. rewrite IH. reflexivity.
Qed.

Lemma chars_inj (a b : string) :
  list_ascii_of_string a = list_ascii_of_string b -> a = b.
Proof.
  intros H. rewrite <- (string_of_list_ascii_of_string a),
    <- (string_of_list_ascii_of_string b), H. reflexivity.
Qed.

Lemma str_app_assoc (a b c : string) :
  ((a ++ b) ++ c = a ++ (b ++ c))%string.
Proof.
  induction a as [|x a IH]; simpl; [reflexivity|]. rewrite IH. reflexivity.
Qed.

Lemma str_app_inv_head (p a b : string) :
  (p ++ a = p ++ b)%string -> a = b.
Proof.
  induction p as [|c p IH]; simpl; intros H; [exact H|].
  injection H as H. apply IH. exact H.
Qed.

Lemma str_app_inv_tail (a b s : string) :
  (a ++ s = b ++ s)%string -> a = b.
Proof.
  intros H. apply chars_inj.
  apply (f_equal list_ascii_of_string) in H. rewrite !chars_app in H.
  eapply app_inv_tail. exact H.
Qed.

(** Two strings whose last [n] characters differ are different. *)
Lemma str_app_endings (n : nat) (a b s1 s2 : string) :
  n <= List.length (list_ascii_of_string s1) ->
  n <= List.length (list_ascii_of_string s2) ->
  firstn n (rev (list_ascii_of_string s1))
  <> firstn n (rev (list_ascii_of_string s2)) ->
  (a ++ s1)%string <> (b ++ s2)%string.
Proof.
  intros H1 H2 Hne H. apply Hne.
  apply (f_equal list_ascii_of_string) in H. rewrite !chars_app in H.
  apply (f_equal (fun l => firstn n (rev l))) in H.
  rewrite !rev_app_distr, !firstn_app in H.
  rewrite !length_rev in H.
  replace (n - List.length (list_ascii_of_string s1)) with 0 in H by lia.
  replace (n - List.length (list_ascii_of_string s2)) with 0 in H by lia.
  simpl in H. rewrite !app_nil_r in H. exact H.
Qed.

(** ** [rstrip] with a suffix given as its argument *)

(** Every character of [s] occurs in [chars]. *)
Definition all_in (s chars : string) : bool :=
  forallb (fun c => char_in c chars) (list_ascii_of_string s).

Lemma all_in_self (chars : string) : all_in chars chars = true.
Proof.
  unfold all_in. apply forallb_forall. intros c Hc.
  unfold char_in. apply existsb_exists. exists c.
  split; [exact Hc|apply Ascii.eqb_refl].
Qed.

Lemma rstrip_all_in (s chars : string) :
  all_in s chars = true -> rstrip s chars = EmptyString.
Proof.
  unfold all_in. induction s as [|c s IH]; simpl; [reflexivity|].
  intros H. apply andb_true_iff in H. destruct H as [Hc Hs].
  rewrite (IH Hs), Hc. reflexivity.
Qed.

Lemma rstrip_app_all_in (s dropped chars : string) :
  all_in dropped chars = true ->
  rstrip (s ++ dropped) chars = rstrip s chars.
Proof.
  intros H. induction s as [|c s IH]; simpl.
  - apply rstrip_all_in. exact H.
  - rewrite IH. reflexivity.
Qed.

Lemma rstrip_split (s chars : string) :
  exists dropped,
    s = (rstrip s chars ++ dropped)%string /\ all_in dropped chars = true.
Proof.
  induction s as [|c s (d & Hs & Hd)]; simpl.
  - exists EmptyString. split; reflexivity.
  - destruct (rstrip s chars) as [|a r] eqn:E.
    + destruct (char_in c chars) eqn:Hc.
      * exists (String c d). split; [simpl in *; congruence|].
        unfold all_in in *. simpl. rewrite Hc. exact Hd.
      * exists d. split; [simpl in *; congruence|exact Hd].
    + exists d. split; [simpl in *; congruence|exact Hd].
Qed.

Lemma rstrip_keeps_last (p : string) (c : ascii) (chars : string) :
  char_in c chars = false ->
  rstrip (p ++ String c EmptyString) chars = (p ++ String c EmptyString)%string.
Proof.
  intros Hc. induction p as [|a p IH]; simpl.
  - rewrite Hc. reflexivity.
  - rewrite IH. destruct p; reflexivity.
Qed.

Lemma str_snoc (s : string) :
  s = EmptyString \/ exists p c, s = (p ++ String c EmptyString)%string.
Proof.
  induction s as [|a s IH]; [left; reflexivity|right].
  destruct IH as [->|(p & c & ->)].
  - exists EmptyString, a. reflexivity.
  - exists (String a p), c. reflexivity.
Qed.

Lemma rstrip_fixed_iff (s chars : string) :
  rstrip s chars = s <->
  s = EmptyString \/
  exists p c, s = (p ++ String c EmptyString)%string /\ char_in c chars = false.
Proof.
  split.
  - intros Hfix. destruct (str_snoc s) as [->|(p & c & ->)];
      [left; reflexivity|right].
    exists p, c. split; [reflexivity|].
    destruct (char_in c chars) eqn:Hc; [exfalso|reflexivity].
    rewrite rstrip_app_all_in in Hfix
      by (unfold all_in; simpl; rewrite Hc; reflexivity).
    destruct (rstrip_split p chars) as (d & Hp & _).
    rewrite Hfix in Hp.
    apply (f_equal (fun x => List.length (list_ascii_of_string x))) in Hp.
    rewrite !chars_app, !length_app in Hp. simpl in Hp. lia.
  - intros [->|(p & c & -> & Hc)]; [reflexivity|].
    apply rstrip_keeps_last. exact Hc.
Qed.

(** [(stem + chars).rstrip(chars)], the idiom by which the scripts drop
    an extension ([".tif"] from the name of a source, [".pipeline"] from
    the name of a configuration file): the result is [stem.rstrip(chars)],
    a prefix of [stem] from which only characters of the extension were
    dropped; it is [stem] itself exactly when [stem] is empty or ends in a
    character that does not occur in the extension. *)
Theorem rstrip_extension :
  forall stem chars : string,
    rstrip (stem ++ chars) chars = rstrip stem chars /\
    (exists dropped,
        stem = (rstrip stem chars ++ dropped)%string /\
        all_in dropped chars = true) /\
    (rstrip (stem ++ chars) chars = stem <->
     stem = EmptyString \/
     exists p c,
       stem = (p ++ String c EmptyString)%string /\ char_in c chars = false).
Proof.
  intros stem chars.
  assert (H : rstrip (stem ++ chars) chars = rstrip stem chars)
    by (apply rstrip_app_all_in, all_in_self).
  split; [exact H|]. split; [apply rstrip_split|].
  rewrite H. apply rstrip_fixed_iff.
Qed.

End PyFacts.

Export PyFacts.

(* ================================================================== *)
(** * krige.py *)
(* ================================================================== *)

Module Krige.

Local Open Scope result_scope.

(** The two pykrige classes the registry maps to. *)
Inductive pykrige_class : Type := OrdinaryKriging | UniversalKriging.

(** [krige_methods] *)
Definition krige_methods : dict pykrige_class :=
  [("ordinary", OrdinaryKriging); ("universal", UniversalKriging)].

Section Krige.
(** numpy's float64, the positional and keyword arguments handed through
    to pykrige, and a fitted pykrige model. *)
Variable float : Type.
Variable Args Kwargs Fitted : Type.

(** [cls(x=..., y=..., z=..., **kwargs)]: pykrige's constructor. *)
Variable construct :
  pykrige_class -> list float -> list float -> list float -> Kwargs ->
  Fitted + string.
(** [model.execute('points', xs, ys)]: prediction and variance. *)
Variable execute :
  Fitted -> string -> list float -> list float ->
  (list float * list float) + string.
(** [np.sqrt] on an array, and [scipy.stats.norm.interval(alpha, loc=...,
    scale=...)]: the two bounds, or what it raised (scipy rejects a level
    outside [[0, 1]] with a [ValueError]). *)
Variable np_sqrt : list float -> list float.
Variable norm_interval :
  float -> list float -> list float -> (list float * list float) + string.

Record Krige : Type := mk_Krige {
  args : Args;
  kwargs : Kwargs;
  model : option Fitted;
  method : string
}.

(** [Krige.__init__] *)
Definition init (method : string) (args : Args) (kwargs : Kwargs)
  : result Krige :=
  if negb (contains method krige_methods)
  then Raise (ConfigException
         "Kirging method must be one of dict_keys(['ordinary', 'universal'])")
  else OK (mk_Krige args kwargs None method).

(** [Krige.fit]: returns the object with its [model] attribute set. *)
Definition fit (self : Krige) (x : Np.ndarray float) (y : list float)
  : result Krige :=
  cls <- getitem krige_methods (method self) ;;
  xs <- Np.column x 0 ;;
  ys <- Np.column x 1 ;;
  m <- lift_external (construct cls xs ys y (kwargs self)) ;;
  OK (mk_Krige (args self) (kwargs self) (Some m) (method self)).

(** [Krige.predict_proba] *)
Definition predict_proba (self : Krige) (x : Np.ndarray float)
  (interval : float)
  : result (list float * list float * list float * list float) :=
  match model self with
  | None =>
      Raise (AttributeError "'NoneType' object has no attribute 'execute'")
  | Some m =>
      xs <- Np.column x 0 ;;
      ys <- Np.column x 1 ;;
      ' (prediction, variance) <- lift_external (execute m "points" xs ys) ;;
      ' (ql, qu) <-
        lift_external (norm_interval interval prediction (np_sqrt variance)) ;;
      OK (prediction, variance, ql, qu)
  end.

(** [Krige.predict] *)
Definition predict (self : Krige) (x : Np.ndarray float) (interval : float)
  : result (list float) :=
  ' (prediction, _, _, _) <- predict_proba self x interval ;;
  OK prediction.

(** What [fit] does once the registry lookup has produced [cls]. *)
Definition fit_with (cls : pykrige_class) (self : Krige)
  (x : Np.ndarray float) (y : list float) : result Krige :=
  xs <- Np.column x 0 ;;
  ys <- Np.column x 1 ;;
  m <- lift_external (construct cls xs ys y (kwargs self)) ;;
  OK (mk_Krige (args self) (kwargs self) (Some m) (method self)).

(** ** Properties of the kriging wrapper *)

Lemma contains_krige_methods (m : string) :
  contains m krige_methods = true <-> In m ["ordinary"; "universal"].
Proof.
  unfold contains, krige_methods, keys; simpl.
  rewrite !orb_true_iff, !String.eqb_eq.
  intuition congruence.
Qed.

Lemma column_not_KeyError {A : Type} (a : Np.ndarray A) (j : nat) (key : string) :
  Np.column a j <> Raise (KeyError key).
Proof. unfold Np.column. destruct (Nat.ltb j (Np.ncols a)); discriminate. Qed.

Lemma column_not_ConfigException {A : Type} (a : Np.ndarray A) (j : nat)
  (msg : string) :
  Np.column a j <> Raise (ConfigException msg).
Proof. unfold Np.column. destruct (Nat.ltb j (Np.ncols a)); discriminate. Qed.

Lemma fit_with_not_unknown_method cls self x y :
  (forall key, fit_with cls self x y <> Raise (KeyError key)) /\
  (forall msg, fit_with cls self x y <> Raise (ConfigException msg)).
Proof.
  unfold fit_with.
  destruct (Np.column x 0) as [xs|e0] eqn:E0; simpl.
  - destruct (Np.column x 1) as [ys|e1] eqn:E1; simpl.
    + destruct (construct cls xs ys y (kwargs self)); simpl;
        split; intros; discriminate.
    + split; intros k H; injection H as ->;
        [eapply column_not_KeyError | eapply column_not_ConfigException];
        exact E1.
  - split; intros k H; injection H as ->;
      [eapply column_not_KeyError | eapply column_not_ConfigException];
      exact E0.
Qed.

(** C5.  Construction checks the method against the registry
    [{'ordinary', 'universal'}]: a method outside it raises
    [ConfigException] (no pykrige constructor is involved in [init]); a
    method inside it yields an untrained object; and on any object that
    [init] returned, the registry lookup of [fit] succeeds, so that [fit]
    is the pykrige call for the registered class and never raises a
    [KeyError] or a [ConfigException]. *)
Theorem init_checks_method_registry :
  forall (m : string) (a : Args) (kw : Kwargs),
    (~ In m ["ordinary"; "universal"] ->
       exists msg, init m a kw = Raise (ConfigException msg)) /\
    (In m ["ordinary"; "universal"] ->
       init m a kw = OK (mk_Krige a kw None m)) /\
    (forall k, init m a kw = OK k ->
       forall x y,
         exists cls,
           lookup (method k) krige_methods = Some cls /\
           fit k x y = fit_with cls k x y /\
           (forall key, fit k x y <> Raise (KeyError key)) /\
           (forall msg, fit k x y <> Raise (ConfigException msg))).
Proof.
  intros m a kw. unfold init.
  destruct (contains m krige_methods) eqn:Hc; simpl.
  - apply contains_krige_methods in Hc.
    split; [intros Hn; contradiction|].
    split; [reflexivity|].
    intros k Hk x y. injection Hk as <-. simpl.
    assert (Hl : exists cls, lookup m krige_methods = Some cls).
    { destruct Hc as [<-|[<-|[]]]; simpl; eauto. }
    destruct Hl as [cls Hl]. exists cls.
    assert (Hf : fit (mk_Krige a kw None m) x y
                 = fit_with cls (mk_Krige a kw None m) x y).
    { unfold fit, getitem. cbn [method]. rewrite Hl. reflexivity. }
    split; [exact Hl|]. split; [exact Hf|].
    rewrite Hf. apply fit_with_not_unknown_method.
  - split.
    + intros _. eexists. reflexivity.
    + split.
      * intros Hin. apply contains_krige_methods in Hin. congruence.
      * intros k Hk. discriminate.
Qed.

Lemma predict_proba_ok_iff (self : Krige) (x : Np.ndarray float)
  (interval : float) (est var lo hi : list float) :
  predict_proba self x interval = OK (est, var, lo, hi) <->
  exists m xs ys,
    model self = Some m /\
    Np.column x 0 = OK xs /\
    Np.column x 1 = OK ys /\
    execute m "points" xs ys = inl (est, var) /\
    norm_interval interval est (np_sqrt var) = inl (lo, hi).
Proof.
  unfold predict_proba. split.
  - destruct (model self) as [m|]; [|discriminate].
    destruct (Np.column x 0) as [xs|]; [|discriminate]. simpl.
    destruct (Np.column x 1) as [ys|]; [|discriminate]. simpl.
    destruct (execute m "points" xs ys) as [[p v]|] eqn:He; [|discriminate].
    simpl.
    destruct (norm_interval interval p (np_sqrt v)) as [[ql qu]|] eqn:Hn;
      [|discriminate].
    simpl. intros H. injection H as <- <- <- <-.
    exists m, xs, ys. repeat split; assumption.
  - intros (m & xs & ys & -> & -> & -> & He & Hn). simpl.
    rewrite He. simpl. rewrite Hn. reflexivity.
Qed.

Lemma predict_proba_interval_raises (self : Krige) (x : Np.ndarray float)
  (interval : float) (m : Fitted) (xs ys est var : list float)
  (what : string) :
  model self = Some m ->
  Np.column x 0 = OK xs ->
  Np.column x 1 = OK ys ->
  execute m "points" xs ys = inl (est, var) ->
  norm_interval interval est (np_sqrt var) = inr what ->
  predict_proba self x interval = Raise (External what).
Proof.
  intros Hm Hx Hy He Hn. unfold predict_proba.
  rewrite Hm, Hx. simpl. rewrite Hy. simpl. rewrite He. simpl.
  rewrite Hn. reflexivity.
Qed.


(** C6, amended.  [predict_proba] returns exactly when the model is
    fitted, [x] has its two coordinate columns, and both the pykrige model
    and [norm.interval] return; what it returns is the estimate and the
    variance that the pykrige model reports together with the two bounds
    that [norm.interval] gives for the requested level with [loc] the
    estimate and [scale] the square root of the variance.  No variance is
    treated apart: at variance 0 the bounds are what [norm.interval] gives
    for [scale = 0].  When [norm.interval] raises, so does
    [predict_proba]. *)
Theorem predict_proba_reports_norm_interval :
  forall (self : Krige) (x : Np.ndarray float) (interval : float),
    (forall est var lo hi,
        predict_proba self x interval = OK (est, var, lo, hi) <->
        exists m xs ys,
          model self = Some m /\
          Np.column x 0 = OK xs /\
          Np.column x 1 = OK ys /\
          execute m "points" xs ys = inl (est, var) /\
          norm_interval interval est (np_sqrt var) = inl (lo, hi)) /\
    (forall m xs ys est var what,
        model self = Some m ->
        Np.column x 0 = OK xs ->
        Np.column x 1 = OK ys ->
        execute m "points" xs ys = inl (est, var) ->
        norm_interval interval est (np_sqrt var) = inr what ->
        predict_proba self x interval = Raise (External what)).
Proof.
  intros self x interval. split.
  - intros est var lo hi. apply predict_proba_ok_iff.
  - intros m xs ys est var what. apply predict_proba_interval_raises.
Qed.

(** ** The life cycle of a model, and the shape of its inputs *)

Lemma predict_proba_fitted_errors (self : Krige) (m : Fitted)
  (x : Np.ndarray float) (interval : float) (msg : string) :
  model self = Some m ->
  predict_proba self x interval <> Raise (AttributeError msg).
Proof.
  intros Hm. unfold predict_proba. rewrite Hm.
  unfold Np.column.
  destruct (Nat.ltb 0 (Np.ncols x)); simpl; [|discriminate].
  destruct (Nat.ltb 1 (Np.ncols x)); simpl; [|discriminate].
  destruct (execute m "points" _ _) as [[p v]|]; simpl; [|discriminate].
  destruct (norm_interval interval p (np_sqrt v)) as [[ql qu]|]; simpl;
    discriminate.
Qed.

(** A constructed model is untrained: predicting with it raises
    [AttributeError] (the pykrige model is [None]).  A [fit] that returns
    leaves a trained model with the same method and arguments, with which
    neither [predict_proba] nor [predict] raises [AttributeError] any
    more, and which can be fitted again. *)
Theorem fit_makes_predictable :
  forall (m : string) (a : Args) (kw : Kwargs) (k k' : Krige)
         (x : Np.ndarray float) (y : list float),
    init m a kw = OK k ->
    fit k x y = OK k' ->
    (forall x' interval,
        predict_proba k x' interval
        = Raise (AttributeError
                   "'NoneType' object has no attribute 'execute'") /\
        predict k x' interval
        = Raise (AttributeError
                   "'NoneType' object has no attribute 'execute'")) /\
    (exists fitted, model k' = Some fitted) /\
    method k' = m /\ args k' = a /\ kwargs k' = kw /\
    (forall x' interval msg,
        predict_proba k' x' interval <> Raise (AttributeError msg) /\
        predict k' x' interval <> Raise (AttributeError msg)) /\
    (forall x' y' key, fit k' x' y' <> Raise (KeyError key)).
Proof.
  intros m a kw k k' x y Hinit Hfit.
  unfold init in Hinit.
  destruct (contains m krige_methods) eqn:Hc; simpl in Hinit;
    [|discriminate].
  injection Hinit as <-.
  apply contains_krige_methods in Hc.
  assert (Hl : exists cls, lookup m krige_methods = Some cls).
  { destruct Hc as [<-|[<-|[]]]; simpl; eauto. }
  destruct Hl as [cls Hl].
  split; [intros x' interval; split; reflexivity|].
  unfold fit, getitem in Hfit. cbn [method kwargs args] in Hfit.
  rewrite Hl in Hfit. simpl in Hfit.
  destruct (Np.column x 0) as [xs|]; [|discriminate]. simpl in Hfit.
  destruct (Np.column x 1) as [ys|]; [|discriminate]. simpl in Hfit.
  destruct (construct cls xs ys y kw) as [fitted|]; [|discriminate].
  simpl in Hfit. injection Hfit as <-. simpl.
  split; [eauto|]. repeat (split; [reflexivity|]).
  split.
  - intros x' interval msg.
    assert (H1 : predict_proba (mk_Krige a kw (Some fitted) m) x' interval
                 <> Raise (AttributeError msg))
      by (eapply predict_proba_fitted_errors; reflexivity).
    split; [exact H1|].
    unfold predict.
    destruct (predict_proba (mk_Krige a kw (Some fitted) m) x' interval)
      as [[[[p v] lo] hi]|e]; simpl; [discriminate|].
    intros H. injection H as ->. apply H1. reflexivity.
  - intros x' y' key. unfold fit, getitem. cbn [method kwargs args].
    rewrite Hl.
    exact (proj1 (fit_with_not_unknown_method cls
                    (mk_Krige a kw (Some fitted) m) x' y') key).
Qed.

(** Coordinates are read from the first two columns: with fewer than two
    columns [fit] (on a constructed model) and [predict_proba] (on a
    trained one) raise [IndexError], whatever pykrige would do. *)
Theorem coordinates_need_two_columns :
  forall (m : string) (a : Args) (kw : Kwargs) (k : Krige)
         (x : Np.ndarray float) (y : list float),
    init m a kw = OK k ->
    Np.ncols x < 2 ->
    (exists msg, fit k x y = Raise (IndexError msg)) /\
    (forall self fitted interval,
        model self = Some fitted ->
        exists msg, predict_proba self x interval = Raise (IndexError msg)).
Proof.
  intros m a kw k x y Hinit Hcols.
  unfold init in Hinit.
  destruct (contains m krige_methods) eqn:Hc; simpl in Hinit;
    [|discriminate].
  injection Hinit as <-.
  apply contains_krige_methods in Hc.
  assert (Hl : exists cls, lookup m krige_methods = Some cls).
  { destruct Hc as [<-|[<-|[]]]; simpl; eauto. }
  destruct Hl as [cls Hl].
  assert (Hcol : (exists msg, Np.column x 0 = Raise (IndexError msg)) \/
                 (exists xs msg, Np.column x 0 = OK xs /\
                                 Np.column x 1 = Raise (IndexError msg))).
  { unfold Np.column.
    destruct (Nat.ltb 0 (Np.ncols x)) eqn:E0.
    - right. destruct (Nat.ltb 1 (Np.ncols x)) eqn:E1.
      + apply Nat.ltb_lt in E1. lia.
      + eauto.
    - left. eauto. }
  split.
  - unfold fit, getitem. cbn [method kwargs args]. rewrite Hl. simpl.
    destruct Hcol as [[msg ->]|(xs & msg & -> & ->)]; simpl; eauto.
  - intros self fitted interval Hm. unfold predict_proba. rewrite Hm.
    destruct Hcol as [[msg ->]|(xs & msg & -> & ->)]; simpl; eauto.
Qed.

End Krige.

(** A concrete instance: integer-valued stand-ins for the collaborators. *)
Definition demo_model : Krige unit unit unit :=
  mk_Krige unit unit unit tt tt (Some tt) "ordinary".

Definition demo_execute (_ : unit) (_ : string) (xs ys : list Z)
  : (list Z * list Z) + string :=
  inl (xs, ys).

Definition demo_interval (_ : Z) (loc scale : list Z)
  : (list Z * list Z) + string :=
  inl (loc, scale).

Definition demo_points : Np.ndarray Z :=
  Np.mk_ndarray 2 2 [[1; 2]; [3; 4]]%Z.

Definition demo_construct (_ : pykrige_class) (_ _ _ : list Z) (_ : unit)
  : unit + string :=
  inl tt.

Lemma fit_makes_predictable_witness :
  init unit unit unit "ordinary" tt tt
  = OK (mk_Krige unit unit unit tt tt None "ordinary") /\
  fit Z unit unit unit demo_construct
    (mk_Krige unit unit unit tt tt None "ordinary") demo_points [5; 6]%Z
  = OK demo_model /\
  predict Z unit unit unit demo_execute (fun v => v) demo_interval
    demo_model demo_points 95%Z
  <> Raise (AttributeError "'NoneType' object has no attribute 'execute'").
Proof.
  split; [reflexivity|]. split; [reflexivity|].
  exact (proj2 (proj1 (proj2 (proj2 (proj2 (proj2 (proj2
           (fit_makes_predictable Z unit unit unit demo_construct
              demo_execute (fun v => v) demo_interval
              "ordinary" tt tt _ _ demo_points [5; 6]%Z
              eq_refl eq_refl))))))
           demo_points 95%Z _)).
Defined.

Lemma coordinates_need_two_columns_witness :
  Np.ncols (Np.mk_ndarray 2 1 [[1]; [3]]%Z) < 2 /\
  exists msg,
    fit Z unit unit unit demo_construct
      (mk_Krige unit unit unit tt tt None "universal")
      (Np.mk_ndarray 2 1 [[1]; [3]]%Z) [5; 6]%Z
    = Raise (IndexError msg).
Proof.
  split; [simpl; lia|].
  exact (proj1 (coordinates_need_two_columns Z unit unit unit demo_construct
                  demo_execute (fun v => v) demo_interval
                  "universal" tt tt _ (Np.mk_ndarray 2 1 [[1]; [3]]%Z)
                  [5; 6]%Z eq_refl ltac:(simpl; lia))).
Defined.

(** *** At variance 0, and at a level outside [[0, 1]]

    A stand-in for [scipy.stats.norm.interval] on the fixed-point numbers:
    it raises [ValueError] for a level outside [[0, 1]]; a scale that is
    not positive gives [nan] bounds; otherwise the bounds are
    [loc -/+ z * scale], with [z] tabulated at the levels 0.90, 0.95 and
    0.99 (1 elsewhere). *)
Definition demo_quantile (level : Z) : Z :=
  if (level =? 90)%Z then 164
  else if (level =? 95)%Z then 196
  else if (level =? 99)%Z then 258
  else 100.

Definition demo_bound (sign z : Z) (loc scale : F64.t) : F64.t :=
  match loc, scale with
  | F64.Num l, F64.Num s =>
      if (0 <? s)%Z then F64.Num (l + sign * (z * s / 100)) else F64.NaN
  | _, _ => F64.NaN
  end.

Definition demo_norm_interval (alpha : F64.t) (loc scale : list F64.t)
  : (list F64.t * list F64.t) + string :=
  match alpha with
  | F64.NaN => inl (map (fun _ => F64.NaN) loc, map (fun _ => F64.NaN) loc)
  | F64.Num a =>
      if ((a <? 0) || (100 <? a))%Z
      then inr "ValueError: alpha must be between 0 and 1 inclusive"
      else inl (map (fun ls => demo_bound (-1) (demo_quantile a)
                                 (fst ls) (snd ls)) (combine loc scale),
                map (fun ls => demo_bound 1 (demo_quantile a)
                                 (fst ls) (snd ls)) (combine loc scale))
  end.

(** A fitted model that reports the estimate 1.00 with variance 0 at
    every point. *)
Definition demo_exact_execute (_ : unit) (_ : string) (xs _ : list F64.t)
  : (list F64.t * list F64.t) + string :=
  inl (map (fun _ => F64.Num 100) xs, map (fun _ => F64.Num 0) xs).

Definition demo_point : Np.ndarray F64.t :=
  Np.mk_ndarray 1 2 [[F64.Num 300; F64.Num 400]].

(** C6, as the claim states it, fails: at variance 0 and level 0.95 the
    bounds are [nan], not the estimate. *)
Lemma predict_proba_zero_variance :
  predict_proba F64.t unit unit unit demo_exact_execute (map F64.sqrt)
    demo_norm_interval demo_model demo_point (F64.Num 95)
  = OK ([F64.Num 100], [F64.Num 0], [F64.NaN], [F64.NaN]) /\
  [F64.NaN] <> [F64.Num 100].
Proof. split; [reflexivity|discriminate]. Qed.

(** C9, as the claim states it, fails: the outcome of [predict] depends
    on the level, at 0.95 it is the estimate of a model with variance
    0.04, at 2 it is the exception of [norm.interval]. *)
Definition demo_noisy_execute (_ : unit) (_ : string) (xs _ : list F64.t)
  : (list F64.t * list F64.t) + string :=
  inl (map (fun _ => F64.Num 100) xs, map (fun _ => F64.Num 4) xs).


End Krige.

(* ================================================================== *)
(** * learningpipeline.py and the [predict] command of uncoverml.py *)
(* ================================================================== *)

Module Pipeline.

Section Pipeline.

(** ** Data *)

(** numpy's float64 with its [<]; values the scripts only hand through
    (configuration entries, targets, fitted models, ...) stay abstract. *)
Variable float : Type.
Variable float_ltb : float -> float -> bool.
Variable PyValue Targets ImageSource XSets Stats AlgArgs Model : Type.
Variable ImageSpec ImageWriter ConfigRest : Type.

(** A masked array: every cell carries its value and its mask bit. *)
Definition marray : Type := Np.ndarray (float * bool).

(** [datatypes.ExtractSettings] *)
Record ExtractSettings : Type := mk_ExtractSettings {
  es_onehot : PyValue;
  es_x_sets : option XSets;
  es_patchsize : PyValue
}.

(** [datatypes.ComposeSettings] *)
Record ComposeSettings : Type := mk_ComposeSettings {
  cs_impute : PyValue;
  cs_transform : PyValue;
  cs_featurefraction : PyValue;
  cs_impute_mean : option Stats;
  cs_mean : option Stats;
  cs_sd : option Stats;
  cs_eigvals : option Stats;
  cs_eigvecs : option Stats
}.

(** What [pipeline.cross_validate] returns. *)
Record CrossValResults : Type := mk_CrossValResults {
  cv_scores : dict float;
  cv_y_true : PyValue;
  cv_y_pred : PyValue
}.

(** The configuration module that [learningpipeline.main] loads. *)
Record Config : Type := mk_Config {
  cfg_name : string;
  cfg_data_dir : string;
  cfg_output_dir : string;
  cfg_target_file : string;
  cfg_target_var : string;
  cfg_folds : PyValue;
  cfg_crossval_seed : PyValue;
  cfg_export_targets : bool;
  cfg_onehot : PyValue;
  cfg_patchsize : PyValue;
  cfg_impute : PyValue;
  cfg_transform : PyValue;
  cfg_pca_frac : PyValue;
  cfg_algdict : dict AlgArgs;
  cfg_rank_features : bool;
  cfg_cross_validate : bool
}.

(** The [ls.config.Config] object of uncoverml.py, as far as [predict]
    touches it. *)
Record CliConfig : Type := mk_CliConfig {
  cli_n_subchunks : Z;
  cli_name : string;
  cli_algorithm : string;
  cli_output_dir : string;
  cli_rest : ConfigRest
}.

(** The objects that are pickled into, or expected in, a model bundle. *)
Inductive pyobj : Type :=
| PyModel (m : Model)
| PyImageSettings (s : dict ExtractSettings)
| PyComposeSettings (c : ComposeSettings)
| PyConfig (c : CliConfig).

(** [score_listing] of [export_feature_ranks]. *)
Record ScoreListing : Type := mk_ScoreListing {
  sl_scores : dict (list float);
  sl_ranks : dict (list string)
}.

(** ** Effects: calls into collaborators, and the log *)

Inductive call : Type :=
| CallGlob (pattern : string)
| CallLoadShapefile (shape_infile fieldname : string)
| CallCrossValTargets
| CallWriteTargets (outfile : string)
| CallBcast
| CallRasterioImageSource (tif : string)
| CallExtractFeatures (tif : string)
| CallComposeFeatures (x : option marray)
| CallAllGather (x_out : option marray)
| CallCrossValidate (algorithm : string) (X : marray)
| CallLearnModel (algorithm : string) (X : marray)
| CallExportScores (outfile : string)
| CallJsonDump (outfile : string) (listing : ScoreListing)
| CallPickleDump (outfile : string) (state_dict : dict pyobj)
| CallPickleLoad (file : string)
| CallGetImageSpec
| CallGetPredictTags
| CallImageWriter (outfile_tif : string) (n_subchunks : Z)
    (output_dir : string)
| CallRenderPartition (i : Z).

(** What an observer of one worker sees, in order: log records, and every
    call into a collaborator when it is entered and when it hands control
    back (by returning, or by raising). *)
Inductive event : Type :=
| Log (level msg : string)
| Enter (c : call)
| Leave (c : call)
| Failed (c : call).

(** A computation of the script: from the history so far to its outcome
    and the extended history. *)
Definition M (A : Type) : Type := list event -> result A * list event.

Definition ret {A : Type} (a : A) : M A := fun h => (OK a, h).
Definition raise {A : Type} (e : exn) : M A := fun h => (Raise e, h).
Definition lift {A : Type} (r : result A) : M A := fun h => (r, h).

Definition io_bind {A B : Type} (m : M A) (k : A -> M B) : M B :=
  fun h =>
    match m h with
    | (OK a, h') => k a h'
    | (Raise e, h') => (Raise e, h')
    end.

Definition log (level msg : string) : M unit :=
  fun h => (OK tt, h ++ [Log level msg]).

(** A call into a collaborator.  Its outcome may depend on everything
    that happened before (the history stands for the state of the file
    system, of the other workers and of the collaborator). *)
Definition external {A : Type} (c : call)
  (outcome : list event -> A + string) : M A :=
  fun h =>
    match outcome h with
    | inl a => (OK a, h ++ [Enter c; Leave c])
    | inr what => (Raise (External what), h ++ [Enter c; Failed c])
    end.

(** A [for] loop over [xs] that threads the variables it assigns. *)
Fixpoint for_each {A S : Type} (xs : list A) (body : S -> A -> M S)
  (s : S) : M S :=
  match xs with
  | [] => ret s
  | x :: xs' => io_bind (body s x) (for_each xs' body)
  end.

(** The collaborators, as one worker meets them. *)
Record Env : Type := mk_Env {
  (** [mpiops.chunk_index]: this worker's rank; rank 0 coordinates. *)
  env_chunk_index : nat;
  (** [os.path.abspath] *)
  env_abspath : string -> string;
  env_glob : list event -> string -> list string;
  env_load_shapefile :
    list event -> string -> string -> (PyValue * PyValue) + string;
  env_CrossValTargets :
    list event -> PyValue -> PyValue -> PyValue -> PyValue ->
    Targets + string;
  env_write_targets : list event -> Targets -> string -> unit + string;
  (** what a broadcast delivers on a worker that is not the root *)
  env_bcast_targets : list event -> Targets + string;
  env_bcast_none : list event -> unit + string;
  env_RasterioImageSource : list event -> string -> ImageSource + string;
  env_extract_features :
    list event -> ImageSource -> Targets -> ExtractSettings ->
    (option marray * ExtractSettings) + string;
  env_compose_features :
    list event -> option marray -> ComposeSettings ->
    (option marray * ComposeSettings) + string;
  env_allgather :
    list event -> option marray -> list (option marray) + string;
  env_cross_validate :
    list event -> marray -> Targets -> string -> AlgArgs ->
    CrossValResults + string;
  env_learn_model :
    list event -> marray -> Targets -> string -> AlgArgs -> Model + string;
  env_export_scores :
    list event -> dict float -> PyValue -> PyValue -> string ->
    unit + string;
  env_json_dump : list event -> string -> ScoreListing -> unit + string;
  env_pickle_dump : list event -> string -> dict pyobj -> unit + string;
  env_pickle_load : list event -> string -> dict pyobj + string;
  env_get_image_spec :
    list event -> Model -> CliConfig -> (ImageSpec * ImageSpec) + string;
  env_get_predict_tags : list event -> Model -> PyValue + string;
  env_ImageWriter :
    list event -> ImageSpec -> ImageSpec -> string -> Z -> string ->
    PyValue -> ImageWriter + string;
  env_render_partition :
    list event -> Model -> Z -> ImageWriter -> CliConfig -> unit + string;
  (** what [sorted] makes of pairs whose scores [<] orders inconsistently
      (a [nan] among them) and that are not one ascending run already:
      the language leaves it to the implementation *)
  env_sort_inconsistent : list (string * float) -> list (string * float)
}.

Variable env : Env.

Declare Scope io_scope.
Delimit Scope io_scope with io.
Notation "x <- c1 ;; c2" := (io_bind c1 (fun x => c2))
  (at level 61, c1 at next level, right associativity) : io_scope.
Notation "' pat <- c1 ;; c2" :=
  (io_bind c1 (fun x => match x with pat => c2 end))
  (at level 61, pat pattern, c1 at next level, right associativity)
  : io_scope.
Local Open Scope io_scope.

(** ** The collaborators as the scripts call them *)

Definition glob (pattern : string) : M (list string) :=
  external (CallGlob pattern) (fun h => inl (env_glob env h pattern)).

Definition load_shapefile (shape_infile fieldname : string)
  : M (PyValue * PyValue) :=
  external (CallLoadShapefile shape_infile fieldname)
    (fun h => env_load_shapefile env h shape_infile fieldname).

Definition CrossValTargets (lonlat vals folds seed : PyValue) : M Targets :=
  external CallCrossValTargets
    (fun h => env_CrossValTargets env h lonlat vals folds seed).

Definition write_targets (targets : Targets) (outfile : string) : M unit :=
  external (CallWriteTargets outfile)
    (fun h => env_write_targets env h targets outfile).

Definition RasterioImageSource (tif : string) : M ImageSource :=
  external (CallRasterioImageSource tif)
    (fun h => env_RasterioImageSource env h tif).

Definition extract_features (tif : string) (image_source : ImageSource)
  (targets : Targets) (s : ExtractSettings)
  : M (option marray * ExtractSettings) :=
  external (CallExtractFeatures tif)
    (fun h => env_extract_features env h image_source targets s).

Definition compose_features (x : option marray) (settings : ComposeSettings)
  : M (option marray * ComposeSettings) :=
  external (CallComposeFeatures x)
    (fun h => env_compose_features env h x settings).

Definition allgather (x_out : option marray) : M (list (option marray)) :=
  external (CallAllGather x_out) (fun h => env_allgather env h x_out).

Definition cross_validate (X : marray) (targets : Targets)
  (algorithm : string) (args : AlgArgs) : M CrossValResults :=
  external (CallCrossValidate algorithm X)
    (fun h => env_cross_validate env h X targets algorithm args).

Definition learn_model (X : marray) (targets : Targets)
  (algorithm : string) (args : AlgArgs) : M Model :=
  external (CallLearnModel algorithm X)
    (fun h => env_learn_model env h X targets algorithm args).

Definition geoio_export_scores (scores : dict float) (y_true y_pred : PyValue)
  (outfile : string) : M unit :=
  external (CallExportScores outfile)
    (fun h => env_export_scores env h scores y_true y_pred outfile).

(** [with open(outfile, 'w') as f: json.dump(listing, f, sort_keys=True,
    indent=4)] *)
Definition json_dump (outfile : string) (listing : ScoreListing) : M unit :=
  external (CallJsonDump outfile listing)
    (fun h => env_json_dump env h outfile listing).

(** [with open(outfile, 'wb') as f: pickle.dump(state_dict, f)] *)
Definition pickle_dump (outfile : string) (state_dict : dict pyobj)
  : M unit :=
  external (CallPickleDump outfile state_dict)
    (fun h => env_pickle_dump env h outfile state_dict).

(** [with open(file, 'rb') as f: pickle.load(f)] *)
Definition pickle_load (file : string) : M (dict pyobj) :=
  external (CallPickleLoad file) (fun h => env_pickle_load env h file).

Definition get_image_spec (model : Model) (config : CliConfig)
  : M (ImageSpec * ImageSpec) :=
  external CallGetImageSpec (fun h => env_get_image_spec env h model config).

Definition get_predict_tags (model : Model) : M PyValue :=
  external CallGetPredictTags (fun h => env_get_predict_tags env h model).

Definition new_ImageWriter (image_shape image_bbox : ImageSpec)
  (outfile_tif : string) (n_subchunks : Z) (output_dir : string)
  (band_tags : PyValue) : M ImageWriter :=
  external (CallImageWriter outfile_tif n_subchunks output_dir)
    (fun h => env_ImageWriter env h image_shape image_bbox outfile_tif
                n_subchunks output_dir band_tags).

Definition render_partition (model : Model) (i : Z) (image_out : ImageWriter)
  (config : CliConfig) : M unit :=
  external (CallRenderPartition i)
    (fun h => env_render_partition env h model i image_out config).

(** Modelled from the spec: [mpiops.run_once] is not part of the sources.
    "Executes [fn] on the coordinator only, then broadcasts the result to
    all workers": rank 0 runs [f] and broadcasts what it returned; every
    other rank takes what the broadcast delivers ([recv]). *)
Definition run_once {A : Type} (recv : list event -> A + string) (f : M A)
  : M A :=
  if Nat.eqb (env_chunk_index env) 0
  then r <- f ;; _ <- external CallBcast (fun _ => inl tt) ;; ret r
  else external CallBcast recv.

(** ** learningpipeline.py *)

(** [get_targets] *)
Definition get_targets (shapefile fieldname : string) (folds seed : PyValue)
  : M Targets :=
  let shape_infile := env_abspath env shapefile in
  ' (lonlat, vals) <- load_shapefile shape_infile fieldname ;;
  targets <- CrossValTargets lonlat vals folds seed ;;
  ret targets.

(** [extract], lines 49-59: one pass of the loop over the GeoTIFFs, on
    the two dictionaries it fills. *)
Definition extract_body (targets : Targets) (config : Config)
  (acc : dict (option marray) * dict ExtractSettings) (tif : string)
  : M (dict (option marray) * dict ExtractSettings) :=
  let '(extracted_chunks, settings) := acc in
  let name := basename tif in
  _ <- log "INFO" ("Processing " ++ name ++ ".") ;;
  let s := mk_ExtractSettings (cfg_onehot config) None
             (cfg_patchsize config) in
  image_source <- RasterioImageSource tif ;;
  ' (x, s) <- extract_features tif image_source targets s ;;
  ret (setitem extracted_chunks name x, setitem settings name s).

(** [extract] *)
Definition extract (targets : Targets) (config : Config)
  : M (dict (option marray) * dict ExtractSettings) :=
  tifs <- glob (path_join (cfg_data_dir config) "*.tif") ;;
  if Nat.eqb (List.length tifs) 0 then
    _ <- log "CRITICAL"
           ("No geotiffs found in " ++ cfg_data_dir config ++ "!") ;;
    raise (SystemExit (-1))
  else
    ' (extracted_chunks, settings) <-
      for_each tifs (extract_body targets config) ([], []) ;;
    let result := dict_of_items (sorted fst str_ltb extracted_chunks) in
    ret (result, settings).

(** [gather_data], lines 148-152: what this worker hands to the
    composition. *)
Definition local_features (extracted_chunks : dict (option marray))
  : result (option marray) :=
  let has_data := negb (existsb is_None (values extracted_chunks)) in
  if has_data
  then (x <- Np.concatenate_axis1 (present (values extracted_chunks)) ;;
        OK (Some x))%res
  else OK None.

(** [gather_data] *)
Definition gather_data (extracted_chunks : dict (option marray))
  (compose_settings : ComposeSettings) : M marray :=
  x <- lift (local_features extracted_chunks) ;;
  ' (x_out, compose_settings) <- compose_features x compose_settings ;;
  X_list <- allgather x_out ;;
  lift (Np.vstack (present X_list)).

(** [rank_features], lines 123-134: one pass of the loop over the
    sources.  [copy.deepcopy] of a value is the value. *)
Definition leave_one_out (extracted_chunks : dict (option marray))
  (targets : Targets) (algorithm : string)
  (compose_settings : ComposeSettings) (config : Config)
  (feature_scores : dict CrossValResults) (name : string)
  : M (dict CrossValResults) :=
  let dict_missing := delitem extracted_chunks name in
  let fname := rstrip name ".tif" in
  _ <- log "INFO" ("Computing " ++ algorithm ++
                   " feature importance of " ++ fname) ;;
  let compose_missing := compose_settings in
  X <- gather_data dict_missing compose_missing ;;
  args <- lift (getitem (cfg_algdict config) algorithm) ;;
  results <- cross_validate X targets algorithm args ;;
  ret (setitem feature_scores fname results).

(** [rank_features] *)
Definition rank_features (extracted_chunks : dict (option marray))
  (targets : Targets) (algorithm : string)
  (compose_settings : ComposeSettings) (config : Config)
  : M (list string * list string * Np.ndarray float) :=
  feature_scores <-
    for_each (keys extracted_chunks)
      (leave_one_out extracted_chunks targets algorithm compose_settings
         config)
      [] ;;
  first <- match values feature_scores with
           | [] => raise StopIteration
           | r :: _ => ret r
           end ;;
  let measures := keys (cv_scores first) in
  let features := sorted_strings (keys feature_scores) in
  scores <- lift (map_result (fun measure =>
                    map_result (fun feature =>
                      (r <- getitem feature_scores feature ;;
                       getitem (cv_scores r) measure)%res) features)
                  measures) ;;
  ret (measures, features,
       Np.mk_ndarray (List.length measures) (List.length features) scores).

(** [sorted(zip(features, measure_scores), key=lambda s: s[1])]: the
    stable sort by score when [<] is consistent on the scores (no [nan]
    gets in the way); the pairs as they are when no score is below the one
    before it; otherwise what the implementation makes of them. *)
Definition sorted_by_score (pairs : list (string * float))
  : list (string * float) :=
  if consistent snd float_ltb pairs then sorted snd float_ltb pairs
  else if no_descent snd float_ltb pairs then pairs
  else env_sort_inconsistent env pairs.

(** [export_feature_ranks], lines 165-180: the listing that is written. *)
Fixpoint feature_rank_listing (rows : list (string * list float))
  (features : list string) (score_listing : ScoreListing)
  : result ScoreListing :=
  match rows with
  | [] => OK score_listing
  | (measure, measure_scores) :: rows' =>
      let scores := sorted_by_score (combine features measure_scores) in
      match scores with
      | [] => Raise (ValueError
                "not enough values to unpack (expected 2, got 0)")
      | _ =>
          let (sorted_features, sorted_scores) := split scores in
          feature_rank_listing rows' features
            (mk_ScoreListing
               (setitem (sl_scores score_listing) measure sorted_scores)
               (setitem (sl_ranks score_listing) measure sorted_features))
      end
  end.

(** [export_feature_ranks] *)
Definition export_feature_ranks (measures features : list string)
  (scores : Np.ndarray float) (algorithm : string) (config : Config)
  : M unit :=
  let outfile_ranks :=
    path_join (cfg_output_dir config)
      (cfg_name config ++ "_" ++ algorithm ++ "_featureranks.json") in
  score_listing <-
    lift (feature_rank_listing (combine measures (Np.rows scores)) features
            (mk_ScoreListing [] [])) ;;
  json_dump outfile_ranks score_listing.

(** [export_model]: the bundle, and writing it. *)
Definition model_state_dict (model : Model)
  (image_settings : dict ExtractSettings)
  (compose_settings : ComposeSettings) : dict pyobj :=
  [("model", PyModel model);
   ("image_settings", PyImageSettings image_settings);
   ("compose_settings", PyComposeSettings compose_settings)].

Definition export_model (model : Model)
  (image_settings : dict ExtractSettings)
  (compose_settings : ComposeSettings) (algorithm : string)
  (config : Config) : M unit :=
  let outfile_state :=
    path_join (cfg_output_dir config)
      (cfg_name config ++ "_" ++ algorithm ++ ".state") in
  let state_dict :=
    model_state_dict model image_settings compose_settings in
  pickle_dump outfile_state state_dict.

(** [export_scores] *)
Definition export_scores (crossval_output : CrossValResults)
  (algorithm : string) (config : Config) : M unit :=
  let outfile_scores :=
    path_join (cfg_output_dir config)
      (cfg_name config ++ "_" ++ algorithm ++ "_scores.json") in
  geoio_export_scores (cv_scores crossval_output)
    (cv_y_true crossval_output) (cv_y_pred crossval_output) outfile_scores.

(** [run_pipeline], lines 66-76: the targets. *)
Definition make_targets (config : Config) : M Targets :=
  let shapefile := path_join (cfg_data_dir config) (cfg_target_file config) in
  targets <- run_once (env_bcast_targets env)
               (get_targets shapefile (cfg_target_var config)
                  (cfg_folds config) (cfg_crossval_seed config)) ;;
  _ <- (if cfg_export_targets config then
          let outfile_targets :=
            path_join (cfg_output_dir config)
              (cfg_name config ++ "_targets.hdf5") in
          run_once (env_bcast_none env) (write_targets targets outfile_targets)
        else ret tt) ;;
  ret targets.

(** [run_pipeline], lines 92-99: one pass of the ranking loop. *)
Definition rank_algorithm (config : Config) (targets : Targets)
  (extracted_chunks : dict (option marray))
  (compose_settings : ComposeSettings) (_ : unit) (algorithm : string)
  : M unit :=
  args <- lift (getitem (cfg_algdict config) algorithm) ;;
  if cfg_rank_features config then
    ' (measures, features, scores) <-
      rank_features extracted_chunks targets algorithm compose_settings
        config ;;
    run_once (env_bcast_none env)
      (export_feature_ranks measures features scores algorithm config)
  else ret tt.

(** [run_pipeline], lines 105-114: one pass of the learning loop. *)
Definition learn_algorithm (config : Config) (targets : Targets)
  (image_settings : dict ExtractSettings)
  (compose_settings : ComposeSettings) (X : marray) (_ : unit)
  (algorithm : string) : M unit :=
  args <- lift (getitem (cfg_algdict config) algorithm) ;;
  _ <- (if cfg_cross_validate config then
          crossval_results <- cross_validate X targets algorithm args ;;
          run_once (env_bcast_none env)
            (export_scores crossval_results algorithm config)
        else ret tt) ;;
  model <- learn_model X targets algorithm args ;;
  run_once (env_bcast_none env)
    (export_model model image_settings compose_settings algorithm config).

(** [run_pipeline], lines 78-114, once the targets are there.  The
    settings are values here: what [compose_features] does to the object
    it is handed is not visible to [export_model]. *)
Definition run_with_targets (config : Config) (targets : Targets) : M unit :=
  ' (extracted_chunks, image_settings) <- extract targets config ;;
  let compose_settings :=
    mk_ComposeSettings (cfg_impute config) (cfg_transform config)
      (cfg_pca_frac config) None None None None None in
  _ <- for_each (sorted_strings (keys (cfg_algdict config)))
         (rank_algorithm config targets extracted_chunks compose_settings)
         tt ;;
  X <- gather_data extracted_chunks compose_settings ;;
  for_each (sorted_strings (keys (cfg_algdict config)))
    (learn_algorithm config targets image_settings compose_settings X)
    tt.

(** [run_pipeline] *)
Definition run_pipeline (config : Config) : M unit :=
  targets <- make_targets config ;;
  run_with_targets config targets.

(** ** uncoverml.py: the [predict] command *)

(** What [predict] takes from the bundle is used as a model and as a
    configuration.  A bundle that binds ['model'] or ['config'] to an
    object of another kind is outside what is modelled here: python goes
    on with it until an attribute is missing, the run below stops with
    [AttributeError] where it is read. *)
Definition as_model (o : pyobj) : result Model :=
  match o with
  | PyModel m => OK m
  | _ => Raise (AttributeError "object is not a model")
  end.

Definition as_config (o : pyobj) : result CliConfig :=
  match o with
  | PyConfig c => OK c
  | _ => Raise (AttributeError "object is not a configuration")
  end.

(** [range(n)] *)
Definition range (n : Z) : list Z :=
  map Z.of_nat (seq 0 (Z.to_nat n)).

(** [predict], lines 204-209: what is read from the bundle. *)
Definition load_bundle (state_dict : dict pyobj) (partitions : Z)
  : result (Model * CliConfig) :=
  (model <- getitem state_dict "model" ;;
   config <- getitem state_dict "config" ;;
   model <- as_model model ;;
   config <- as_config config ;;
   OK (model,
       mk_CliConfig partitions (cli_name config) (cli_algorithm config)
         (cli_output_dir config) (cli_rest config)))%res.

(** [predict], lines 223-225: one pass of the rendering loop. *)
Definition render_body (model : Model) (image_out : ImageWriter)
  (config : CliConfig) (_ : unit) (i : Z) : M unit :=
  _ <- log "INFO" ("starting to render partition " ++ format_int (i + 1)) ;;
  render_partition model i image_out config.

(** [predict], lines 223-226: the rendering loop and the final report. *)
Definition render_all (model : Model) (image_out : ImageWriter)
  (config : CliConfig) : M unit :=
  _ <- for_each (range (cli_n_subchunks config))
         (render_body model image_out config) tt ;;
  log "INFO" "Finished!".

(** [predict] *)
Definition predict (model_or_cluster_file : string) (partitions : Z)
  : M unit :=
  state_dict <- pickle_load model_or_cluster_file ;;
  ' (model, config) <- lift (load_bundle state_dict partitions) ;;
  _ <- (if (1 <? cli_n_subchunks config)%Z then
          log "INFO" ("Memory contstraint forcing " ++
                      format_int (cli_n_subchunks config) ++
                      " iterations through data")
        else
          log "INFO"
            "Using memory aggressively: dividing all data between nodes") ;;
  ' (image_shape, image_bbox) <- get_image_spec model config ;;
  let outfile_tif :=
    (cli_name config ++ "_" ++ cli_algorithm config)%string in
  band_tags <- get_predict_tags model ;;
  image_out <- new_ImageWriter image_shape image_bbox outfile_tif
                 (cli_n_subchunks config) (cli_output_dir config)
                 band_tags ;;
  render_all model image_out config.

(** ** What an observer sees: the vocabulary of the statements below *)

(** The events one run of [gather_data] adds when no collaborator
    raises. *)
Definition gather_events (x x_out : option marray) : list event :=
  [Enter (CallComposeFeatures x); Leave (CallComposeFeatures x);
   Enter (CallAllGather x_out); Leave (CallAllGather x_out)].

(** The pairs of one metric in the order in which they are listed. *)
Definition ranked (features : list string) (measure_scores : list float)
  : list (string * float) :=
  sorted_by_score (combine features measure_scores).

(** What an observer sees of one pass of the loop when the rendering
    returns, and when it raises. *)
Definition starting (i : Z) : event :=
  Log "INFO" ("starting to render partition " ++ format_int (i + 1)).

Definition rendered (i : Z) : list event :=
  [starting i; Enter (CallRenderPartition i); Leave (CallRenderPartition i)].

Definition render_failed (i : Z) : list event :=
  [starting i; Enter (CallRenderPartition i); Failed (CallRenderPartition i)].

Definition finished : event := Log "INFO" "Finished!".

(** What [predict] logs about the number of partitions. *)
Definition memory_report (partitions : Z) : event :=
  if (1 <? partitions)%Z
  then Log "INFO" ("Memory contstraint forcing " ++ format_int partitions ++
                   " iterations through data")
  else Log "INFO"
         "Using memory aggressively: dividing all data between nodes".

(** What an observer sees of [predict] before the rendering loop, for a
    bundle whose configuration is [c0]. *)
Definition predict_prelude (file : string) (partitions : Z) (c0 : CliConfig)
  : list event :=
  [Enter (CallPickleLoad file); Leave (CallPickleLoad file);
   memory_report partitions;
   Enter CallGetImageSpec; Leave CallGetImageSpec;
   Enter CallGetPredictTags; Leave CallGetPredictTags;
   Enter (CallImageWriter (cli_name c0 ++ "_" ++ cli_algorithm c0)
            partitions (cli_output_dir c0));
   Leave (CallImageWriter (cli_name c0 ++ "_" ++ cli_algorithm c0)
            partitions (cli_output_dir c0))].

Definition is_render (ev : event) : Prop :=
  exists i, ev = Enter (CallRenderPartition i)
            \/ ev = Leave (CallRenderPartition i)
            \/ ev = Failed (CallRenderPartition i).

(** An event is quiet for [p] when it is no call that [p] selects. *)
Definition quiet (p : call -> bool) (ev : event) : Prop :=
  match ev with
  | Log _ _ => True
  | Enter c | Leave c | Failed c => p c = false
  end.

(** [m] only extends the history, and only by events quiet for [p]. *)
Definition emits {A : Type} (p : call -> bool) (m : M A) : Prop :=
  forall h r h',
    m h = (r, h') -> exists es, h' = h ++ es /\ Forall (quiet p) es.

Definition is_compose_or_gather (c : call) : bool :=
  match c with
  | CallComposeFeatures _ | CallAllGather _ => true
  | _ => false
  end.

(** What [extract] adds to the history when the directory has no
    [*.tif]. *)
Definition no_geotiffs (config : Config) : list event :=
  [Enter (CallGlob (path_join (cfg_data_dir config) "*.tif"));
   Leave (CallGlob (path_join (cfg_data_dir config) "*.tif"));
   Log "CRITICAL" ("No geotiffs found in " ++ cfg_data_dir config ++ "!")].

Definition is_learn (c : call) : bool :=
  match c with CallLearnModel _ _ => true | _ => false end.

(** The algorithms for which [learn_model] was entered, in order. *)
Definition learned (es : list event) : list string :=
  flat_map (fun ev => match ev with
                      | Enter (CallLearnModel algorithm _) => [algorithm]
                      | _ => []
                      end) es.

(** [results] is what cross-validation returned, at some point of the run,
    for the dataset gathered from [extracted_chunks] without [name]. *)
Definition scored_without (extracted_chunks : dict (option marray))
  (targets : Targets) (algorithm : string)
  (compose_settings : ComposeSettings) (config : Config) (name : string)
  (results : CrossValResults) : Prop :=
  exists args h1 X h2,
    getitem (cfg_algdict config) algorithm = OK args /\
    gather_data (delitem extracted_chunks name) compose_settings h1
    = (OK X, h2) /\
    env_cross_validate env h2 X targets algorithm args = inl results.

(** ** General facts about the runtime model *)

Lemma existsb_is_None {A : Type} (l : list (option A)) :
  existsb is_None l = true <-> In None l.
Proof.
  rewrite existsb_exists. split.
  - intros [[a|] [Hin Hn]]; [discriminate|exact Hin].
  - intros Hin. exists None. split; [exact Hin|reflexivity].
Qed.

Lemma present_all {A : Type} (l : list (option A)) :
  ~ In None l -> l = map Some (present l).
Proof.
  induction l as [|[a|] l IH]; intros Hn; simpl.
  - reflexivity.
  - f_equal. apply IH. intros Hin. apply Hn. right. exact Hin.
  - exfalso. apply Hn. left. reflexivity.
Qed.

Lemma present_app {A : Type} (l1 l2 : list (option A)) :
  present (l1 ++ l2) = present l1 ++ present l2.
Proof. unfold present. apply flat_map_app. Qed.

Lemma fold_vstack2_nrows {A : Type} (l : list (Np.ndarray A)) :
  forall a,
    Np.nrows (fold_left Np.vstack2 l a)
    = Np.nrows a + list_sum (map Np.nrows l).
Proof.
  induction l as [|b l IH]; intros a; simpl.
  - lia.
  - rewrite IH. simpl. lia.
Qed.

Lemma fold_vstack2_ncols {A : Type} (l : list (Np.ndarray A)) :
  forall a, Np.ncols (fold_left Np.vstack2 l a) = Np.ncols a.
Proof.
  induction l as [|b l IH]; intros a; simpl; [reflexivity|].
  rewrite IH. reflexivity.
Qed.

Lemma fold_vstack2_rows {A : Type} (l : list (Np.ndarray A)) :
  forall a,
    Np.rows (fold_left Np.vstack2 l a)
    = Np.rows a ++ List.concat (map Np.rows l).
Proof.
  induction l as [|b l IH]; intros a; simpl.
  - rewrite app_nil_r. reflexivity.
  - rewrite IH. simpl. rewrite app_assoc. reflexivity.
Qed.

(** The stacked array has as many rows as its parts together. *)
Lemma vstack_nrows {A : Type} (l : list (Np.ndarray A)) (X : Np.ndarray A) :
  Np.vstack l = OK X -> Np.nrows X = list_sum (map Np.nrows l).
Proof.
  unfold Np.vstack. destruct l as [|a rest]; [discriminate|].
  destruct (forallb _ rest); [|discriminate].
  intros H. injection H as <-. rewrite fold_vstack2_nrows. reflexivity.
Qed.

(** Stacking well-formed arrays gives a well-formed array. *)
Lemma vstack_wf {A : Type} (l : list (Np.ndarray A)) (X : Np.ndarray A) :
  Forall Np.wf l -> Np.vstack l = OK X -> Np.wf X.
Proof.
  unfold Np.vstack. destruct l as [|a rest]; [discriminate|].
  destruct (forallb _ rest) eqn:Hc; [|discriminate].
  intros Hwf H. injection H as <-.
  rewrite forallb_forall in Hc.
  inversion Hwf as [|? ? [Hla Hra] Hrest]; subst.
  unfold Np.wf. rewrite fold_vstack2_rows, fold_vstack2_nrows,
    fold_vstack2_ncols.
  split.
  - rewrite length_app, Hla. f_equal.
    clear Hc Hwf. induction Hrest as [|b l Hb _ IH]; simpl;
      [reflexivity|].
    destruct Hb as [Hlb _].
    rewrite length_app, Hlb, IH. reflexivity.
  - apply Forall_app. split; [exact Hra|].
    clear Hwf. induction Hrest as [|b l Hb _ IH]; simpl;
      [constructor|].
    destruct Hb as [_ Hrb].
    apply Forall_app. split.
    + assert (Hb : Np.ncols b = Np.ncols a).
      { apply Nat.eqb_eq. apply Hc. left. reflexivity. }
      rewrite <- Hb. exact Hrb.
    + apply IH. intros x Hx. apply Hc. right. exact Hx.
Qed.

(** ** Arrays side by side *)

Lemma present_In {A : Type} (l : list (option A)) (a : A) :
  In a (present l) <-> In (Some a) l.
Proof.
  unfold present. rewrite in_flat_map. split.
  - intros ([b|] & Hin & Hb); simpl in Hb; [|contradiction].
    destruct Hb as [<-|[]]. exact Hin.
  - intros Hin. exists (Some a). split; [exact Hin|]. left. reflexivity.
Qed.

Lemma zip_rows_length {A : Type} (xs ys : list (list A)) :
  List.length xs = List.length ys ->
  List.length (Np.zip_rows xs ys) = List.length xs.
Proof.
  revert ys. induction xs as [|x xs IH]; intros [|y ys] H; simpl in *;
    try discriminate; [reflexivity|].
  f_equal. apply IH. lia.
Qed.

Lemma zip_rows_widths {A : Type} (n m : nat) (xs ys : list (list A)) :
  Forall (fun r => List.length r = n) xs ->
  Forall (fun r => List.length r = m) ys ->
  Forall (fun r => List.length r = n + m) (Np.zip_rows xs ys).
Proof.
  intros Hx. revert ys. induction Hx as [|x xs Hlen _ IH]; intros ys Hy.
  - constructor.
  - destruct Hy as [|y ys Hy1 Hy2]; simpl; constructor.
    + rewrite length_app. lia.
    + apply IH. exact Hy2.
Qed.

Lemma hstack2_wf {A : Type} (a b : Np.ndarray A) :
  Np.wf a -> Np.wf b -> Np.nrows b = Np.nrows a -> Np.wf (Np.hstack2 a b).
Proof.
  intros [La Ra] [Lb Rb] Hn. unfold Np.wf, Np.hstack2. simpl. split.
  - rewrite zip_rows_length; [exact La|]. lia.
  - apply zip_rows_widths; assumption.
Qed.

Lemma fold_hstack2_shape {A : Type} (rest : list (Np.ndarray A)) :
  forall a,
    Np.nrows (fold_left Np.hstack2 rest a) = Np.nrows a /\
    Np.ncols (fold_left Np.hstack2 rest a)
    = Np.ncols a + list_sum (map Np.ncols rest).
Proof.
  induction rest as [|b rest IH]; intros a; simpl.
  - split; [reflexivity|lia].
  - destruct (IH (Np.hstack2 a b)) as [H1 H2]. rewrite H1, H2. simpl.
    split; [reflexivity|lia].
Qed.

Lemma fold_hstack2_wf {A : Type} (rest : list (Np.ndarray A)) :
  forall a,
    Np.wf a -> Forall Np.wf rest ->
    Forall (fun b => Np.nrows b = Np.nrows a) rest ->
    Np.wf (fold_left Np.hstack2 rest a).
Proof.
  induction rest as [|b rest IH]; intros a Ha Hrest Hrows; simpl.
  - exact Ha.
  - inversion Hrest; subst. inversion Hrows; subst.
    apply IH; [apply hstack2_wf; assumption|assumption|].
    simpl. assumption.
Qed.

Lemma concatenate_axis1_ok_iff {A : Type} (l : list (Np.ndarray A))
  (x : Np.ndarray A) :
  Np.concatenate_axis1 l = OK x <->
  exists a rest,
    l = a :: rest /\
    Forall (fun b => Np.nrows b = Np.nrows a) rest /\
    x = fold_left Np.hstack2 rest a.
Proof.
  unfold Np.concatenate_axis1. split.
  - destruct l as [|a rest]; [discriminate|].
    destruct (forallb _ rest) eqn:E; [|discriminate].
    intros H. injection H as <-. exists a, rest.
    split; [reflexivity|]. split; [|reflexivity].
    rewrite forallb_forall in E. apply Forall_forall.
    intros b Hb. apply Nat.eqb_eq. apply E. exact Hb.
  - intros (a & rest & -> & Hall & ->).
    assert (E : forallb (fun b => Nat.eqb (Np.nrows b) (Np.nrows a)) rest
                = true).
    { apply forallb_forall. rewrite Forall_forall in Hall.
      intros b Hb. apply Nat.eqb_eq. apply Hall. exact Hb. }
    rewrite E. reflexivity.
Qed.

Lemma zip_rows_nth {A : Type} (xs ys : list (list A)) (i : nat) :
  List.length xs = List.length ys -> i < List.length xs ->
  nth i (Np.zip_rows xs ys) [] = nth i xs [] ++ nth i ys [].
Proof.
  revert ys i. induction xs as [|x xs IH]; intros [|y ys] i Hlen Hi;
    simpl in *; try discriminate; try lia.
  destruct i as [|i]; [reflexivity|]. apply IH; lia.
Qed.

(** Row [i] of arrays put side by side is row [i] of each, one after the
    other. *)
Lemma fold_hstack2_row {A : Type} (rest : list (Np.ndarray A)) :
  forall a i,
    Forall (fun b => List.length (Np.rows b) = List.length (Np.rows a)) rest ->
    i < List.length (Np.rows a) ->
    nth i (Np.rows (fold_left Np.hstack2 rest a)) []
    = nth i (Np.rows a) []
      ++ List.concat (map (fun b => nth i (Np.rows b) []) rest).
Proof.
  induction rest as [|b rest IH]; intros a i Hall Hi; simpl.
  - rewrite app_nil_r. reflexivity.
  - inversion Hall as [|? ? Hb Hrest]; subst.
    assert (Hlen : List.length (Np.rows (Np.hstack2 a b))
                   = List.length (Np.rows a)).
    { simpl. apply zip_rows_length. congruence. }
    rewrite IH.
    + simpl. rewrite zip_rows_nth by congruence.
      rewrite <- app_assoc. reflexivity.
    + rewrite Hlen. exact Hrest.
    + rewrite Hlen. exact Hi.
Qed.

(** ** [gather_data] *)

Lemma local_features_absent (extracted_chunks : dict (option marray)) :
  In None (values extracted_chunks) ->
  local_features extracted_chunks = OK None.
Proof.
  intros Hin. unfold local_features.
  apply existsb_is_None in Hin. rewrite Hin. reflexivity.
Qed.

Lemma local_features_present (extracted_chunks : dict (option marray)) :
  ~ In None (values extracted_chunks) ->
  local_features extracted_chunks
  = (x <- Np.concatenate_axis1 (present (values extracted_chunks)) ;;
     OK (Some x))%res.
Proof.
  intros Hn. unfold local_features.
  destruct (existsb is_None (values extracted_chunks)) eqn:He;
    [|reflexivity].
  apply existsb_is_None in He. contradiction.
Qed.

(** [gather_data] returns exactly when the local concatenation, the
    composition, the all-gather and the stacking all succeed. *)
Lemma gather_data_ok_iff (extracted_chunks : dict (option marray))
  (compose_settings : ComposeSettings) (h h' : list event) (X : marray) :
  gather_data extracted_chunks compose_settings h = (OK X, h') <->
  exists x x_out settings' X_list,
    local_features extracted_chunks = OK x /\
    env_compose_features env h x compose_settings = inl (x_out, settings') /\
    env_allgather env
      (h ++ [Enter (CallComposeFeatures x); Leave (CallComposeFeatures x)])
      x_out = inl X_list /\
    Np.vstack (present X_list) = OK X /\
    h' = h ++ gather_events x x_out.
Proof.
  unfold gather_data, io_bind, lift, compose_features, allgather, external,
    gather_events.
  split.
  - destruct (local_features extracted_chunks) as [x|e]; [|discriminate].
    destruct (env_compose_features env h x compose_settings)
      as [[x_out s']|w] eqn:Hc; [|discriminate].
    destruct (env_allgather env _ x_out) as [X_list|w] eqn:Ha;
      [|discriminate].
    intros H. injection H as HX Hh.
    exists x, x_out, s', X_list.
    repeat split; try assumption.
    rewrite <- Hh, <- app_assoc. reflexivity.
  - intros (x & x_out & s' & X_list & Hl & Hc & Ha & Hv & ->).
    rewrite Hl, Hc, Ha, Hv, <- app_assoc. reflexivity.
Qed.

(** What the concatenation of the chunks is, when it is made. *)
Lemma local_features_concatenation (extracted_chunks : dict (option marray))
  (a : marray) :
  ~ In None (values extracted_chunks) ->
  local_features extracted_chunks = OK (Some a) ->
  present (values extracted_chunks) <> [] /\
  (forall c, In c (present (values extracted_chunks)) ->
             Np.nrows c = Np.nrows a) /\
  Np.ncols a = list_sum (map Np.ncols (present (values extracted_chunks))) /\
  (Forall Np.wf (present (values extracted_chunks)) ->
   Np.wf a /\
   forall i, i < Np.nrows a ->
     nth i (Np.rows a) []
     = List.concat (map (fun c => nth i (Np.rows c) [])
                      (present (values extracted_chunks)))).
Proof.
  intros Hn Hl. rewrite (local_features_present _ Hn) in Hl.
  destruct (Np.concatenate_axis1 (present (values extracted_chunks)))
    as [a'|] eqn:E; [|discriminate].
  simpl in Hl. injection Hl as ->.
  apply concatenate_axis1_ok_iff in E.
  destruct E as (a0 & rest & Hp & Hall & ->). rewrite Hp.
  destruct (fold_hstack2_shape rest a0) as [Hr Hc].
  split; [discriminate|]. split; [|split].
  - intros c [<-|Hin]; [symmetry; exact Hr|].
    rewrite Forall_forall in Hall. rewrite Hr. apply Hall. exact Hin.
  - rewrite Hc. reflexivity.
  - intros Hwf. inversion Hwf as [|? ? Ha0 Hrest]; subst.
    split; [apply fold_hstack2_wf; assumption|].
    intros i Hi. rewrite Hr in Hi. simpl.
    destruct Ha0 as [La0 _].
    apply fold_hstack2_row; [|lia].
    rewrite Forall_forall in *. intros b Hb.
    destruct (Hrest b Hb) as [Lb _]. rewrite Lb, La0. apply Hall. exact Hb.
Qed.

Lemma local_features_made (extracted_chunks : dict (option marray)) :
  ~ In None (values extracted_chunks) ->
  present (values extracted_chunks) <> [] ->
  (forall c1 c2,
      In c1 (present (values extracted_chunks)) ->
      In c2 (present (values extracted_chunks)) ->
      Np.nrows c1 = Np.nrows c2) ->
  exists a, local_features extracted_chunks = OK (Some a).
Proof.
  intros Hn Hne Hsame. rewrite (local_features_present _ Hn).
  destruct (present (values extracted_chunks)) as [|a0 rest] eqn:Hp;
    [contradiction|].
  rewrite (proj2 (concatenate_axis1_ok_iff (a0 :: rest)
                    (fold_left Np.hstack2 rest a0))).
  - simpl. eauto.
  - exists a0, rest. split; [reflexivity|]. split; [|reflexivity].
    apply Forall_forall. intros b Hb. apply Hsame; [right; exact Hb|].
    left. reflexivity.
Qed.

(** C1.  For every mapping from source names to extracted chunks: when
    some chunk is [None] the worker hands [None] to the composition, and,
    the composition of nothing being nothing, contributes [None], which
    adds no row to the gathered dataset; otherwise it hands over the
    column-wise concatenation of all its chunks, in the mapping's order:
    an array with the chunks' common number of rows whose row [i] is row
    [i] of every chunk, one after the other (made whenever there is a
    chunk and the chunks agree on their number of rows); and the dataset
    [X] that [gather_data] returns has as many rows as the non-[None]
    contributions of all workers together (its shape says so, and its
    rows are that many when the contributions are well formed);
    [gather_data] returns whenever the concatenation, the composition,
    the all-gather and the stacking do. *)
Theorem gather_data_row_count :
  forall (extracted_chunks : dict (option marray))
         (compose_settings : ComposeSettings) (h : list event),
    (In None (values extracted_chunks) ->
       local_features extracted_chunks = OK None) /\
    (~ In None (values extracted_chunks) ->
       values extracted_chunks
       = map Some (present (values extracted_chunks)) /\
       (forall x,
           local_features extracted_chunks = OK x ->
           exists a, x = Some a) /\
       (forall a,
           local_features extracted_chunks = OK (Some a) ->
           present (values extracted_chunks) <> [] /\
           (forall c, In c (present (values extracted_chunks)) ->
                      Np.nrows c = Np.nrows a) /\
           Np.ncols a
           = list_sum (map Np.ncols (present (values extracted_chunks))) /\
           (Forall Np.wf (present (values extracted_chunks)) ->
            Np.wf a /\
            forall i, i < Np.nrows a ->
              nth i (Np.rows a) []
              = List.concat (map (fun c => nth i (Np.rows c) [])
                               (present (values extracted_chunks))))) /\
       (present (values extracted_chunks) <> [] ->
        (forall c1 c2,
            In c1 (present (values extracted_chunks)) ->
            In c2 (present (values extracted_chunks)) ->
            Np.nrows c1 = Np.nrows c2) ->
        exists a, local_features extracted_chunks = OK (Some a))) /\
    (forall X h',
        gather_data extracted_chunks compose_settings h = (OK X, h') ->
        exists x x_out settings' X_list,
          local_features extracted_chunks = OK x /\
          env_compose_features env h x compose_settings
          = inl (x_out, settings') /\
          env_allgather env
            (h ++ [Enter (CallComposeFeatures x);
                   Leave (CallComposeFeatures x)]) x_out = inl X_list /\
          Np.vstack (present X_list) = OK X /\
          h' = h ++ gather_events x x_out /\
          ((forall h0 s out s',
               env_compose_features env h0 None s = inl (out, s') ->
               out = None) ->
           In None (values extracted_chunks) -> x_out = None) /\
          Np.nrows X = list_sum (map Np.nrows (present X_list)) /\
          (Forall Np.wf (present X_list) -> Np.wf X) /\
          (forall lo hi,
              X_list = lo ++ x_out :: hi -> x_out = None ->
              Np.nrows X
              = list_sum (map Np.nrows (present lo))
                + list_sum (map Np.nrows (present hi)))) /\
    (forall x x_out settings' X_list X,
        local_features extracted_chunks = OK x ->
        env_compose_features env h x compose_settings
        = inl (x_out, settings') ->
        env_allgather env
          (h ++ [Enter (CallComposeFeatures x);
                 Leave (CallComposeFeatures x)]) x_out = inl X_list ->
        Np.vstack (present X_list) = OK X ->
        gather_data extracted_chunks compose_settings h
        = (OK X, h ++ gather_events x x_out)).
Proof.
  intros extracted_chunks compose_settings h.
  split; [apply local_features_absent|].
  split.
  { intros Hn. split; [apply present_all; exact Hn|].
    split; [|split].
    - intros x Hx. rewrite (local_features_present _ Hn) in Hx.
      destruct (Np.concatenate_axis1 (present (values extracted_chunks)))
        as [a|]; [|discriminate].
      simpl in Hx. injection Hx as <-. eauto.
    - intros a. apply local_features_concatenation. exact Hn.
    - apply local_features_made. exact Hn. }
  split.
  - intros X h' Hrun.
    apply gather_data_ok_iff in Hrun.
    destruct Hrun as (x & x_out & s' & X_list & Hl & Hc & Ha & Hv & Hh).
    exists x, x_out, s', X_list.
    assert (Hrows : Np.nrows X = list_sum (map Np.nrows (present X_list)))
      by (apply vstack_nrows; exact Hv).
    split; [exact Hl|]. split; [exact Hc|]. split; [exact Ha|].
    split; [exact Hv|]. split; [exact Hh|].
    split; [|split; [exact Hrows|split]].
    + intros Hnone Hin. rewrite (local_features_absent _ Hin) in Hl.
      injection Hl as <-. eapply Hnone. exact Hc.
    + intros Hwf. eapply vstack_wf; eassumption.
    + intros lo hi -> ->. rewrite Hrows, present_app. simpl.
      rewrite map_app, list_sum_app. reflexivity.
  - intros x x_out s' X_list X Hl Hc Ha Hv.
    apply gather_data_ok_iff. exists x, x_out, s', X_list.
    repeat split; assumption.
Qed.

(** ** [export_feature_ranks] *)

Lemma split_maps {A B : Type} (l : list (A * B)) :
  split l = (map fst l, map snd l).
Proof.
  induction l as [|[a b] l IH]; simpl; [reflexivity|].
  rewrite IH. reflexivity.
Qed.

Lemma combine_maps {A B : Type} (l : list (A * B)) :
  combine (map fst l) (map snd l) = l.
Proof.
  induction l as [|[a b] l IH]; simpl; [reflexivity|].
  rewrite IH. reflexivity.
Qed.

Lemma StronglySorted_map {A B : Type} (f : A -> B) (R : B -> B -> Prop)
  (l : list A) :
  StronglySorted (fun a b => R (f a) (f b)) l -> StronglySorted R (map f l).
Proof.
  induction 1 as [|a l Hs IH Hall]; simpl; constructor.
  - exact IH.
  - rewrite Forall_forall in *. intros b Hb.
    apply in_map_iff in Hb. destruct Hb as (x & <- & Hx).
    apply Hall. exact Hx.
Qed.

Lemma sorted_by_score_consistent (pairs : list (string * float)) :
  consistent snd float_ltb pairs = true ->
  sorted_by_score pairs = sorted snd float_ltb pairs.
Proof. intros H. unfold sorted_by_score. rewrite H. reflexivity. Qed.

Lemma sorted_by_score_nil : sorted_by_score [] = [].
Proof. reflexivity. Qed.

Lemma feature_rank_listing_entries
  (P : string -> list string -> list float -> Prop)
  (features : list string) :
  forall rows acc out,
    (forall m row, In (m, row) rows ->
       P m (map fst (ranked features row)) (map snd (ranked features row))) ->
    (forall m fs ss,
        lookup m (sl_ranks acc) = Some fs ->
        lookup m (sl_scores acc) = Some ss -> P m fs ss) ->
    feature_rank_listing rows features acc = OK out ->
    forall m fs ss,
      lookup m (sl_ranks out) = Some fs ->
      lookup m (sl_scores out) = Some ss -> P m fs ss.
Proof.
  induction rows as [|[measure row] rows IH]; intros acc out Hrows Hacc Hrun.
  - simpl in Hrun. injection Hrun as <-. exact Hacc.
  - cbn [feature_rank_listing] in Hrun.
    change (sorted_by_score (combine features row))
      with (ranked features row) in Hrun.
    pose proof (Hrows measure row (or_introl eq_refl)) as Hnew.
    rewrite split_maps in Hrun.
    destruct (ranked features row) as [|p l] eqn:Hr; [discriminate|].
    rewrite <- Hr in Hrun.
    eapply IH; [| |exact Hrun].
    + intros m r Hin. apply Hrows. right. exact Hin.
    + simpl. intros m fs ss. rewrite !lookup_setitem.
      destruct (String.eqb m measure) eqn:E.
      * apply String.eqb_eq in E. subst m.
        intros H1 H2. injection H1 as <-. injection H2 as <-.
        rewrite Hr. exact Hnew.
      * apply Hacc.
Qed.

Lemma feature_rank_listing_keys (features : list string) :
  forall rows acc out,
    feature_rank_listing rows features acc = OK out ->
    forall m,
      (In m (keys (sl_ranks out))
       <-> In m (keys (sl_ranks acc)) \/ In m (map fst rows)) /\
      (In m (keys (sl_scores out))
       <-> In m (keys (sl_scores acc)) \/ In m (map fst rows)).
Proof.
  induction rows as [|[measure row] rows IH]; intros acc out Hrun m.
  - simpl in Hrun. injection Hrun as <-. simpl. tauto.
  - cbn [feature_rank_listing] in Hrun.
    destruct (sorted_by_score (combine features row)) as [|p l];
      [discriminate|].
    destruct (split (p :: l)) as [fs ss].
    specialize (IH _ _ Hrun m). simpl in IH.
    rewrite !keys_setitem in IH. simpl.
    destruct IH as [IH1 IH2]. split; [rewrite IH1|rewrite IH2];
      intuition congruence.
Qed.

(** A listing is made whenever there is a feature and every metric has a
    score, the scores of each metric being consistently ordered. *)
Lemma feature_rank_listing_total (features : list string) :
  features <> [] ->
  forall rows acc,
    Forall (fun r => snd r <> [] /\
                     consistent snd float_ltb (combine features (snd r))
                     = true) rows ->
    exists out, feature_rank_listing rows features acc = OK out.
Proof.
  intros Hf. induction rows as [|[measure row] rows IH]; intros acc Hall.
  - eexists. reflexivity.
  - inversion Hall as [|? ? [Hrow Hc] Hrest]; subst. simpl in Hrow, Hc.
    cbn [feature_rank_listing].
    rewrite (sorted_by_score_consistent _ Hc).
    destruct (sorted snd float_ltb (combine features row)) as [|p l] eqn:Hs.
    + apply sorted_nil_iff in Hs.
      destruct features; [contradiction|].
      destruct row; [contradiction|]. discriminate.
    + destruct (split (p :: l)) as [fs ss]. apply IH. exact Hrest.
Qed.

(** C3, amended.  The report that [export_feature_ranks] writes has one
    entry per metric of the ranking, and the entry of a metric lists the
    [(source name, score)] pairs of one score row of that metric as
    [sorted] leaves them, by the same rule for every metric (nothing is
    reversed, whatever the metric).  When [<] orders the scores of the
    metric consistently (no [nan] gets in the way) this is the stable sort
    of the pairs by score, and the scores are listed in ascending order.
    The report is written by one [json.dump] to
    [<output_dir>/<name>_<algorithm>_featureranks.json], and it is made
    whenever there is a feature and every metric has consistently ordered
    scores.  ([<] on floats is asymmetric, whatever the values.) *)
Theorem export_feature_ranks_ascending :
  forall (measures features : list string) (scores : Np.ndarray float)
         (algorithm : string) (config : Config) (h : list event),
    (forall a b, float_ltb a b = true -> float_ltb b a = false) ->
    (features <> [] ->
     Forall (fun row => row <> [] /\
                        consistent snd float_ltb (combine features row)
                        = true) (Np.rows scores) ->
     exists listing,
       feature_rank_listing (combine measures (Np.rows scores)) features
         (mk_ScoreListing [] []) = OK listing) /\
    (forall listing,
        feature_rank_listing (combine measures (Np.rows scores)) features
          (mk_ScoreListing [] []) = OK listing ->
        let outfile :=
          path_join (cfg_output_dir config)
            (cfg_name config ++ "_" ++ algorithm ++ "_featureranks.json") in
        (env_json_dump env h outfile listing = inl tt ->
         export_feature_ranks measures features scores algorithm config h
         = (OK tt, h ++ [Enter (CallJsonDump outfile listing);
                         Leave (CallJsonDump outfile listing)])) /\
        (forall what,
            env_json_dump env h outfile listing = inr what ->
            export_feature_ranks measures features scores algorithm config h
            = (Raise (External what),
               h ++ [Enter (CallJsonDump outfile listing);
                     Failed (CallJsonDump outfile listing)])) /\
        (forall m,
            In m (keys (sl_ranks listing))
            <-> In m (map fst (combine measures (Np.rows scores)))) /\
        (forall m,
            In m (keys (sl_scores listing))
            <-> In m (map fst (combine measures (Np.rows scores)))) /\
        (forall measure sorted_features sorted_scores,
            lookup measure (sl_ranks listing) = Some sorted_features ->
            lookup measure (sl_scores listing) = Some sorted_scores ->
            exists measure_scores,
              In (measure, measure_scores)
                 (combine measures (Np.rows scores)) /\
              combine sorted_features sorted_scores
              = sorted_by_score (combine features measure_scores) /\
              (consistent snd float_ltb (combine features measure_scores)
               = true ->
               combine sorted_features sorted_scores
               = sorted snd float_ltb (combine features measure_scores) /\
               Permutation (combine sorted_features sorted_scores)
                 (combine features measure_scores) /\
               StronglySorted (fun a b => float_ltb b a = false)
                 sorted_scores))).
Proof.
  intros measures features scores algorithm config h Hasym. split.
  { intros Hf Hrows. apply feature_rank_listing_total; [exact Hf|].
    rewrite Forall_forall in *. intros [m r] Hin. simpl.
    apply Hrows. eapply in_combine_r. exact Hin. }
  intros listing Hl outfile.
  split.
  { intros Hd. unfold export_feature_ranks, io_bind, lift. rewrite Hl.
    unfold json_dump, external. fold outfile. rewrite Hd. reflexivity. }
  split.
  { intros what Hd. unfold export_feature_ranks, io_bind, lift. rewrite Hl.
    unfold json_dump, external. fold outfile. rewrite Hd. reflexivity. }
  pose proof (feature_rank_listing_keys _ _ _ _ Hl) as Hk.
  split; [|split].
  - intros m. destruct (Hk m) as [H1 _]. rewrite H1. simpl. tauto.
  - intros m. destruct (Hk m) as [_ H2]. rewrite H2. simpl. tauto.
  - apply (feature_rank_listing_entries
             (fun m fs ss =>
                exists row,
                  In (m, row) (combine measures (Np.rows scores)) /\
                  combine fs ss = sorted_by_score (combine features row) /\
                  (consistent snd float_ltb (combine features row) = true ->
                   combine fs ss
                   = sorted snd float_ltb (combine features row) /\
                   Permutation (combine fs ss) (combine features row) /\
                   StronglySorted (fun a b => float_ltb b a = false) ss))
             features _ _ _) with (3 := Hl).
    + intros m row Hin. exists row. unfold ranked.
      rewrite combine_maps.
      split; [exact Hin|]. split; [reflexivity|].
      intros Hc. rewrite (sorted_by_score_consistent _ Hc).
      split; [reflexivity|].
      split; [apply sorted_perm|].
      apply StronglySorted_map.
      apply (sorted_Sorted_on snd float_ltb Hasym). exact Hc.
    + simpl. intros m fs ss H. discriminate.
Qed.

(** ** [export_model] and the bundle that [predict] reads *)

Lemma load_bundle_ok_iff (d : dict pyobj) (partitions : Z) (m : Model)
  (c : CliConfig) :
  load_bundle d partitions = OK (m, c) <->
  exists c0,
    lookup "model" d = Some (PyModel m) /\
    lookup "config" d = Some (PyConfig c0) /\
    c = mk_CliConfig partitions (cli_name c0) (cli_algorithm c0)
          (cli_output_dir c0) (cli_rest c0).
Proof.
  unfold load_bundle, getitem. split.
  - destruct (lookup "model" d) as [om|]; [|discriminate]. simpl.
    destruct (lookup "config" d) as [oc|]; [|discriminate]. simpl.
    destruct om; try discriminate. simpl.
    destruct oc; try discriminate. simpl.
    intros H. injection H as <- <-. eexists. repeat split.
  - intros (c0 & Hm & Hc & ->). rewrite Hm, Hc. reflexivity.
Qed.

(** C4, amended.  The bundle that [export_model] pickles
    holds exactly the keys ['model'], ['image_settings'] and
    ['compose_settings'], bound to the trained model, the per-image
    extraction settings and the composition settings.  [predict] reads
    the keys ['model'] and ['config']: it succeeds exactly on bundles
    that bind both, and on a bundle written by [export_model] it raises
    [KeyError('config')] right after loading the file. *)
Theorem export_model_bundle_keys :
  forall (model : Model) (image_settings : dict ExtractSettings)
         (compose_settings : ComposeSettings) (algorithm : string)
         (config : Config) (partitions : Z) (h : list event),
    let state_dict :=
      model_state_dict model image_settings compose_settings in
    export_model model image_settings compose_settings algorithm config h
    = pickle_dump
        (path_join (cfg_output_dir config)
           (cfg_name config ++ "_" ++ algorithm ++ ".state"))
        state_dict h /\
    keys state_dict = ["model"; "image_settings"; "compose_settings"] /\
    lookup "model" state_dict = Some (PyModel model) /\
    lookup "image_settings" state_dict
    = Some (PyImageSettings image_settings) /\
    lookup "compose_settings" state_dict
    = Some (PyComposeSettings compose_settings) /\
    lookup "config" state_dict = None /\
    load_bundle state_dict partitions = Raise (KeyError "config") /\
    (forall file,
        env_pickle_load env h file = inl state_dict ->
        predict file partitions h
        = (Raise (KeyError "config"),
           h ++ [Enter (CallPickleLoad file); Leave (CallPickleLoad file)]))
    /\
    (forall (d : dict pyobj) m c,
        load_bundle d partitions = OK (m, c) <->
        exists c0,
          lookup "model" d = Some (PyModel m) /\
          lookup "config" d = Some (PyConfig c0) /\
          c = mk_CliConfig partitions (cli_name c0) (cli_algorithm c0)
                (cli_output_dir c0) (cli_rest c0)).
Proof.
  intros model image_settings compose_settings algorithm config partitions
    h state_dict.
  repeat (split; [reflexivity|]).
  split.
  - intros file Hload.
    unfold predict, io_bind, pickle_load, external. rewrite Hload.
    reflexivity.
  - intros d m c. apply load_bundle_ok_iff.
Qed.

(** ** [predict]: the rendering loop *)

Lemma range_In (n i : Z) : In i (range n) <-> (0 <= i < n)%Z.
Proof.
  unfold range. rewrite in_map_iff. split.
  - intros (k & <- & Hk). apply in_seq in Hk. lia.
  - intros Hi. exists (Z.to_nat i). split; [lia|]. apply in_seq. lia.
Qed.

Lemma range_increasing (n : Z) : StronglySorted Z.lt (range n).
Proof.
  unfold range. generalize (Z.to_nat n) as len. generalize 0 as start.
  intros start len. revert start.
  induction len as [|len IH]; intros start; simpl; constructor.
  - apply IH.
  - apply Forall_forall. intros z Hz. apply in_map_iff in Hz.
    destruct Hz as (k & <- & Hk). apply in_seq in Hk. lia.
Qed.

Lemma range_length (n : Z) : List.length (range n) = Z.to_nat n.
Proof. unfold range. rewrite length_map, length_seq. reflexivity. Qed.

Lemma render_body_step model image_out config (i : Z) (h : list event) :
  render_body model image_out config tt i h
  = match env_render_partition env (h ++ [starting i]) model i image_out
            config with
    | inl u => (OK u, h ++ rendered i)
    | inr what => (Raise (External what), h ++ render_failed i)
    end.
Proof.
  unfold render_body, io_bind, log, render_partition, external, rendered,
    render_failed, starting.
  destruct (env_render_partition env _ model i image_out config);
    rewrite <- app_assoc; reflexivity.
Qed.

Lemma render_loop_ok model image_out config (l : list Z) :
  forall h h' u,
    for_each l (render_body model image_out config) u h = (OK tt, h') ->
    h' = h ++ flat_map rendered l.
Proof.
  induction l as [|i l IH]; intros h h' [] Hrun; simpl in *.
  - injection Hrun as <-. rewrite app_nil_r. reflexivity.
  - unfold io_bind in Hrun. rewrite render_body_step in Hrun.
    destruct (env_render_partition env _ model i image_out config);
      [|discriminate].
    apply IH in Hrun. rewrite Hrun, <- !app_assoc. reflexivity.
Qed.

Lemma render_loop_raise model image_out config (l : list Z) :
  forall h h' u e,
    for_each l (render_body model image_out config) u h = (Raise e, h') ->
    exists done i rest what,
      l = done ++ i :: rest /\
      e = External what /\
      h' = h ++ flat_map rendered done ++ render_failed i.
Proof.
  induction l as [|i l IH]; intros h h' [] e Hrun; simpl in *.
  - discriminate.
  - unfold io_bind in Hrun. rewrite render_body_step in Hrun.
    destruct (env_render_partition env _ model i image_out config)
      as [u|what].
    + apply IH in Hrun.
      destruct Hrun as (done & j & rest & w & -> & -> & ->).
      exists (i :: done), j, rest, w.
      repeat split. simpl. rewrite <- !app_assoc. reflexivity.
    + injection Hrun as <- <-.
      exists [], i, l, what. repeat split.
Qed.

Lemma render_loop_total model image_out config (l : list Z) :
  (forall i h0, In i l ->
      exists u, env_render_partition env h0 model i image_out config
                = inl u) ->
  forall h u,
    for_each l (render_body model image_out config) u h
    = (OK tt, h ++ flat_map rendered l).
Proof.
  induction l as [|i l IH]; intros Hok h []; simpl.
  - unfold ret. rewrite app_nil_r. reflexivity.
  - unfold io_bind. rewrite render_body_step.
    destruct (Hok i (h ++ [starting i]) (or_introl eq_refl)) as [[] Hu].
    rewrite Hu. rewrite IH.
    + rewrite <- !app_assoc. reflexivity.
    + intros j h0 Hj. apply Hok. right. exact Hj.
Qed.

Lemma render_all_unfold model image_out config (h : list event) :
  render_all model image_out config h
  = match for_each (range (cli_n_subchunks config))
            (render_body model image_out config) tt h with
    | (OK _, h') => (OK tt, h' ++ [finished])
    | (Raise e, h') => (Raise e, h')
    end.
Proof. reflexivity. Qed.

Lemma render_all_ok model image_out config (h h' : list event) :
  render_all model image_out config h = (OK tt, h') ->
  h' = h ++ flat_map rendered (range (cli_n_subchunks config)) ++ [finished].
Proof.
  intros Hrun. rewrite render_all_unfold in Hrun.
  destruct (for_each _ _ tt h) as [[[]|e] h1] eqn:Hloop; [|discriminate].
  apply render_loop_ok in Hloop. injection Hrun as <-.
  rewrite Hloop, <- app_assoc. reflexivity.
Qed.

Lemma render_all_raise model image_out config (h h' : list event) (e : exn) :
  render_all model image_out config h = (Raise e, h') ->
  exists done i rest what,
    range (cli_n_subchunks config) = done ++ i :: rest /\
    e = External what /\
    h' = h ++ flat_map rendered done ++ render_failed i.
Proof.
  intros Hrun. rewrite render_all_unfold in Hrun.
  destruct (for_each _ _ tt h) as [[[]|e1] h1] eqn:Hloop; [discriminate|].
  injection Hrun as <- <-.
  eapply render_loop_raise. exact Hloop.
Qed.

Lemma render_all_total model image_out config (h : list event) :
  (forall i h0, In i (range (cli_n_subchunks config)) ->
      exists u, env_render_partition env h0 model i image_out config
                = inl u) ->
  render_all model image_out config h
  = (OK tt,
     h ++ flat_map rendered (range (cli_n_subchunks config)) ++ [finished]).
Proof.
  intros Hok. rewrite render_all_unfold.
  rewrite (render_loop_total model image_out config _ Hok).
  rewrite <- app_assoc. reflexivity.
Qed.

(** A [predict] run that returns: what precedes the rendering loop
    involves no rendering, and the loop runs over [range(partitions)]. *)
Lemma predict_ok_trace (file : string) (partitions : Z)
  (h h' : list event) :
  predict file partitions h = (OK tt, h') ->
  exists pre,
    Forall (fun ev => ~ is_render ev) pre /\
    h' = h ++ pre ++ flat_map rendered (range partitions) ++ [finished].
Proof.
  unfold predict, io_bind, pickle_load, lift, get_image_spec,
    get_predict_tags, new_ImageWriter, external.
  destruct (env_pickle_load env h file) as [sd|]; [|discriminate].
  destruct (load_bundle sd partitions) as [[model config]|] eqn:Hb;
    [|discriminate].
  apply load_bundle_ok_iff in Hb. destruct Hb as (c0 & _ & _ & Hc).
  assert (Hn : cli_n_subchunks config = partitions) by (subst; reflexivity).
  set (l := if (1 <? cli_n_subchunks config)%Z
            then Log "INFO" ("Memory contstraint forcing " ++
                             format_int (cli_n_subchunks config) ++
                             " iterations through data")
            else Log "INFO"
              "Using memory aggressively: dividing all data between nodes").
  assert (Hlog :
    (if (1 <? cli_n_subchunks config)%Z
     then log "INFO" ("Memory contstraint forcing " ++
                      format_int (cli_n_subchunks config) ++
                      " iterations through data")
     else log "INFO"
            "Using memory aggressively: dividing all data between nodes")
      (h ++ [Enter (CallPickleLoad file); Leave (CallPickleLoad file)])
    = (OK tt,
       (h ++ [Enter (CallPickleLoad file); Leave (CallPickleLoad file)])
       ++ [l])).
  { unfold l, log. destruct (1 <? cli_n_subchunks config)%Z; reflexivity. }
  rewrite Hlog. clear Hlog.
  destruct (env_get_image_spec env _ model config) as [[shape bbox]|];
    [|discriminate].
  destruct (env_get_predict_tags env _ model) as [tags|]; [|discriminate].
  destruct (env_ImageWriter env _ shape bbox _ _ _ tags) as [image_out|];
    [|discriminate].
  intros Hrun. apply render_all_ok in Hrun. rewrite Hn in Hrun.
  exists ([Enter (CallPickleLoad file); Leave (CallPickleLoad file); l;
           Enter CallGetImageSpec; Leave CallGetImageSpec;
           Enter CallGetPredictTags; Leave CallGetPredictTags]
          ++ [Enter (CallImageWriter
                       (cli_name config ++ "_" ++ cli_algorithm config)
                       partitions (cli_output_dir config));
              Leave (CallImageWriter
                       (cli_name config ++ "_" ++ cli_algorithm config)
                       partitions (cli_output_dir config))]).
  split.
  - assert (Hl : ~ is_render l).
    { intros [i [H|[H|H]]]; unfold l in H;
        destruct (1 <? cli_n_subchunks config)%Z; discriminate. }
    apply Forall_app. split.
    + repeat (apply Forall_cons; [first [exact Hl
               | intros [i [H|[H|H]]]; discriminate]|]).
      apply Forall_nil.
    + repeat (apply Forall_cons;
                [intros [i [H|[H|H]]]; discriminate|]).
      apply Forall_nil.
  - rewrite Hrun. rewrite <- !app_assoc. reflexivity.
Qed.

Lemma predict_log_partitions (config : CliConfig) (h0 : list event) :
  (if (1 <? cli_n_subchunks config)%Z
   then log "INFO" ("Memory contstraint forcing " ++
                    format_int (cli_n_subchunks config) ++
                    " iterations through data")
   else log "INFO"
          "Using memory aggressively: dividing all data between nodes") h0
  = (OK tt, h0 ++ [memory_report (cli_n_subchunks config)]).
Proof.
  unfold memory_report, log.
  destruct (1 <? cli_n_subchunks config)%Z; reflexivity.
Qed.

(** [predict] returns, having rendered every partition, whenever the
    bundle binds a model and a configuration and the collaborators
    return. *)
Lemma predict_returns (file : string) (partitions : Z) (h : list event)
  (state_dict : dict pyobj) (m : Model) (c0 : CliConfig) :
  env_pickle_load env h file = inl state_dict ->
  lookup "model" state_dict = Some (PyModel m) ->
  lookup "config" state_dict = Some (PyConfig c0) ->
  (forall h0 cfg, exists spec, env_get_image_spec env h0 m cfg = inl spec) ->
  (forall h0, exists tags, env_get_predict_tags env h0 m = inl tags) ->
  (forall h0 shape bbox name n dir tags,
      exists w, env_ImageWriter env h0 shape bbox name n dir tags = inl w) ->
  (forall h0 i w cfg, exists u, env_render_partition env h0 m i w cfg = inl u)
  ->
  predict file partitions h
  = (OK tt,
     h ++ predict_prelude file partitions c0
       ++ flat_map rendered (range partitions) ++ [finished]).
Proof.
  intros Hload Hm Hc Hspec Htags Hwriter Hrender.
  unfold predict, io_bind, pickle_load, lift, get_image_spec,
    get_predict_tags, new_ImageWriter, external.
  rewrite Hload.
  rewrite (proj2 (load_bundle_ok_iff state_dict partitions m
                    (mk_CliConfig partitions (cli_name c0) (cli_algorithm c0)
                       (cli_output_dir c0) (cli_rest c0))))
    by (exists c0; repeat split; assumption).
  rewrite predict_log_partitions.
  cbn [cli_n_subchunks cli_name cli_algorithm cli_output_dir].
  match goal with
  | |- context [env_get_image_spec env ?h0 m ?cfg] =>
      destruct (Hspec h0 cfg) as [[shape bbox] ->]
  end.
  match goal with
  | |- context [env_get_predict_tags env ?h0 m] =>
      destruct (Htags h0) as [tags ->]
  end.
  match goal with
  | |- context [env_ImageWriter env ?h0 ?a ?b ?c ?d ?e ?f] =>
      destruct (Hwriter h0 a b c d e f) as [w ->]
  end.
  rewrite render_all_total by (intros i h0 _; apply Hrender).
  cbn [cli_n_subchunks]. unfold predict_prelude.
  rewrite <- !app_assoc. reflexivity.
Qed.

Lemma not_finished_rendered (l : list Z) : ~ In finished (flat_map rendered l).
Proof.
  intros Hin. apply in_flat_map in Hin. destruct Hin as (i & _ & Hi).
  unfold rendered, starting, finished in Hi. simpl in Hi.
  destruct Hi as [H|[H|[H|[]]]]; discriminate.
Qed.

Lemma not_finished_failed (i : Z) : ~ In finished (render_failed i).
Proof.
  unfold render_failed, starting, finished. simpl.
  intros [H|[H|[H|[]]]]; discriminate.
Qed.

Lemma not_finished_memory_report (n : Z) : memory_report n <> finished.
Proof.
  unfold memory_report, finished.
  destruct (1 <? n)%Z; simpl; discriminate.
Qed.

(** A [predict] run that raises has not reported the end. *)
Lemma predict_raise_unfinished (file : string) (partitions : Z)
  (h h' : list event) (e : exn) :
  predict file partitions h = (Raise e, h') ->
  exists es, h' = h ++ es /\ ~ In finished es.
Proof.
  unfold predict, io_bind, pickle_load, lift, get_image_spec,
    get_predict_tags, new_ImageWriter, external.
  destruct (env_pickle_load env h file) as [sd|].
  2:{ intros H. injection H as _ <-. eexists. split; [reflexivity|].
      simpl. intros [H|[H|[]]]; discriminate. }
  destruct (load_bundle sd partitions) as [[model config]|].
  2:{ intros H. injection H as _ <-. eexists. split; [reflexivity|].
      simpl. intros [H|[H|[]]]; discriminate. }
  rewrite predict_log_partitions.
  pose proof (not_finished_memory_report (cli_n_subchunks config)) as Hmem.
  destruct (env_get_image_spec env _ model config) as [[shape bbox]|].
  2:{ intros H. injection H as _ <-. eexists.
      split; [rewrite <- !app_assoc; reflexivity|].
      simpl. intros [H|[H|[H|[H|[H|[]]]]]];
        try discriminate; apply Hmem; exact H. }
  destruct (env_get_predict_tags env _ model) as [tags|].
  2:{ intros H. injection H as _ <-. eexists.
      split; [rewrite <- !app_assoc; reflexivity|].
      simpl. intros [H|[H|[H|[H|[H|[H|[H|[]]]]]]]];
        try discriminate; apply Hmem; exact H. }
  destruct (env_ImageWriter env _ shape bbox _ _ _ tags) as [image_out|].
  2:{ intros H. injection H as _ <-. eexists.
      split; [rewrite <- !app_assoc; reflexivity|].
      simpl. intros [H|[H|[H|[H|[H|[H|[H|[H|[H|[]]]]]]]]]];
        try discriminate; apply Hmem; exact H. }
  intros Hrun. apply render_all_raise in Hrun.
  destruct Hrun as (done & i & rest & what & _ & _ & ->).
  eexists. split; [rewrite <- !app_assoc; reflexivity|].
  simpl. intros [H|[H|[H|[H|[H|[H|[H|[H|[H|Hin]]]]]]]]];
    try discriminate; try (apply Hmem; exact H).
  apply in_app_or in Hin. destruct Hin as [Hin|Hin].
  - exact (not_finished_rendered _ Hin).
  - exact (not_finished_failed _ Hin).
Qed.

(** C8.  With [S = n_subchunks] partitions the indices rendered are
    [0, 1, ..., S-1], strictly increasing.  A run of the loop that
    returns has entered and left [render_partition] once for every index,
    in that order, each call being left before the next pass starts, and
    reports ["Finished!"] after the last one; a run in which some
    rendering raises stops there, without the report; the loop returns
    whenever every rendering does.  For the [predict] command as a whole:
    a run that returns has done nothing with [render_partition] before
    this loop, which runs with [S] the number of partitions asked for; a
    run that raises has not reported the end; and [predict] does return,
    after the loop over all [S] partitions and its report, whenever the
    bundle binds a model and a configuration and the collaborators
    return. *)
Theorem render_all_in_order :
  forall (model : Model) (image_out : ImageWriter) (config : CliConfig)
         (h : list event),
    let parts := range (cli_n_subchunks config) in
    (forall i, In i parts <-> (0 <= i < cli_n_subchunks config)%Z) /\
    StronglySorted Z.lt parts /\
    (forall h',
        render_all model image_out config h = (OK tt, h') ->
        h' = h ++ flat_map rendered parts ++ [finished]) /\
    (forall e h',
        render_all model image_out config h = (Raise e, h') ->
        exists done i rest what,
          parts = done ++ i :: rest /\
          e = External what /\
          h' = h ++ flat_map rendered done ++ render_failed i) /\
    ((forall i h0, In i parts ->
         exists u, env_render_partition env h0 model i image_out config
                   = inl u) ->
     render_all model image_out config h
     = (OK tt, h ++ flat_map rendered parts ++ [finished])) /\
    (forall file partitions h',
        predict file partitions h = (OK tt, h') ->
        exists pre,
          Forall (fun ev => ~ is_render ev) pre /\
          h' = h ++ pre ++ flat_map rendered (range partitions)
                 ++ [finished]) /\
    (forall file partitions e h',
        predict file partitions h = (Raise e, h') ->
        exists es, h' = h ++ es /\ ~ In finished es) /\
    (forall file partitions state_dict c0,
        env_pickle_load env h file = inl state_dict ->
        lookup "model" state_dict = Some (PyModel model) ->
        lookup "config" state_dict = Some (PyConfig c0) ->
        (forall h0 cfg,
            exists spec, env_get_image_spec env h0 model cfg = inl spec) ->
        (forall h0, exists tags, env_get_predict_tags env h0 model = inl tags)
        ->
        (forall h0 shape bbox name n dir tags,
            exists w,
              env_ImageWriter env h0 shape bbox name n dir tags = inl w) ->
        (forall h0 i w cfg,
            exists u, env_render_partition env h0 model i w cfg = inl u) ->
        predict file partitions h
        = (OK tt,
           h ++ predict_prelude file partitions c0
             ++ flat_map rendered (range partitions) ++ [finished])).
Proof.
  intros model image_out config h parts.
  split; [intros i; apply range_In|].
  split; [apply range_increasing|].
  split; [intros h'; apply render_all_ok|].
  split; [intros e h'; apply render_all_raise|].
  split; [apply render_all_total|].
  split; [intros file partitions h'; apply predict_ok_trace|].
  split; [intros file partitions e h'; apply predict_raise_unfinished|].
  intros file partitions state_dict c0. apply predict_returns.
Qed.

(** ** Which collaborators a computation can reach *)

Lemma emits_ret {A : Type} p (a : A) : emits p (ret a).
Proof.
  intros h r h' H. injection H as <- <-. exists [].
  split; [rewrite app_nil_r; reflexivity|constructor].
Qed.

Lemma emits_raise {A : Type} p (e : exn) : emits p (@raise A e).
Proof.
  intros h r h' H. injection H as <- <-. exists [].
  split; [rewrite app_nil_r; reflexivity|constructor].
Qed.

Lemma emits_lift {A : Type} p (x : result A) : emits p (lift x).
Proof.
  intros h r h' H. injection H as <- <-. exists [].
  split; [rewrite app_nil_r; reflexivity|constructor].
Qed.

Lemma emits_log p (level msg : string) : emits p (log level msg).
Proof.
  intros h r h' H. injection H as <- <-. exists [Log level msg].
  split; [reflexivity|]. constructor; [exact I|constructor].
Qed.

Lemma emits_external {A : Type} p (c : call)
  (outcome : list event -> A + string) :
  p c = false -> emits p (external c outcome).
Proof.
  intros Hp h r h' H. unfold external in H.
  destruct (outcome h); injection H as <- <-; eexists;
    (split; [reflexivity|]); repeat constructor; exact Hp.
Qed.

Lemma emits_bind {A B : Type} p (m : M A) (k : A -> M B) :
  emits p m -> (forall a, emits p (k a)) -> emits p (io_bind m k).
Proof.
  intros Hm Hk h r h' H. unfold io_bind in H.
  destruct (m h) as [[a|e] h1] eqn:E.
  - destruct (Hm _ _ _ E) as (es1 & -> & F1).
    destruct (Hk a _ _ _ H) as (es2 & -> & F2).
    exists (es1 ++ es2). split; [rewrite app_assoc; reflexivity|].
    apply Forall_app. split; assumption.
  - injection H as <- <-. exact (Hm _ _ _ E).
Qed.

Lemma emits_for_each {A S : Type} p (body : S -> A -> M S) (xs : list A) :
  (forall s x, emits p (body s x)) ->
  forall s, emits p (for_each xs body s).
Proof.
  intros Hb. induction xs as [|x xs IH]; intros s; simpl.
  - apply emits_ret.
  - apply emits_bind; [apply Hb|exact IH].
Qed.

Lemma emits_run_once {A : Type} p (recv : list event -> A + string)
  (f : M A) :
  p CallBcast = false -> emits p f -> emits p (run_once recv f).
Proof.
  intros Hp Hf. unfold run_once.
  destruct (Nat.eqb (env_chunk_index env) 0).
  - apply emits_bind; [exact Hf|]. intros a.
    apply emits_bind; [apply emits_external; exact Hp|].
    intros _. apply emits_ret.
  - apply emits_external. exact Hp.
Qed.

Lemma io_bind_ok {A B : Type} (m : M A) (k : A -> M B) (h h' : list event)
  (b : B) :
  io_bind m k h = (OK b, h') ->
  exists a h1, m h = (OK a, h1) /\ k a h1 = (OK b, h').
Proof.
  unfold io_bind. destruct (m h) as [[a|e] h1]; [|discriminate].
  intros H. exists a, h1. split; [reflexivity|exact H].
Qed.

Ltac emits_step :=
  first
    [ apply emits_ret
    | apply emits_raise
    | apply emits_lift
    | apply emits_log
    | apply emits_external; solve [auto]
    | apply emits_run_once; [solve [auto]|]
    | apply emits_for_each; intros
    | apply emits_bind; [|intros]
    | progress cbv beta
    | match goal with
      | |- emits _ (match ?x with (_, _) => _ end) => destruct x
      | |- emits _ (let (_, _) := ?x in _) => destruct x
      | |- emits _ ((let (_, _) := ?x in _) _) => destruct x
      | |- emits _ (if ?b then _ else _) => destruct b
      | |- emits _ (match ?x with [] => _ | _ :: _ => _ end) => destruct x
      end ].

Section Reach.
Variable p : call -> bool.
Hypothesis p_bcast : p CallBcast = false.

Lemma make_targets_emits (config : Config) :
  (forall a b, p (CallLoadShapefile a b) = false) ->
  p CallCrossValTargets = false ->
  (forall o, p (CallWriteTargets o) = false) ->
  emits p (make_targets config).
Proof.
  intros H1 H2 H3.
  unfold make_targets, get_targets, load_shapefile, CrossValTargets,
    write_targets.
  repeat emits_step.
Qed.

Lemma extract_emits (targets : Targets) (config : Config) :
  (forall a, p (CallGlob a) = false) ->
  (forall a, p (CallRasterioImageSource a) = false) ->
  (forall a, p (CallExtractFeatures a) = false) ->
  emits p (extract targets config).
Proof.
  intros H1 H2 H3.
  unfold extract, extract_body, glob, RasterioImageSource,
    extract_features.
  repeat emits_step.
Qed.

Lemma gather_data_emits chunks settings :
  (forall a, p (CallComposeFeatures a) = false) ->
  (forall a, p (CallAllGather a) = false) ->
  emits p (gather_data chunks settings).
Proof.
  intros H1 H2.
  unfold gather_data, compose_features, allgather.
  repeat emits_step.
Qed.

Lemma rank_features_emits chunks targets algorithm settings config :
  (forall a, p (CallComposeFeatures a) = false) ->
  (forall a, p (CallAllGather a) = false) ->
  (forall a X, p (CallCrossValidate a X) = false) ->
  emits p (rank_features chunks targets algorithm settings config).
Proof.
  intros H1 H2 H3.
  unfold rank_features, leave_one_out, cross_validate.
  repeat first [apply gather_data_emits; assumption | emits_step].
Qed.

Lemma export_feature_ranks_emits measures features scores algorithm
  config :
  (forall o l, p (CallJsonDump o l) = false) ->
  emits p (export_feature_ranks measures features scores algorithm config).
Proof.
  intros H1. unfold export_feature_ranks, json_dump.
  repeat emits_step.
Qed.

Lemma export_scores_emits r algorithm config :
  (forall o, p (CallExportScores o) = false) ->
  emits p (export_scores r algorithm config).
Proof.
  intros H1. unfold export_scores, geoio_export_scores.
  repeat emits_step.
Qed.

Lemma export_model_emits model image_settings settings algorithm config :
  (forall o d, p (CallPickleDump o d) = false) ->
  emits p (export_model model image_settings settings algorithm config).
Proof.
  intros H1. unfold export_model, pickle_dump.
  repeat emits_step.
Qed.
End Reach.

(** ** [extract] without GeoTIFFs *)

Lemma extract_no_geotiffs (targets : Targets) (config : Config)
  (h : list event) :
  env_glob env h (path_join (cfg_data_dir config) "*.tif") = [] ->
  extract targets config h
  = (Raise (SystemExit (-1)), h ++ no_geotiffs config).
Proof.
  intros Hg. unfold extract, io_bind, glob, external, log, raise.
  rewrite Hg. simpl. rewrite <- app_assoc. reflexivity.
Qed.

(** C10, amended.  When the data directory holds no
    [*.tif], [extract] logs the fatal message and raises [SystemExit(-1)],
    having called nothing but [glob].  [run_pipeline] then never returns:
    once the targets are made it stops in [extract] with [SystemExit(-1)];
    when making the targets raises, it stops with that exception instead;
    and in no case has it composed features or taken part in an
    all-gather. *)
Theorem no_geotiffs_exits :
  forall (config : Config) (h : list event),
    (forall h0,
        env_glob env h0 (path_join (cfg_data_dir config) "*.tif") = []) ->
    (forall targets h0,
        extract targets config h0
        = (Raise (SystemExit (-1)), h0 ++ no_geotiffs config)) /\
    (exists e es,
        run_pipeline config h = (Raise e, h ++ es) /\
        Forall (quiet is_compose_or_gather) es /\
        (forall targets h1,
            make_targets config h = (OK targets, h1) ->
            e = SystemExit (-1) /\ h ++ es = h1 ++ no_geotiffs config) /\
        (forall e1 h1,
            make_targets config h = (Raise e1, h1) ->
            e = e1 /\ h ++ es = h1)).
Proof.
  intros config h Hglob.
  split.
  { intros targets h0. apply extract_no_geotiffs. apply Hglob. }
  assert (Hm : emits is_compose_or_gather (make_targets config)).
  { apply make_targets_emits; intros; reflexivity. }
  unfold run_pipeline, io_bind.
  destruct (make_targets config h) as [[targets|e1] h1] eqn:E;
    destruct (Hm _ _ _ E) as (es1 & -> & Hq).
  - exists (SystemExit (-1)), (es1 ++ no_geotiffs config).
    unfold run_with_targets, io_bind.
    rewrite (extract_no_geotiffs targets config _ (Hglob _)).
    rewrite <- app_assoc.
    split; [reflexivity|]. split.
    + apply Forall_app. split; [exact Hq|].
      repeat constructor.
    + split.
      * intros t h1 H. injection H as _ <-.
        split; [reflexivity|apply app_assoc].
      * intros e1 h1 H. discriminate.
  - exists e1, es1. split; [reflexivity|]. split; [exact Hq|]. split.
    + intros t h1 H. discriminate.
    + intros e2 h2 H. injection H as <- <-. split; reflexivity.
Qed.

(** ** [extract]: the order of the sources *)

Lemma extract_body_ok targets config d st tif h d1 st1 h1 :
  extract_body targets config (d, st) tif h = (OK (d1, st1), h1) ->
  exists x s1,
    d1 = setitem d (basename tif) x /\ st1 = setitem st (basename tif) s1.
Proof.
  unfold extract_body, io_bind, log, RasterioImageSource, extract_features,
    external, ret.
  destruct (env_RasterioImageSource env _ tif) as [src|]; [|discriminate].
  destruct (env_extract_features env _ src targets _) as [[x s1]|];
    [|discriminate].
  intros H. injection H as <- <- _. exists x, s1. split; reflexivity.
Qed.

(** The loop of [extract] fills the dictionary with exactly the base
    names of the files it is given, each once. *)
Lemma extract_loop_keys targets config (tifs : list string) :
  forall d st h d' st' h',
    for_each tifs (extract_body targets config) (d, st) h
    = (OK (d', st'), h') ->
    NoDup (keys d) ->
    NoDup (keys d') /\
    (forall k, In k (keys d') <-> In k (keys d) \/ In k (map basename tifs)).
Proof.
  induction tifs as [|tif tifs IH]; intros d st h d' st' h' Hrun Hnd.
  - simpl in Hrun. injection Hrun as <- <- _. split; [exact Hnd|].
    simpl. tauto.
  - simpl in Hrun. apply io_bind_ok in Hrun.
    destruct Hrun as ([d1 st1] & h1 & Hbody & Hrest).
    apply extract_body_ok in Hbody. destruct Hbody as (x & s1 & -> & ->).
    apply IH in Hrest; [|apply keys_setitem_NoDup; exact Hnd].
    destruct Hrest as [Hnd' Hin]. split; [exact Hnd'|].
    intros k. rewrite Hin, keys_setitem. simpl. intuition.
Qed.

(** What [extract] returns is keyed by the base names of the files that
    [glob] listed, in strictly ascending order. *)
Lemma extract_ok_keys (targets : Targets) (config : Config)
  (h h' : list event) (result : dict (option marray))
  (settings : dict ExtractSettings) :
  extract targets config h = (OK (result, settings), h') ->
  ascending (keys result) /\
  (forall k,
      In k (keys result)
      <-> In k (map basename
                  (env_glob env h (path_join (cfg_data_dir config) "*.tif")))).
Proof.
  unfold extract. intros Hrun. apply io_bind_ok in Hrun.
  destruct Hrun as (tifs & h1 & Hglob & Hrest).
  unfold glob, external in Hglob. injection Hglob as <- <-.
  set (tifs := env_glob env h _) in *.
  destruct (Nat.eqb (List.length tifs) 0).
  { unfold io_bind, log, raise in Hrest. discriminate. }
  apply io_bind_ok in Hrest.
  destruct Hrest as ([d st] & h2 & Hloop & Hret).
  unfold ret in Hret. injection Hret as <- <- _.
  apply extract_loop_keys in Hloop; [|constructor].
  destruct Hloop as [Hnd Hin].
  assert (Hperm : Permutation (keys (sorted fst str_ltb d)) (keys d)).
  { unfold keys. apply Permutation_map. apply sorted_perm. }
  rewrite dict_of_items_NoDup.
  2:{ eapply Permutation_NoDup; [apply Permutation_sym; exact Hperm|].
      exact Hnd. }
  assert (Hk : keys (sorted fst str_ltb d) = sorted_strings (keys d)).
  { unfold keys, sorted_strings. apply map_sorted. }
  rewrite Hk. split.
  - apply sorted_strings_ascending. exact Hnd.
  - intros k. rewrite sorted_strings_In, Hin. simpl. tauto.
Qed.

(** [extract] returns whenever [glob] lists a file and the two raster
    collaborators return. *)
Lemma extract_loop_total targets config (tifs : list string) :
  (forall h0 tif, exists src, env_RasterioImageSource env h0 tif = inl src) ->
  (forall h0 src s,
      exists r, env_extract_features env h0 src targets s = inl r) ->
  forall acc h,
    exists acc' h',
      for_each tifs (extract_body targets config) acc h = (OK acc', h').
Proof.
  intros Hsrc Hfeat. induction tifs as [|tif tifs IH]; intros [d st] h.
  - simpl. unfold ret. eauto.
  - cbn [for_each]. unfold io_bind at 1.
    unfold extract_body, io_bind, log, RasterioImageSource, extract_features,
      external, ret.
    match goal with
    | |- context [env_RasterioImageSource env ?h0 tif] =>
        destruct (Hsrc h0 tif) as [src ->]
    end.
    match goal with
    | |- context [env_extract_features env ?h0 src targets ?s0] =>
        destruct (Hfeat h0 src s0) as [[x s1] ->]
    end.
    apply IH.
Qed.

Lemma extract_total (targets : Targets) (config : Config) (h : list event) :
  env_glob env h (path_join (cfg_data_dir config) "*.tif") <> [] ->
  (forall h0 tif, exists src, env_RasterioImageSource env h0 tif = inl src) ->
  (forall h0 src s,
      exists r, env_extract_features env h0 src targets s = inl r) ->
  exists result settings h',
    extract targets config h = (OK (result, settings), h').
Proof.
  intros Hne Hsrc Hfeat. unfold extract, io_bind, glob, external.
  set (tifs := env_glob env h _) in *.
  destruct (Nat.eqb (List.length tifs) 0) eqn:E.
  { destruct tifs; [contradiction|discriminate]. }
  destruct (extract_loop_total targets config tifs Hsrc Hfeat ([], [])
              (h ++ [Enter (CallGlob (path_join (cfg_data_dir config) "*.tif"));
                     Leave (CallGlob (path_join (cfg_data_dir config) "*.tif"))]))
    as ([d st] & h' & Hloop).
  rewrite Hloop. unfold ret. eauto.
Qed.

(** ** [extract]: what the mappings hold *)

Lemma extract_body_inv targets config d st tif h d1 st1 h1 :
  extract_body targets config (d, st) tif h = (OK (d1, st1), h1) ->
  exists h0 h0' src s0 x s1,
    env_RasterioImageSource env h0 tif = inl src /\
    env_extract_features env h0' src targets s0 = inl (x, s1) /\
    d1 = setitem d (basename tif) x /\
    st1 = setitem st (basename tif) s1.
Proof.
  unfold extract_body, io_bind, log, RasterioImageSource, extract_features,
    external, ret.
  destruct (env_RasterioImageSource env _ tif) as [src|] eqn:Hs;
    [|discriminate].
  destruct (env_extract_features env _ src targets _) as [[x s1]|] eqn:He;
    [|discriminate].
  intros H. injection H as <- <- _.
  do 6 eexists. split; [exact Hs|]. split; [exact He|].
  split; reflexivity.
Qed.

(** After the loop a name that the loop met is bound to the chunk and to
    the settings that [extract_features] returned for a file of that
    name; any other name is bound as before. *)
Lemma extract_loop_lookup targets config (tifs : list string) :
  forall d st h d' st' h',
    for_each tifs (extract_body targets config) (d, st) h
    = (OK (d', st'), h') ->
    forall name,
      (~ In name (map basename tifs) ->
       lookup name d' = lookup name d /\ lookup name st' = lookup name st) /\
      (In name (map basename tifs) ->
       exists tif h0 h0' src s0 x s1,
         In tif tifs /\ basename tif = name /\
         env_RasterioImageSource env h0 tif = inl src /\
         env_extract_features env h0' src targets s0 = inl (x, s1) /\
         lookup name d' = Some x /\ lookup name st' = Some s1).
Proof.
  induction tifs as [|tif tifs IH]; intros d st h d' st' h' Hrun name.
  - simpl in Hrun. injection Hrun as <- <- _.
    split; [intros _; split; reflexivity|intros []].
  - simpl in Hrun. apply io_bind_ok in Hrun.
    destruct Hrun as ([d1 st1] & h1 & Hbody & Hrest).
    apply extract_body_inv in Hbody.
    destruct Hbody as (h0 & h0' & src & s0 & x & s1 & Hs & He & -> & ->).
    destruct (IH _ _ _ _ _ _ Hrest name) as [IHout IHin].
    destruct (in_dec string_dec name (map basename tifs)) as [Hin|Hout].
    + split; [intros Hn; exfalso; apply Hn; right; exact Hin|].
      intros _. destruct (IHin Hin)
        as (t & a & b & c & e & y & s2 & Ht & Hb & H1 & H2 & H3 & H4).
      exists t, a, b, c, e, y, s2.
      split; [right; exact Ht|]. repeat (split; [assumption|]). assumption.
    + destruct (IHout Hout) as [Ld Lst]. rewrite Ld, Lst.
      rewrite !lookup_setitem. split.
      * intros Hn.
        destruct (String.eqb name (basename tif)) eqn:E; [|split; reflexivity].
        apply String.eqb_eq in E. exfalso. apply Hn. left. symmetry. exact E.
      * intros [Hhere|Hin]; [|contradiction].
        subst name. rewrite String.eqb_refl.
        exists tif, h0, h0', src, s0, x, s1.
        split; [left; reflexivity|]. split; [reflexivity|].
        split; [exact Hs|]. split; [exact He|]. split; reflexivity.
Qed.

(** Names met for the first time are appended in the order of the
    files. *)
Lemma extract_loop_order targets config (tifs : list string) :
  forall d st h d' st' h',
    for_each tifs (extract_body targets config) (d, st) h
    = (OK (d', st'), h') ->
    NoDup (keys st ++ map basename tifs) ->
    keys st' = keys st ++ map basename tifs.
Proof.
  induction tifs as [|tif tifs IH]; intros d st h d' st' h' Hrun Hnd.
  - simpl in Hrun. injection Hrun as _ <- _. simpl.
    rewrite app_nil_r. reflexivity.
  - simpl in Hrun. apply io_bind_ok in Hrun.
    destruct Hrun as ([d1 st1] & h1 & Hbody & Hrest).
    apply extract_body_ok in Hbody. destruct Hbody as (x & s1 & -> & ->).
    simpl in Hnd.
    assert (Hfresh : ~ In (basename tif) (keys st)).
    { intros Hin. apply NoDup_remove_2 in Hnd. apply Hnd.
      apply in_or_app. left. exact Hin. }
    assert (Hk : keys (setitem st (basename tif) s1)
                 = keys st ++ [basename tif]).
    { rewrite (keys_setitem_fresh _ _ _ Hfresh). unfold keys.
      rewrite map_app. reflexivity. }
    apply IH in Hrest.
    + rewrite Hrest, Hk, <- app_assoc. reflexivity.
    + rewrite Hk, <- app_assoc. simpl. exact Hnd.
Qed.

Lemma keys_setitem_same {V W : Type} (d : dict V) :
  forall (d' : dict W) (k : string) (v : V) (w : W),
    keys d = keys d' -> keys (setitem d k v) = keys (setitem d' k w).
Proof.
  unfold keys. induction d as [|[k0 v0] d IH]; intros [|[k1 w1] d'] k v w H;
    simpl in *; try discriminate; [reflexivity|].
  injection H as <- H.
  destruct (String.eqb k k0); simpl; [congruence|].
  f_equal. apply IH. exact H.
Qed.

Lemma extract_loop_same_keys targets config (tifs : list string) :
  forall d st h d' st' h',
    for_each tifs (extract_body targets config) (d, st) h
    = (OK (d', st'), h') ->
    keys d = keys st -> keys d' = keys st'.
Proof.
  induction tifs as [|tif tifs IH]; intros d st h d' st' h' Hrun Hk.
  - simpl in Hrun. injection Hrun as <- <- _. exact Hk.
  - simpl in Hrun. apply io_bind_ok in Hrun.
    destruct Hrun as ([d1 st1] & h1 & Hbody & Hrest).
    apply extract_body_ok in Hbody. destruct Hbody as (x & s1 & -> & ->).
    eapply IH; [exact Hrest|]. apply keys_setitem_same. exact Hk.
Qed.

(** What a returning [extract] hands back: the mappings are keyed by the
    base names of the files that [glob] listed, and a name is bound to
    the chunk and to the settings that [extract_features] returned for a
    listed file of that name, opened by [RasterioImageSource]. *)
Lemma extract_returns_chunks (targets : Targets) (config : Config)
  (h h' : list event) (result : dict (option marray))
  (settings : dict ExtractSettings) :
  extract targets config h = (OK (result, settings), h') ->
  env_glob env h (path_join (cfg_data_dir config) "*.tif") <> [] /\
  (forall name,
      In name (keys settings)
      <-> In name (map basename
                     (env_glob env h
                        (path_join (cfg_data_dir config) "*.tif")))) /\
  (NoDup (map basename
            (env_glob env h (path_join (cfg_data_dir config) "*.tif"))) ->
   keys settings
   = map basename
       (env_glob env h (path_join (cfg_data_dir config) "*.tif"))) /\
  (forall name,
      In name (map basename
                 (env_glob env h (path_join (cfg_data_dir config) "*.tif")))
      ->
      exists tif h0 h0' src s0 x s1,
        In tif (env_glob env h (path_join (cfg_data_dir config) "*.tif")) /\
        basename tif = name /\
        env_RasterioImageSource env h0 tif = inl src /\
        env_extract_features env h0' src targets s0 = inl (x, s1) /\
        lookup name result = Some x /\ lookup name settings = Some s1).
Proof.
  unfold extract. intros Hrun. apply io_bind_ok in Hrun.
  destruct Hrun as (tifs & h1 & Hglob & Hrest).
  unfold glob, external in Hglob. injection Hglob as <- <-.
  set (tifs := env_glob env h _) in *.
  destruct (Nat.eqb (List.length tifs) 0) eqn:E.
  { unfold io_bind, log, raise in Hrest. discriminate. }
  apply io_bind_ok in Hrest.
  destruct Hrest as ([d st] & h2 & Hloop & Hret).
  unfold ret in Hret. injection Hret as <- <- _.
  split; [intros Hnil; rewrite Hnil in E; discriminate|].
  pose proof (extract_loop_keys _ _ _ _ _ _ _ _ _ Hloop (NoDup_nil _))
    as [Hnd _].
  assert (Hkeys : keys d = keys st)
    by (eapply extract_loop_same_keys; [exact Hloop|reflexivity]).
  split; [|split].
  - intros name. rewrite <- Hkeys.
    destruct (extract_loop_keys _ _ _ _ _ _ _ _ _ Hloop (NoDup_nil _))
      as [_ Hin].
    rewrite Hin. simpl. tauto.
  - intros Hnd0. apply (extract_loop_order _ _ _ _ _ _ _ _ _ Hloop).
    simpl. exact Hnd0.
  - intros name Hin.
    destruct (extract_loop_lookup _ _ _ _ _ _ _ _ _ Hloop name) as [_ Hl].
    destruct (Hl Hin)
      as (t & a & b & c & e & y & s2 & Ht & Hb & H1 & H2 & H3 & H4).
    exists t, a, b, c, e, y, s2.
    repeat (split; [assumption|]). split; [|exact H4].
    rewrite dict_of_items_NoDup.
    + rewrite (lookup_perm d (sorted fst str_ltb d) name Hnd); [exact H3|].
      apply Permutation_sym, sorted_perm.
    + eapply Permutation_NoDup; [|exact Hnd].
      unfold keys. apply Permutation_map, Permutation_sym, sorted_perm.
Qed.

(** ** [run_pipeline]: the order of the algorithms *)

Lemma learned_app (es1 es2 : list event) :
  learned (es1 ++ es2) = learned es1 ++ learned es2.
Proof. unfold learned. apply flat_map_app. Qed.

Lemma learned_quiet (es : list event) :
  Forall (quiet is_learn) es -> learned es = [].
Proof.
  induction 1 as [|ev es Hq _ IH]; [reflexivity|].
  simpl. rewrite IH.
  destruct ev as [| c | |]; try reflexivity.
  destruct c; try reflexivity. discriminate.
Qed.

Lemma learn_algorithm_ok config targets image_settings compose_settings X
  (algorithm : string) (h h' : list event) (u : unit) :
  learn_algorithm config targets image_settings compose_settings X u
    algorithm h = (OK tt, h') ->
  exists es, h' = h ++ es /\ learned es = [algorithm].
Proof.
  unfold learn_algorithm. intros Hrun.
  apply io_bind_ok in Hrun. destruct Hrun as (args & h1 & Hargs & Hrun).
  unfold lift in Hargs. injection Hargs as _ <-.
  apply io_bind_ok in Hrun. destruct Hrun as ([] & h2 & Hcv & Hrun).
  assert (Hcv' : exists es1, h2 = h ++ es1 /\ Forall (quiet is_learn) es1).
  { revert Hcv. generalize (OK tt : result unit).
    assert (E : emits is_learn
                  (if cfg_cross_validate config
                   then io_bind (cross_validate X targets algorithm args)
                          (fun r => run_once (env_bcast_none env)
                                      (export_scores r algorithm config))
                   else ret tt)).
    { unfold cross_validate.
      repeat first [apply export_scores_emits; intros; reflexivity
                   | emits_step]. }
    intros r Hcv. exact (E _ _ _ Hcv). }
  destruct Hcv' as (es1 & -> & Hq1).
  apply io_bind_ok in Hrun. destruct Hrun as (model & h3 & Hlearn & Hrun).
  unfold learn_model, external in Hlearn.
  destruct (env_learn_model env _ X targets algorithm args);
    [|discriminate].
  injection Hlearn as _ <-.
  assert (E : emits is_learn
                (run_once (env_bcast_none env)
                   (export_model model image_settings compose_settings
                      algorithm config))).
  { apply emits_run_once; [reflexivity|].
    apply export_model_emits. intros; reflexivity. }
  destruct (E _ _ _ Hrun) as (es3 & -> & Hq3).
  eexists. split; [rewrite <- !app_assoc; reflexivity|].
  rewrite !learned_app, (learned_quiet _ Hq1), (learned_quiet _ Hq3).
  reflexivity.
Qed.

Lemma learn_loop_ok config targets image_settings compose_settings X
  (l : list string) :
  forall h h' u,
    for_each l
      (learn_algorithm config targets image_settings compose_settings X)
      u h = (OK tt, h') ->
    exists es, h' = h ++ es /\ learned es = l.
Proof.
  induction l as [|a l IH]; intros h h' u Hrun; simpl in Hrun.
  - injection Hrun as _ <-. exists []. rewrite app_nil_r. split; reflexivity.
  - apply io_bind_ok in Hrun. destruct Hrun as ([] & h1 & Hbody & Hrest).
    apply learn_algorithm_ok in Hbody. destruct Hbody as (es1 & -> & L1).
    apply IH in Hrest. destruct Hrest as (es2 & -> & L2).
    exists (es1 ++ es2). split; [rewrite app_assoc; reflexivity|].
    rewrite learned_app, L1, L2. reflexivity.
Qed.

Lemma rank_algorithm_emits p config targets chunks settings u algorithm :
  p CallBcast = false ->
  (forall a, p (CallComposeFeatures a) = false) ->
  (forall a, p (CallAllGather a) = false) ->
  (forall a X, p (CallCrossValidate a X) = false) ->
  (forall o l, p (CallJsonDump o l) = false) ->
  emits p (rank_algorithm config targets chunks settings u algorithm).
Proof.
  intros H0 H1 H2 H3 H4. unfold rank_algorithm.
  repeat first [ apply rank_features_emits; assumption
               | apply export_feature_ranks_emits; assumption
               | emits_step ].
Qed.

(** A run of the pipeline that returns has learned one model per
    algorithm of the configuration, in the sorted order of their names. *)
Lemma run_pipeline_learned (config : Config) (h h' : list event) :
  run_pipeline config h = (OK tt, h') ->
  exists es,
    h' = h ++ es /\
    learned es = sorted_strings (keys (cfg_algdict config)).
Proof.
  unfold run_pipeline. intros Hrun.
  apply io_bind_ok in Hrun. destruct Hrun as (targets & h1 & Ht & Hrun).
  assert (E1 : emits is_learn (make_targets config))
    by (apply make_targets_emits; intros; reflexivity).
  destruct (E1 _ _ _ Ht) as (es1 & -> & Q1).
  unfold run_with_targets in Hrun.
  apply io_bind_ok in Hrun.
  destruct Hrun as ([chunks image_settings] & h2 & He & Hrun).
  assert (E2 : emits is_learn (extract targets config))
    by (apply extract_emits; intros; reflexivity).
  destruct (E2 _ _ _ He) as (es2 & -> & Q2).
  apply io_bind_ok in Hrun. destruct Hrun as ([] & h3 & Hr & Hrun).
  assert (E3 : forall u, emits is_learn
             (for_each (sorted_strings (keys (cfg_algdict config)))
                (rank_algorithm config targets chunks
                   (mk_ComposeSettings (cfg_impute config)
                      (cfg_transform config) (cfg_pca_frac config)
                      None None None None None)) u)).
  { apply emits_for_each. intros s x.
    apply rank_algorithm_emits; intros; reflexivity. }
  destruct (E3 _ _ _ _ Hr) as (es3 & -> & Q3).
  apply io_bind_ok in Hrun. destruct Hrun as (X & h4 & Hg & Hrun).
  assert (E4 : emits is_learn
             (gather_data chunks
                (mk_ComposeSettings (cfg_impute config)
                   (cfg_transform config) (cfg_pca_frac config)
                   None None None None None)))
    by (apply gather_data_emits; intros; reflexivity).
  destruct (E4 _ _ _ Hg) as (es4 & -> & Q4).
  apply learn_loop_ok in Hrun. destruct Hrun as (es5 & -> & L5).
  exists (es1 ++ es2 ++ es3 ++ es4 ++ es5).
  split; [rewrite <- !app_assoc; reflexivity|].
  rewrite !learned_app, (learned_quiet _ Q1), (learned_quiet _ Q2),
    (learned_quiet _ Q3), (learned_quiet _ Q4), L5.
  reflexivity.
Qed.

(** ** [rank_features] on sources whose stripped names differ *)

Lemma map_result_Forall2 {A B : Type} (f : A -> result B) (l : list A) :
  forall bs, map_result f l = OK bs -> Forall2 (fun a b => f a = OK b) l bs.
Proof.
  induction l as [|a l IH]; intros bs H; simpl in H.
  - injection H as <-. constructor.
  - destruct (f a) as [b|] eqn:E; [|discriminate].
    destruct (map_result f l) as [bs'|]; [|discriminate].
    injection H as <-. constructor; [exact E|]. apply IH. reflexivity.
Qed.

Lemma leave_one_out_ok chunks targets algorithm settings config
  (fs : dict CrossValResults) (name : string) (h : list event) fs1 h1 :
  leave_one_out chunks targets algorithm settings config fs name h
  = (OK fs1, h1) ->
  exists results,
    scored_without chunks targets algorithm settings config name results /\
    fs1 = setitem fs (rstrip name ".tif") results.
Proof.
  unfold leave_one_out. intros Hrun.
  apply io_bind_ok in Hrun. destruct Hrun as ([] & h0 & Hlog & Hrun).
  apply io_bind_ok in Hrun. destruct Hrun as (X & h2 & Hg & Hrun).
  apply io_bind_ok in Hrun. destruct Hrun as (args & h3 & Ha & Hrun).
  unfold lift in Ha. injection Ha as Ha <-.
  apply io_bind_ok in Hrun. destruct Hrun as (results & h4 & Hcv & Hrun).
  unfold cross_validate, external in Hcv.
  destruct (env_cross_validate env h2 X targets algorithm args) as [r|] eqn:E;
    [|discriminate].
  injection Hcv as -> _.
  unfold ret in Hrun. injection Hrun as <- _.
  exists results. split; [|reflexivity].
  exists args, h0, X, h2. repeat split; assumption.
Qed.

Lemma leave_one_out_loop chunks targets algorithm settings config
  (names : list string) :
  forall (fs : dict CrossValResults) h fs' h',
    for_each names
      (leave_one_out chunks targets algorithm settings config) fs h
    = (OK fs', h') ->
    NoDup (keys fs ++ map (fun name => rstrip name ".tif") names) ->
    keys fs' = keys fs ++ map (fun name => rstrip name ".tif") names /\
    (forall k, In k (keys fs) -> lookup k fs' = lookup k fs) /\
    (forall name, In name names ->
       exists results,
         lookup (rstrip name ".tif") fs' = Some results /\
         scored_without chunks targets algorithm settings config name
           results).
Proof.
  induction names as [|name names IH]; intros fs h fs' h' Hrun Hnd.
  - simpl in Hrun. injection Hrun as <- _. simpl. rewrite app_nil_r.
    split; [reflexivity|]. split; [reflexivity|]. intros name [].
  - simpl in Hrun. apply io_bind_ok in Hrun.
    destruct Hrun as (fs1 & h1 & Hbody & Hrest).
    apply leave_one_out_ok in Hbody. destruct Hbody as (r & Hr & ->).
    simpl in Hnd.
    assert (Hfresh : ~ In (rstrip name ".tif") (keys fs)).
    { apply NoDup_remove_2 in Hnd. intros Hin. apply Hnd.
      apply in_or_app. left. exact Hin. }
    assert (Hk1 : keys (setitem fs (rstrip name ".tif") r)
                  = keys fs ++ [rstrip name ".tif"]).
    { rewrite keys_setitem_fresh by exact Hfresh.
      unfold keys. rewrite map_app. reflexivity. }
    apply IH in Hrest.
    2:{ rewrite Hk1, <- app_assoc. exact Hnd. }
    destruct Hrest as (Hkeys & Hkeep & Hnames).
    split; [rewrite Hkeys, Hk1, <- app_assoc; reflexivity|].
    split.
    + intros k Hk. rewrite Hkeep.
      * rewrite lookup_setitem.
        destruct (String.eqb k (rstrip name ".tif")) eqn:E; [|reflexivity].
        apply String.eqb_eq in E. subst k. contradiction.
      * rewrite Hk1. apply in_or_app. left. exact Hk.
    + intros n [<-|Hn].
      * exists r. split; [|exact Hr].
        rewrite Hkeep.
        -- rewrite lookup_setitem, String.eqb_refl. reflexivity.
        -- rewrite Hk1. apply in_or_app. right. left. reflexivity.
      * apply Hnames. exact Hn.
Qed.

(** What [rank_features] returns when no two sources share a stripped
    name: one feature per source, the stripped names in sorted order; a
    scores matrix with one row per metric and one column per feature; and
    the cell of a metric and a feature holds that metric's score from the
    cross-validation of the dataset gathered without the feature's
    source. *)
Theorem rank_features_leave_one_out :
  forall (extracted_chunks : dict (option marray)) (targets : Targets)
         (algorithm : string) (compose_settings : ComposeSettings)
         (config : Config) (h h' : list event)
         (measures features : list string) (scores : Np.ndarray float),
    NoDup (map (fun name => rstrip name ".tif") (keys extracted_chunks)) ->
    rank_features extracted_chunks targets algorithm compose_settings config h
    = (OK (measures, features, scores), h') ->
    exists feature_scores : dict CrossValResults,
      keys feature_scores
      = map (fun name => rstrip name ".tif") (keys extracted_chunks) /\
      (forall name, In name (keys extracted_chunks) ->
         exists results,
           lookup (rstrip name ".tif") feature_scores = Some results /\
           scored_without extracted_chunks targets algorithm compose_settings
             config name results) /\
      (exists first rest,
          values feature_scores = first :: rest /\
          measures = keys (cv_scores first)) /\
      features = sorted_strings (keys feature_scores) /\
      List.length features = List.length extracted_chunks /\
      Np.nrows scores = List.length measures /\
      Np.ncols scores = List.length features /\
      Forall2
        (fun measure row =>
           Forall2
             (fun feature score =>
                exists results,
                  lookup feature feature_scores = Some results /\
                  lookup measure (cv_scores results) = Some score)
             features row)
        measures (Np.rows scores).
Proof.
  intros chunks targets algorithm settings config h h' measures features
    scores Hnd Hrun.
  unfold rank_features in Hrun.
  apply io_bind_ok in Hrun. destruct Hrun as (fs & h1 & Hloop & Hrun).
  apply leave_one_out_loop in Hloop; [|exact Hnd].
  destruct Hloop as (Hkeys & _ & Hnames). simpl in Hkeys.
  apply io_bind_ok in Hrun. destruct Hrun as (first & h2 & Hfirst & Hrun).
  apply io_bind_ok in Hrun. destruct Hrun as (rows & h3 & Hrows & Hrun).
  unfold lift in Hrows. injection Hrows as Hrows _.
  unfold ret in Hrun. injection Hrun as <- <- <- _.
  exists fs. split; [exact Hkeys|]. split; [exact Hnames|].
  split.
  { destruct (values fs) as [|r rest]; [discriminate|].
    unfold ret in Hfirst. injection Hfirst as -> _.
    exists first, rest. split; reflexivity. }
  split; [reflexivity|]. split.
  { unfold sorted_strings.
    rewrite (Permutation_length (sorted_perm (fun s : string => s) str_ltb _)).
    rewrite Hkeys. unfold keys. rewrite !length_map. reflexivity. }
  split; [reflexivity|]. split; [reflexivity|].
  simpl. apply map_result_Forall2 in Hrows.
  eapply Forall2_impl; [|exact Hrows].
  intros measure row Hrow. simpl in Hrow.
  apply map_result_Forall2 in Hrow.
  eapply Forall2_impl; [|exact Hrow].
  intros feature score Hcell. simpl in Hcell.
  unfold getitem in Hcell.
  destruct (lookup feature fs) as [results|]; [|discriminate].
  simpl in Hcell.
  destruct (lookup measure (cv_scores results)) as [v|] eqn:E;
    [|discriminate].
  injection Hcell as <-. exists results. split; [reflexivity|exact E].
Qed.

(** ** More on [gather_data]: shapes and failures *)

(** What a worker hands to the composition when all its sources have
    data: an array with the rows of each chunk side by side, that is with
    the chunks' common number of rows and the sum of their numbers of
    columns, well formed when the chunks are.  Chunks that disagree on the
    number of rows make the concatenation raise [ValueError], and so does
    a mapping without any source. *)
Theorem local_features_shape :
  forall (extracted_chunks : dict (option marray)),
    ~ In None (values extracted_chunks) ->
    (extracted_chunks = [] ->
     local_features extracted_chunks
     = Raise (ValueError "need at least one array to concatenate")) /\
    (forall x,
        local_features extracted_chunks = OK x ->
        exists a,
          x = Some a /\
          (forall c, In (Some c) (values extracted_chunks) ->
                     Np.nrows c = Np.nrows a) /\
          Np.ncols a
          = list_sum (map Np.ncols (present (values extracted_chunks))) /\
          (Forall Np.wf (present (values extracted_chunks)) -> Np.wf a)) /\
    (forall c1 c2,
        In (Some c1) (values extracted_chunks) ->
        In (Some c2) (values extracted_chunks) ->
        Np.nrows c1 <> Np.nrows c2 ->
        exists msg, local_features extracted_chunks = Raise (ValueError msg)).
Proof.
  intros chunks Hn. rewrite (local_features_present _ Hn).
  split; [intros ->; reflexivity|]. split.
  - intros x Hx.
    destruct (Np.concatenate_axis1 (present (values chunks))) as [a|] eqn:E;
      [|discriminate].
    simpl in Hx. injection Hx as <-. exists a. split; [reflexivity|].
    apply concatenate_axis1_ok_iff in E.
    destruct E as (a0 & rest & Hl & Hall & ->).
    destruct (fold_hstack2_shape rest a0) as [Hr Hc].
    rewrite Hl. split; [|split].
    + intros c Hin. apply present_In in Hin. rewrite Hl in Hin.
      rewrite Hr. destruct Hin as [<-|Hin]; [reflexivity|].
      rewrite Forall_forall in Hall. apply Hall. exact Hin.
    + rewrite Hc. reflexivity.
    + intros Hwf. inversion Hwf; subst.
      apply fold_hstack2_wf; assumption.
  - intros c1 c2 H1 H2 Hne.
    destruct (Np.concatenate_axis1 (present (values chunks))) as [a|] eqn:E.
    + exfalso. apply concatenate_axis1_ok_iff in E.
      destruct E as (a0 & rest & Hl & Hall & _).
      apply present_In in H1, H2. rewrite Hl in H1, H2.
      rewrite Forall_forall in Hall.
      assert (G : forall c, In c (a0 :: rest) -> Np.nrows c = Np.nrows a0).
      { intros c [<-|Hc]; [reflexivity|apply Hall; exact Hc]. }
      apply Hne. rewrite (G _ H1), (G _ H2). reflexivity.
    + unfold Np.concatenate_axis1 in E.
      destruct (present (values chunks)) as [|a0 rest].
      * injection E as <-. simpl. eauto.
      * match type of E with
        | context [forallb ?f rest] => destruct (forallb f rest)
        end; [discriminate|].
        injection E as <-. simpl. eauto.
Qed.

Lemma vstack_ok_iff {A : Type} (l : list (Np.ndarray A)) (X : Np.ndarray A) :
  Np.vstack l = OK X <->
  exists a rest,
    l = a :: rest /\
    Forall (fun b => Np.ncols b = Np.ncols a) rest /\
    X = fold_left Np.vstack2 rest a.
Proof.
  unfold Np.vstack. split.
  - destruct l as [|a rest]; [discriminate|].
    destruct (forallb _ rest) eqn:E; [|discriminate].
    intros H. injection H as <-. exists a, rest.
    split; [reflexivity|]. split; [|reflexivity].
    rewrite forallb_forall in E. apply Forall_forall.
    intros b Hb. apply Nat.eqb_eq. apply E. exact Hb.
  - intros (a & rest & -> & Hall & ->).
    assert (E : forallb (fun b => Nat.eqb (Np.ncols b) (Np.ncols a)) rest
                = true).
    { apply forallb_forall. rewrite Forall_forall in Hall.
      intros b Hb. apply Nat.eqb_eq. apply Hall. exact Hb. }
    rewrite E. reflexivity.
Qed.

(** What the all-gather brought decides the outcome of [gather_data]:
    when no worker contributed data the stacking raises [ValueError], and
    so it does when two contributions differ in their number of columns;
    a dataset that is returned has the number of columns of every
    contribution.  In each case the composition and the all-gather have
    been entered and left once. *)
Theorem gather_data_outcomes :
  forall (extracted_chunks : dict (option marray))
         (compose_settings settings' : ComposeSettings) (h : list event)
         (x x_out : option marray) (X_list : list (option marray)),
    local_features extracted_chunks = OK x ->
    env_compose_features env h x compose_settings = inl (x_out, settings') ->
    env_allgather env
      (h ++ [Enter (CallComposeFeatures x); Leave (CallComposeFeatures x)])
      x_out = inl X_list ->
    (present X_list = [] ->
     gather_data extracted_chunks compose_settings h
     = (Raise (ValueError "need at least one array to concatenate"),
        h ++ gather_events x x_out)) /\
    (forall a b,
        In (Some a) X_list -> In (Some b) X_list ->
        Np.ncols a <> Np.ncols b ->
        exists msg,
          gather_data extracted_chunks compose_settings h
          = (Raise (ValueError msg), h ++ gather_events x x_out)) /\
    (forall X h',
        gather_data extracted_chunks compose_settings h = (OK X, h') ->
        h' = h ++ gather_events x x_out /\
        forall a, In (Some a) X_list -> Np.ncols a = Np.ncols X).
Proof.
  intros chunks settings settings' h x x_out X_list Hl Hc Ha.
  assert (Hrun : gather_data chunks settings h
                 = (Np.vstack (present X_list), h ++ gather_events x x_out)).
  { unfold gather_data, io_bind, lift, compose_features, allgather, external,
      gather_events.
    rewrite Hl, Hc, Ha, <- app_assoc. reflexivity. }
  rewrite Hrun. split; [intros ->; reflexivity|]. split.
  - intros a b Hina Hinb Hne.
    destruct (Np.vstack (present X_list)) as [X|e] eqn:E.
    + exfalso. apply vstack_ok_iff in E.
      destruct E as (a0 & rest & Hp & Hall & _).
      apply present_In in Hina, Hinb. rewrite Hp in Hina, Hinb.
      rewrite Forall_forall in Hall.
      assert (G : forall c, In c (a0 :: rest) -> Np.ncols c = Np.ncols a0).
      { intros c [<-|Hin]; [reflexivity|apply Hall; exact Hin]. }
      apply Hne. rewrite (G _ Hina), (G _ Hinb). reflexivity.
    + unfold Np.vstack in E. destruct (present X_list) as [|a0 rest].
      * injection E as <-. eauto.
      * match type of E with
        | context [forallb ?f rest] => destruct (forallb f rest)
        end; [discriminate|].
        injection E as <-. eauto.
  - intros X h' H. injection H as HX <-. split; [reflexivity|].
    intros a Hin. apply vstack_ok_iff in HX.
    destruct HX as (a0 & rest & Hp & Hall & ->).
    rewrite fold_vstack2_ncols.
    apply present_In in Hin. rewrite Hp in Hin.
    destruct Hin as [<-|Hin]; [reflexivity|].
    rewrite Forall_forall in Hall. apply Hall. exact Hin.
Qed.

(** ** [rank_features] on fewer than two sources *)

(** Without any source [rank_features] raises [StopIteration] (there is
    no result to read the metrics from); with a single source the dataset
    without it has no array to concatenate, and [rank_features] raises
    [ValueError] after announcing the source, before composing, gathering
    or cross-validating anything. *)
Theorem rank_features_needs_two_sources :
  forall (targets : Targets) (algorithm : string)
         (compose_settings : ComposeSettings) (config : Config)
         (h : list event),
    rank_features [] targets algorithm compose_settings config h
    = (Raise StopIteration, h) /\
    (forall name chunk,
        rank_features [(name, chunk)] targets algorithm compose_settings
          config h
        = (Raise (ValueError "need at least one array to concatenate"),
           h ++ [Log "INFO" ("Computing " ++ algorithm ++
                             " feature importance of " ++
                             rstrip name ".tif")])).
Proof.
  intros targets algorithm settings config h. split; [reflexivity|].
  intros name chunk.
  unfold rank_features, io_bind. cbn [keys map fst for_each].
  unfold io_bind, leave_one_out, io_bind, log.
  cbn [delitem]. rewrite String.eqb_refl.
  reflexivity.
Qed.

(** ** More on [extract]: the settings and the files that are opened *)

(** The GeoTIFFs for which [RasterioImageSource] was entered, in order. *)
Definition opened (es : list event) : list string :=
  flat_map (fun ev => match ev with
                      | Enter (CallRasterioImageSource tif) => [tif]
                      | _ => []
                      end) es.

(** The GeoTIFFs for which [extract_features] was entered, in order. *)
Definition extracted (es : list event) : list string :=
  flat_map (fun ev => match ev with
                      | Enter (CallExtractFeatures tif) => [tif]
                      | _ => []
                      end) es.

Lemma extract_body_trace targets config d st tif h acc h1 :
  extract_body targets config (d, st) tif h = (OK acc, h1) ->
  exists es,
    h1 = h ++ es /\ opened es = [tif] /\ extracted es = [tif].
Proof.
  unfold extract_body, io_bind, log, RasterioImageSource, extract_features,
    external, ret.
  destruct (env_RasterioImageSource env _ tif) as [src|]; [|discriminate].
  destruct (env_extract_features env _ src targets _) as [[x s1]|];
    [|discriminate].
  intros H. injection H as _ <-.
  eexists. split; [rewrite <- !app_assoc; reflexivity|].
  split; reflexivity.
Qed.

Lemma extract_loop_trace targets config (tifs : list string) :
  forall d st h d' st' h',
    for_each tifs (extract_body targets config) (d, st) h
    = (OK (d', st'), h') ->
    keys d = keys st ->
    keys d' = keys st' /\
    exists es, h' = h ++ es /\ opened es = tifs /\ extracted es = tifs.
Proof.
  induction tifs as [|tif tifs IH]; intros d st h d' st' h' Hrun Hk.
  - simpl in Hrun. injection Hrun as <- <- <-. split; [exact Hk|].
    exists []. rewrite app_nil_r. repeat split.
  - simpl in Hrun. apply io_bind_ok in Hrun.
    destruct Hrun as ([d1 st1] & h1 & Hbody & Hrest).
    pose proof (extract_body_trace _ _ _ _ _ _ _ _ Hbody)
      as (es1 & -> & O1 & X1).
    apply extract_body_ok in Hbody. destruct Hbody as (x & s1 & -> & ->).
    apply IH in Hrest; [|apply keys_setitem_same; exact Hk].
    destruct Hrest as (Hk' & es2 & -> & O2 & X2).
    split; [exact Hk'|].
    exists (es1 ++ es2). split; [rewrite app_assoc; reflexivity|].
    unfold opened, extracted in *. rewrite !flat_map_app.
    rewrite O1, O2, X1, X2. split; reflexivity.
Qed.

(** A call of [extract] that returns has opened every file that [glob]
    listed, once and in the listed order, and extracted features from
    each right after opening it.  The settings it returns have exactly
    one entry per base name of a listed file, in the listed order when
    the base names differ; the chunks are keyed by the same names in
    sorted order; and a name is bound, in the chunks and in the settings,
    to what [extract_features] returned for a listed file of that
    name. *)
Theorem extract_settings_match :
  forall (targets : Targets) (config : Config) (h h' : list event)
         (result : dict (option marray)) (settings : dict ExtractSettings),
    extract targets config h = (OK (result, settings), h') ->
    NoDup (keys settings) /\
    keys result = sorted_strings (keys settings) /\
    (forall name, In name (keys settings) <-> In name (keys result)) /\
    (forall name,
        In name (keys settings)
        <-> In name (map basename
                       (env_glob env h
                          (path_join (cfg_data_dir config) "*.tif")))) /\
    (NoDup (map basename
              (env_glob env h (path_join (cfg_data_dir config) "*.tif"))) ->
     keys settings
     = map basename
         (env_glob env h (path_join (cfg_data_dir config) "*.tif"))) /\
    (forall name,
        In name (keys settings) ->
        exists tif h0 h0' src s0 x s1,
          In tif (env_glob env h (path_join (cfg_data_dir config) "*.tif")) /\
          basename tif = name /\
          env_RasterioImageSource env h0 tif = inl src /\
          env_extract_features env h0' src targets s0 = inl (x, s1) /\
          lookup name result = Some x /\ lookup name settings = Some s1) /\
    exists es,
      h' = h ++ es /\
      opened es = env_glob env h (path_join (cfg_data_dir config) "*.tif") /\
      extracted es = opened es.
Proof.
  intros targets config h h' result settings Hrun.
  pose proof (extract_returns_chunks _ _ _ _ _ _ Hrun)
    as (_ & Hnames & Horder & Hbound).
  unfold extract in Hrun. apply io_bind_ok in Hrun.
  destruct Hrun as (tifs & h1 & Hglob & Hrest).
  unfold glob, external in Hglob. injection Hglob as <- <-.
  set (tifs := env_glob env h _) in *.
  destruct (Nat.eqb (List.length tifs) 0).
  { unfold io_bind, log, raise in Hrest. discriminate. }
  apply io_bind_ok in Hrest.
  destruct Hrest as ([d st] & h2 & Hloop & Hret).
  unfold ret in Hret. injection Hret as <- <- <-.
  pose proof (extract_loop_keys _ _ _ _ _ _ _ _ _ Hloop (NoDup_nil _))
    as [Hnd _].
  apply extract_loop_trace in Hloop; [|reflexivity].
  destruct Hloop as (Hk & es & -> & Ho & Hx).
  assert (Hperm : Permutation (keys (sorted fst str_ltb d)) (keys d)).
  { unfold keys. apply Permutation_map. apply sorted_perm. }
  rewrite dict_of_items_NoDup in *.
  2,3:(eapply Permutation_NoDup; [apply Permutation_sym; exact Hperm|];
       exact Hnd).
  assert (Hs : keys (sorted fst str_ltb d) = sorted_strings (keys d)).
  { unfold keys, sorted_strings. apply map_sorted. }
  rewrite Hs, <- Hk.
  split; [exact Hnd|]. split; [reflexivity|]. split; [|split; [|split; [|split]]].
  - intros name. rewrite sorted_strings_In. tauto.
  - intros name. rewrite Hk. apply Hnames.
  - intros Hnd0. rewrite Hk. apply Horder. exact Hnd0.
  - intros name Hin. apply Hbound. apply Hnames. rewrite <- Hk. exact Hin.
  - eexists. split; [rewrite <- app_assoc; reflexivity|].
    unfold opened, extracted in *. rewrite !flat_map_app. simpl.
    rewrite Ho, Hx. split; reflexivity.
Qed.

(** ** More on [export_feature_ranks]: ties, lengths and empty rows *)

Lemma feature_rank_listing_raises (features : list string) :
  forall rows acc,
    Exists (fun r => combine features (snd r) = []) rows ->
    exists msg, feature_rank_listing rows features acc
                = Raise (ValueError msg).
Proof.
  induction rows as [|[m row] rows IH]; intros acc Hex.
  - inversion Hex.
  - cbn [feature_rank_listing].
    destruct (sorted_by_score (combine features row)) as [|p l] eqn:Hs.
    + eauto.
    + destruct (split (p :: l)) as [fs ss].
      apply IH. inversion Hex as [? ? Hhd|? ? Htl]; subst; [|exact Htl].
      simpl in Hhd. rewrite Hhd, sorted_by_score_nil in Hs. discriminate.
Qed.

(** When there is no feature, or some metric has an empty row of scores,
    [export_feature_ranks] raises [ValueError] at the unpacking of the
    sorted pairs and writes nothing: the report is only opened after all
    metrics have been sorted. *)
Theorem export_feature_ranks_empty_row :
  forall (measures features : list string) (scores : Np.ndarray float)
         (algorithm : string) (config : Config) (h : list event)
         (measure : string) (row : list float),
    In (measure, row) (combine measures (Np.rows scores)) ->
    features = [] \/ row = [] ->
    exists msg,
      export_feature_ranks measures features scores algorithm config h
      = (Raise (ValueError msg), h).
Proof.
  intros measures features scores algorithm config h measure row Hin Hempty.
  destruct (feature_rank_listing_raises features
              (combine measures (Np.rows scores)) (mk_ScoreListing [] []))
    as [msg Hr].
  { apply Exists_exists. exists (measure, row). split; [exact Hin|].
    simpl. destruct Hempty as [-> | ->]; [reflexivity|].
    destruct features; reflexivity. }
  exists msg. unfold export_feature_ranks, io_bind, lift. rewrite Hr.
  reflexivity.
Qed.

(** In the report each metric lists as many features as scores, namely
    as many as the shorter of the feature list and the metric's row; and
    features whose scores tie are listed in the order in which they come
    in [features]. *)
Theorem export_feature_ranks_ties :
  forall (measures features : list string) (scores : Np.ndarray float)
         (listing : ScoreListing),
    (forall a b c, float_ltb b a = false -> float_ltb c b = false ->
                   float_ltb c a = false) ->
    feature_rank_listing (combine measures (Np.rows scores)) features
      (mk_ScoreListing [] []) = OK listing ->
    forall measure sorted_features sorted_scores,
      lookup measure (sl_ranks listing) = Some sorted_features ->
      lookup measure (sl_scores listing) = Some sorted_scores ->
      exists measure_scores,
        In (measure, measure_scores) (combine measures (Np.rows scores)) /\
        List.length sorted_features = List.length sorted_scores /\
        List.length sorted_features
        = Nat.min (List.length features) (List.length measure_scores) /\
        forall v,
          filter (tied snd float_ltb v)
            (combine sorted_features sorted_scores)
          = filter (tied snd float_ltb v) (combine features measure_scores).
Proof.
  intros measures features scores listing Hneg Hl.
  apply (feature_rank_listing_entries
           (fun m fs ss =>
              exists row,
                In (m, row) (combine measures (Np.rows scores)) /\
                List.length fs = List.length ss /\
                List.length fs
                = Nat.min (List.length features) (List.length row) /\
                forall v,
                  filter (tied snd float_ltb v) (combine fs ss)
                  = filter (tied snd float_ltb v) (combine features row))
           features _ _ _) with (3 := Hl).
  - intros m row Hin. exists row. unfold ranked.
    rewrite (sorted_by_score_consistent _
               (consistent_of_negtrans snd float_ltb _ Hneg)).
    split; [exact Hin|]. rewrite !length_map. split; [reflexivity|].
    split.
    + rewrite (Permutation_length (sorted_perm snd float_ltb _)).
      apply length_combine.
    + intros v. rewrite combine_maps. apply sorted_stable. exact Hneg.
  - simpl. intros m fs ss H. discriminate.
Qed.

(** ** The files a run writes *)

(** The paths that [export_model], [export_scores], [export_feature_ranks]
    and [run_pipeline] (for the targets) build. *)
Definition state_file (config : Config) (algorithm : string) : string :=
  path_join (cfg_output_dir config)
    (cfg_name config ++ "_" ++ algorithm ++ ".state").

Definition scores_file (config : Config) (algorithm : string) : string :=
  path_join (cfg_output_dir config)
    (cfg_name config ++ "_" ++ algorithm ++ "_scores.json").

Definition ranks_file (config : Config) (algorithm : string) : string :=
  path_join (cfg_output_dir config)
    (cfg_name config ++ "_" ++ algorithm ++ "_featureranks.json").

Definition targets_file (config : Config) : string :=
  path_join (cfg_output_dir config) (cfg_name config ++ "_targets.hdf5").

Lemma starts_with_slash_stem (name rest : string) :
  starts_with_slash (name ++ "_" ++ rest)
  = starts_with_slash (name ++ "_").
Proof. destruct name; reflexivity. Qed.

(** Every output path is one stem, fixed by the configuration, followed
    by what comes after [name + "_"]. *)
Lemma path_join_stem (dir name : string) :
  exists stem, forall rest,
    path_join dir (name ++ "_" ++ rest) = (stem ++ rest)%string.
Proof.
  unfold path_join.
  destruct (starts_with_slash (name ++ "_")) eqn:E.
  - exists (name ++ "_")%string. intros rest.
    rewrite starts_with_slash_stem, E. rewrite str_app_assoc. reflexivity.
  - destruct (String.eqb dir "" || ends_with_slash dir)%bool.
    + exists (dir ++ name ++ "_")%string. intros rest.
      rewrite starts_with_slash_stem, E.
      rewrite !str_app_assoc. reflexivity.
    + exists (dir ++ "/" ++ name ++ "_")%string. intros rest.
      rewrite starts_with_slash_stem, E.
      rewrite !str_app_assoc. reflexivity.
Qed.

(** No output of a run overwrites another: the bundle, the scores and the
    feature ranks of different algorithms go to different files, and the
    four kinds of output never share a file, whatever the names of the
    configuration and of the algorithms. *)
Theorem outputs_do_not_collide :
  forall (config : Config) (a1 a2 : string),
    (state_file config a1 = state_file config a2 -> a1 = a2) /\
    (scores_file config a1 = scores_file config a2 -> a1 = a2) /\
    (ranks_file config a1 = ranks_file config a2 -> a1 = a2) /\
    state_file config a1 <> scores_file config a2 /\
    state_file config a1 <> ranks_file config a2 /\
    scores_file config a1 <> ranks_file config a2 /\
    targets_file config <> state_file config a1 /\
    targets_file config <> scores_file config a1 /\
    targets_file config <> ranks_file config a1 /\
    (forall model image_settings compose_settings h,
        export_model model image_settings compose_settings a1 config h
        = pickle_dump (state_file config a1)
            (model_state_dict model image_settings compose_settings) h) /\
    (forall results h,
        export_scores results a1 config h
        = geoio_export_scores (cv_scores results) (cv_y_true results)
            (cv_y_pred results) (scores_file config a1) h).
Proof.
  intros config a1 a2.
  destruct (path_join_stem (cfg_output_dir config) (cfg_name config))
    as [stem Hstem].
  assert (S1 : forall a, state_file config a = (stem ++ a ++ ".state")%string)
    by (intros a; apply Hstem).
  assert (S2 : forall a,
             scores_file config a = (stem ++ a ++ "_scores.json")%string)
    by (intros a; apply Hstem).
  assert (S3 : forall a,
             ranks_file config a
             = (stem ++ a ++ "_featureranks.json")%string)
    by (intros a; apply Hstem).
  assert (S4 : targets_file config = (stem ++ "" ++ "targets.hdf5")%string)
    by (exact (Hstem "targets.hdf5")).
  assert (D : forall n x y s1 s2,
             n <= List.length (list_ascii_of_string s1) ->
             n <= List.length (list_ascii_of_string s2) ->
             firstn n (rev (list_ascii_of_string s1))
             <> firstn n (rev (list_ascii_of_string s2)) ->
             (stem ++ x ++ s1)%string <> (stem ++ y ++ s2)%string).
  { intros n x y s1 s2 H1 H2 Hne H. apply str_app_inv_head in H.
    revert H. apply (str_app_endings n); assumption. }
  rewrite !S1, !S2, !S3, S4.
  split; [intros H; apply str_app_inv_head, str_app_inv_tail in H; exact H|].
  split; [intros H; apply str_app_inv_head, str_app_inv_tail in H; exact H|].
  split; [intros H; apply str_app_inv_head, str_app_inv_tail in H; exact H|].
  split; [apply (D 1); simpl; try lia; discriminate|].
  split; [apply (D 1); simpl; try lia; discriminate|].
  split; [apply (D 7); simpl; try lia; discriminate|].
  split; [apply (D 1); simpl; try lia; discriminate|].
  split; [apply (D 1); simpl; try lia; discriminate|].
  split; [apply (D 1); simpl; try lia; discriminate|].
  rewrite <- S1, <- S2.
  split; intros; reflexivity.
Qed.

(** ** [run_pipeline]: who writes what *)

(** The paths for which a bundle was pickled, in order. *)
Definition pickled (es : list event) : list string :=
  flat_map (fun ev => match ev with
                      | Enter (CallPickleDump outfile _) => [outfile]
                      | _ => []
                      end) es.

Definition is_pickle (c : call) : bool :=
  match c with CallPickleDump _ _ => true | _ => false end.

(** Calls that read or write files of the run: the shapefile, the
    targets, the scores, the feature ranks and the model bundles. *)
Definition is_file_io (c : call) : bool :=
  match c with
  | CallLoadShapefile _ _ | CallCrossValTargets | CallWriteTargets _
  | CallExportScores _ | CallJsonDump _ _ | CallPickleDump _ _ => true
  | _ => false
  end.

Lemma pickled_app (es1 es2 : list event) :
  pickled (es1 ++ es2) = pickled es1 ++ pickled es2.
Proof. unfold pickled. apply flat_map_app. Qed.

Lemma pickled_quiet (es : list event) :
  Forall (quiet is_pickle) es -> pickled es = [].
Proof.
  induction 1 as [|ev es Hq _ IH]; [reflexivity|].
  simpl. rewrite IH.
  destruct ev as [| c | |]; try reflexivity.
  destruct c; try reflexivity. discriminate.
Qed.

Lemma learn_algorithm_pickles config targets image_settings compose_settings
  X (algorithm : string) (h h' : list event) (u : unit) :
  env_chunk_index env = 0 ->
  learn_algorithm config targets image_settings compose_settings X u
    algorithm h = (OK tt, h') ->
  exists es, h' = h ++ es /\ pickled es = [state_file config algorithm].
Proof.
  intros Hroot. unfold learn_algorithm. intros Hrun.
  apply io_bind_ok in Hrun. destruct Hrun as (args & h1 & Hargs & Hrun).
  unfold lift in Hargs. injection Hargs as _ <-.
  apply io_bind_ok in Hrun. destruct Hrun as ([] & h2 & Hcv & Hrun).
  assert (E : emits is_pickle
                (if cfg_cross_validate config
                 then io_bind (cross_validate X targets algorithm args)
                        (fun r => run_once (env_bcast_none env)
                                    (export_scores r algorithm config))
                 else ret tt)).
  { unfold cross_validate.
    repeat first [apply export_scores_emits; intros; reflexivity
                 | emits_step]. }
  destruct (E _ _ _ Hcv) as (es1 & -> & Hq1).
  apply io_bind_ok in Hrun. destruct Hrun as (model & h3 & Hlearn & Hrun).
  unfold learn_model, external in Hlearn.
  destruct (env_learn_model env _ X targets algorithm args);
    [|discriminate].
  injection Hlearn as _ <-.
  unfold run_once in Hrun. rewrite Hroot in Hrun. simpl in Hrun.
  apply io_bind_ok in Hrun. destruct Hrun as ([] & h4 & Hdump & Hrun).
  unfold export_model, pickle_dump, external in Hdump.
  destruct (env_pickle_dump env _ _ _); [|discriminate].
  injection Hdump as _ <-.
  unfold io_bind, external, ret in Hrun. injection Hrun as <-.
  eexists. split; [rewrite <- !app_assoc; reflexivity|].
  rewrite pickled_app, (pickled_quiet _ Hq1). reflexivity.
Qed.

Lemma learn_loop_pickles config targets image_settings compose_settings X
  (l : list string) :
  env_chunk_index env = 0 ->
  forall h h' u,
    for_each l
      (learn_algorithm config targets image_settings compose_settings X)
      u h = (OK tt, h') ->
    exists es, h' = h ++ es /\ pickled es = map (state_file config) l.
Proof.
  intros Hroot.
  induction l as [|a l IH]; intros h h' u Hrun; simpl in Hrun.
  - injection Hrun as _ <-. exists []. rewrite app_nil_r. split; reflexivity.
  - apply io_bind_ok in Hrun. destruct Hrun as ([] & h1 & Hbody & Hrest).
    apply learn_algorithm_pickles in Hbody; [|exact Hroot].
    destruct Hbody as (es1 & -> & L1).
    apply IH in Hrest. destruct Hrest as (es2 & -> & L2).
    exists (es1 ++ es2). split; [rewrite app_assoc; reflexivity|].
    rewrite pickled_app, L1, L2. reflexivity.
Qed.

Lemma run_pipeline_pickled (config : Config) (h h' : list event) :
  env_chunk_index env = 0 ->
  run_pipeline config h = (OK tt, h') ->
  exists es,
    h' = h ++ es /\
    pickled es
    = map (state_file config) (sorted_strings (keys (cfg_algdict config))).
Proof.
  intros Hroot Hrun. unfold run_pipeline in Hrun.
  apply io_bind_ok in Hrun. destruct Hrun as (targets & h1 & Ht & Hrun).
  assert (E1 : emits is_pickle (make_targets config))
    by (apply make_targets_emits; intros; reflexivity).
  destruct (E1 _ _ _ Ht) as (es1 & -> & Q1).
  unfold run_with_targets in Hrun.
  apply io_bind_ok in Hrun.
  destruct Hrun as ([chunks image_settings] & h2 & He & Hrun).
  assert (E2 : emits is_pickle (extract targets config))
    by (apply extract_emits; intros; reflexivity).
  destruct (E2 _ _ _ He) as (es2 & -> & Q2).
  apply io_bind_ok in Hrun. destruct Hrun as ([] & h3 & Hr & Hrun).
  assert (E3 : forall u, emits is_pickle
             (for_each (sorted_strings (keys (cfg_algdict config)))
                (rank_algorithm config targets chunks
                   (mk_ComposeSettings (cfg_impute config)
                      (cfg_transform config) (cfg_pca_frac config)
                      None None None None None)) u)).
  { apply emits_for_each. intros s x.
    apply rank_algorithm_emits; intros; reflexivity. }
  destruct (E3 _ _ _ _ Hr) as (es3 & -> & Q3).
  apply io_bind_ok in Hrun. destruct Hrun as (X & h4 & Hg & Hrun).
  assert (E4 : emits is_pickle
             (gather_data chunks
                (mk_ComposeSettings (cfg_impute config)
                   (cfg_transform config) (cfg_pca_frac config)
                   None None None None None)))
    by (apply gather_data_emits; intros; reflexivity).
  destruct (E4 _ _ _ Hg) as (es4 & -> & Q4).
  apply learn_loop_pickles in Hrun; [|exact Hroot].
  destruct Hrun as (es5 & -> & L5).
  exists (es1 ++ es2 ++ es3 ++ es4 ++ es5).
  split; [rewrite <- !app_assoc; reflexivity|].
  rewrite !pickled_app, (pickled_quiet _ Q1), (pickled_quiet _ Q2),
    (pickled_quiet _ Q3), (pickled_quiet _ Q4), L5.
  reflexivity.
Qed.

(** On the coordinator (rank 0) a run that returns has pickled exactly
    one bundle per algorithm of the configuration, to
    [<output_dir>/<name>_<algorithm>.state], in the sorted order of the
    algorithm names. *)
Theorem coordinator_pickles_each_model :
  forall (config : Config) (h h' : list event),
    env_chunk_index env = 0 ->
    run_pipeline config h = (OK tt, h') ->
    exists es,
      h' = h ++ es /\
      pickled es
      = map (state_file config) (sorted_strings (keys (cfg_algdict config))).
Proof. intros config h h'. apply run_pipeline_pickled. Qed.

Lemma emits_run_once_worker {A : Type} p (recv : list event -> A + string)
  (f : M A) :
  env_chunk_index env <> 0 ->
  p CallBcast = false -> emits p (run_once recv f).
Proof.
  intros Hrank Hp. unfold run_once.
  destruct (Nat.eqb (env_chunk_index env) 0) eqn:E.
  - apply Nat.eqb_eq in E. contradiction.
  - apply emits_external. exact Hp.
Qed.

(** On every other worker no run, whether it returns or raises, reads the
    shapefile or writes a file: targets, scores, feature ranks and model
    bundles are left to the coordinator, and the worker only takes part
    in the broadcasts. *)
Theorem worker_writes_nothing :
  forall (config : Config) (h : list event) (r : result unit)
         (h' : list event),
    env_chunk_index env <> 0 ->
    run_pipeline config h = (r, h') ->
    exists es, h' = h ++ es /\ Forall (quiet is_file_io) es.
Proof.
  intros config h r h' Hrank Hrun.
  assert (E : emits is_file_io (run_pipeline config)).
  { unfold run_pipeline, make_targets, run_with_targets, rank_algorithm,
      learn_algorithm, rank_features, leave_one_out, gather_data, extract,
      extract_body, glob, RasterioImageSource, extract_features,
      compose_features, allgather, cross_validate, learn_model.
    repeat first
      [ apply emits_run_once_worker; [exact Hrank|reflexivity]
      | apply emits_external; reflexivity
      | emits_step ]. }
  exact (E _ _ _ Hrun).
Qed.

(** ** [run_pipeline]: how many all-gathers *)

(** The number of all-gathers that were entered. *)
Definition gathers (es : list event) : nat :=
  list_sum (map (fun ev => match ev with
                           | Enter (CallAllGather _) => 1
                           | _ => 0
                           end) es).

Lemma gathers_app (es1 es2 : list event) :
  gathers (es1 ++ es2) = gathers es1 + gathers es2.
Proof. unfold gathers. rewrite map_app, list_sum_app. reflexivity. Qed.

Lemma gathers_quiet (es : list event) :
  Forall (quiet is_compose_or_gather) es -> gathers es = 0.
Proof.
  induction 1 as [|ev es Hq _ IH]; [reflexivity|].
  unfold gathers in *. simpl. rewrite IH.
  destruct ev as [| c | |]; try reflexivity.
  destruct c; try reflexivity. discriminate.
Qed.

Lemma gather_data_gathers chunks settings (h h' : list event) (X : marray) :
  gather_data chunks settings h = (OK X, h') ->
  exists es, h' = h ++ es /\ gathers es = 1.
Proof.
  intros Hrun. apply gather_data_ok_iff in Hrun.
  destruct Hrun as (x & x_out & s' & X_list & _ & _ & _ & _ & ->).
  eexists. split; reflexivity.
Qed.

Lemma leave_one_out_gathers chunks targets algorithm settings config
  (fs : dict CrossValResults) (name : string) (h : list event) fs1 h1 :
  leave_one_out chunks targets algorithm settings config fs name h
  = (OK fs1, h1) ->
  exists es, h1 = h ++ es /\ gathers es = 1.
Proof.
  unfold leave_one_out. intros Hrun.
  apply io_bind_ok in Hrun. destruct Hrun as ([] & h0 & Hlog & Hrun).
  unfold log in Hlog. injection Hlog as <-.
  apply io_bind_ok in Hrun. destruct Hrun as (X & h2 & Hg & Hrun).
  apply gather_data_gathers in Hg. destruct Hg as (es1 & -> & G1).
  apply io_bind_ok in Hrun. destruct Hrun as (args & h3 & Ha & Hrun).
  unfold lift in Ha. injection Ha as _ <-.
  apply io_bind_ok in Hrun. destruct Hrun as (results & h4 & Hcv & Hrun).
  unfold cross_validate, external in Hcv.
  destruct (env_cross_validate env _ X targets algorithm args);
    [|discriminate].
  injection Hcv as _ <-.
  unfold ret in Hrun. injection Hrun as _ <-.
  eexists. split; [rewrite <- !app_assoc; reflexivity|].
  rewrite !gathers_app, G1. reflexivity.
Qed.

Lemma leave_one_out_loop_gathers chunks targets algorithm settings config
  (names : list string) :
  forall (fs : dict CrossValResults) h fs' h',
    for_each names
      (leave_one_out chunks targets algorithm settings config) fs h
    = (OK fs', h') ->
    exists es, h' = h ++ es /\ gathers es = List.length names.
Proof.
  induction names as [|name names IH]; intros fs h fs' h' Hrun.
  - simpl in Hrun. injection Hrun as _ <-. exists [].
    rewrite app_nil_r. split; reflexivity.
  - simpl in Hrun. apply io_bind_ok in Hrun.
    destruct Hrun as (fs1 & h1 & Hbody & Hrest).
    apply leave_one_out_gathers in Hbody. destruct Hbody as (es1 & -> & G1).
    apply IH in Hrest. destruct Hrest as (es2 & -> & G2).
    exists (es1 ++ es2). split; [rewrite app_assoc; reflexivity|].
    rewrite gathers_app, G1, G2. reflexivity.
Qed.

Lemma rank_features_gathers chunks targets algorithm settings config
  (h h' : list event) r :
  rank_features chunks targets algorithm settings config h = (OK r, h') ->
  exists es, h' = h ++ es /\ gathers es = List.length chunks.
Proof.
  unfold rank_features. intros Hrun.
  apply io_bind_ok in Hrun. destruct Hrun as (fs & h1 & Hloop & Hrun).
  apply leave_one_out_loop_gathers in Hloop.
  destruct Hloop as (es & -> & G).
  apply io_bind_ok in Hrun. destruct Hrun as (first & h2 & Hfirst & Hrun).
  assert (h2 = h ++ es).
  { destruct (values fs); [discriminate|].
    unfold ret in Hfirst. injection Hfirst as _ <-. reflexivity. }
  subst h2.
  apply io_bind_ok in Hrun. destruct Hrun as (rows & h3 & Hrows & Hrun).
  unfold lift in Hrows. injection Hrows as _ <-.
  unfold ret in Hrun. injection Hrun as _ <-.
  exists es. split; [reflexivity|].
  rewrite G. unfold keys. apply length_map.
Qed.

Lemma rank_algorithm_gathers config targets chunks settings (u : unit)
  (algorithm : string) (h h' : list event) :
  rank_algorithm config targets chunks settings u algorithm h = (OK tt, h') ->
  exists es,
    h' = h ++ es /\
    gathers es = if cfg_rank_features config then List.length chunks else 0.
Proof.
  unfold rank_algorithm. intros Hrun.
  apply io_bind_ok in Hrun. destruct Hrun as (args & h1 & Ha & Hrun).
  unfold lift in Ha. injection Ha as _ <-.
  destruct (cfg_rank_features config).
  - apply io_bind_ok in Hrun.
    destruct Hrun as ([[measures features] scores] & h2 & Hr & Hrun).
    apply rank_features_gathers in Hr. destruct Hr as (es1 & -> & G1).
    assert (E : emits is_compose_or_gather
                  (run_once (env_bcast_none env)
                     (export_feature_ranks measures features scores
                        algorithm config))).
    { apply emits_run_once; [reflexivity|].
      apply export_feature_ranks_emits. intros; reflexivity. }
    destruct (E _ _ _ Hrun) as (es2 & -> & Q2).
    exists (es1 ++ es2). split; [rewrite app_assoc; reflexivity|].
    rewrite gathers_app, G1, (gathers_quiet _ Q2). lia.
  - unfold ret in Hrun. injection Hrun as <-. exists [].
    rewrite app_nil_r. split; reflexivity.
Qed.

Lemma rank_loop_gathers config targets chunks settings (l : list string) :
  forall h h' u,
    for_each l (rank_algorithm config targets chunks settings) u h
    = (OK tt, h') ->
    exists es,
      h' = h ++ es /\
      gathers es
      = List.length l
        * (if cfg_rank_features config then List.length chunks else 0).
Proof.
  induction l as [|a l IH]; intros h h' u Hrun; simpl in Hrun.
  - injection Hrun as _ <-. exists []. rewrite app_nil_r. split; reflexivity.
  - apply io_bind_ok in Hrun. destruct Hrun as ([] & h1 & Hbody & Hrest).
    apply rank_algorithm_gathers in Hbody. destruct Hbody as (es1 & -> & G1).
    apply IH in Hrest. destruct Hrest as (es2 & -> & G2).
    exists (es1 ++ es2). split; [rewrite app_assoc; reflexivity|].
    rewrite gathers_app, G1, G2. simpl. reflexivity.
Qed.

(** A run that returns has taken part in one all-gather for the dataset
    it learns from and, when features are ranked, in one more for every
    pair of an algorithm and a source: [1 + algorithms * sources]
    all-gathers with ranking, a single one without. *)
Theorem run_pipeline_allgather_count :
  forall (config : Config) (h h' : list event),
    run_pipeline config h = (OK tt, h') ->
    exists es targets h0 extracted_chunks settings h1,
      h' = h ++ es /\
      extract targets config h0 = (OK (extracted_chunks, settings), h1) /\
      gathers es
      = 1 + (if cfg_rank_features config
             then List.length (cfg_algdict config)
                  * List.length extracted_chunks
             else 0).
Proof.
  intros config h h' Hrun. unfold run_pipeline in Hrun.
  apply io_bind_ok in Hrun. destruct Hrun as (targets & h1 & Ht & Hrun).
  assert (E1 : emits is_compose_or_gather (make_targets config))
    by (apply make_targets_emits; intros; reflexivity).
  destruct (E1 _ _ _ Ht) as (es1 & -> & Q1).
  unfold run_with_targets in Hrun.
  apply io_bind_ok in Hrun.
  destruct Hrun as ([chunks image_settings] & h2 & He & Hrun).
  assert (E2 : emits is_compose_or_gather (extract targets config))
    by (apply extract_emits; intros; reflexivity).
  destruct (E2 _ _ _ He) as (es2 & -> & Q2).
  apply io_bind_ok in Hrun. destruct Hrun as ([] & h3 & Hr & Hrun).
  apply rank_loop_gathers in Hr. destruct Hr as (es3 & -> & G3).
  apply io_bind_ok in Hrun. destruct Hrun as (X & h4 & Hg & Hrun).
  apply gather_data_gathers in Hg. destruct Hg as (es4 & -> & G4).
  assert (E5 : forall u, emits is_compose_or_gather
             (for_each (sorted_strings (keys (cfg_algdict config)))
                (learn_algorithm config targets image_settings
                   (mk_ComposeSettings (cfg_impute config)
                      (cfg_transform config) (cfg_pca_frac config)
                      None None None None None) X) u)).
  { intros u. apply emits_for_each. intros s a.
    unfold learn_algorithm, cross_validate, learn_model.
    repeat first [ apply export_scores_emits; intros; reflexivity
                 | apply export_model_emits; intros; reflexivity
                 | apply emits_external; reflexivity
                 | emits_step ]. }
  destruct (E5 _ _ _ _ Hrun) as (es5 & -> & Q5).
  exists (es1 ++ es2 ++ es3 ++ es4 ++ es5), targets, (h ++ es1), chunks,
    image_settings, ((h ++ es1) ++ es2).
  split; [rewrite <- !app_assoc; reflexivity|]. split; [exact He|].
  rewrite !gathers_app, (gathers_quiet _ Q1), (gathers_quiet _ Q2), G3, G4,
    (gathers_quiet _ Q5).
  assert (Hlen : List.length (sorted_strings (keys (cfg_algdict config)))
                 = List.length (cfg_algdict config)).
  { unfold sorted_strings.
    rewrite (Permutation_length (sorted_perm (fun s : string => s) str_ltb _)).
    unfold keys. apply length_map. }
  rewrite Hlen. destruct (cfg_rank_features config); lia.
Qed.

(** ** [predict]: the whole run *)

Lemma range_nonpositive (n : Z) : (n <= 0)%Z -> range n = [].
Proof.
  intros Hn. unfold range.
  replace (Z.to_nat n) with 0 by lia. reflexivity.
Qed.

(** A [predict] run that returns has loaded a bundle binding ['model'] and
    ['config'], and has then, in this order: reported on the partitions,
    asked for the image specification and for the band tags, opened the
    output image, rendered the partitions and reported the end.  The
    number of partitions is the one of the command line wherever it is
    used, whatever [n_subchunks] the stored configuration held; the output
    image is named [<name>_<algorithm>] after the stored configuration;
    with a number of partitions below one the image is opened and the end
    reported, and nothing is rendered. *)
Theorem predict_run :
  forall (file : string) (partitions : Z) (h h' : list event),
    predict file partitions h = (OK tt, h') ->
    exists state_dict m c0,
      env_pickle_load env h file = inl state_dict /\
      lookup "model" state_dict = Some (PyModel m) /\
      lookup "config" state_dict = Some (PyConfig c0) /\
      h' = h ++ predict_prelude file partitions c0
             ++ flat_map rendered (range partitions) ++ [finished] /\
      ((partitions <= 0)%Z ->
       h' = h ++ predict_prelude file partitions c0 ++ [finished]).
Proof.
  intros file partitions h h'.
  unfold predict, io_bind, pickle_load, lift, get_image_spec,
    get_predict_tags, new_ImageWriter, external.
  destruct (env_pickle_load env h file) as [sd|]; [|discriminate].
  destruct (load_bundle sd partitions) as [[model config]|] eqn:Hb;
    [|discriminate].
  apply load_bundle_ok_iff in Hb. destruct Hb as (c0 & Hm & Hc & Hcfg).
  assert (Hn : cli_n_subchunks config = partitions) by (subst; reflexivity).
  assert (Hname : cli_name config = cli_name c0) by (subst; reflexivity).
  assert (Halg : cli_algorithm config = cli_algorithm c0)
    by (subst; reflexivity).
  assert (Hdir : cli_output_dir config = cli_output_dir c0)
    by (subst; reflexivity).
  rewrite Hname, Halg, Hdir, !Hn. clear Hcfg.
  assert (Hlog : forall h0,
    (if (1 <? partitions)%Z
     then log "INFO" ("Memory contstraint forcing " ++
                      format_int partitions ++ " iterations through data")
     else log "INFO"
            "Using memory aggressively: dividing all data between nodes") h0
    = (OK tt, h0 ++ [memory_report partitions])).
  { intros h0. unfold memory_report, log.
    destruct (1 <? partitions)%Z; reflexivity. }
  rewrite Hlog. clear Hlog.
  destruct (env_get_image_spec env _ model config) as [[shape bbox]|];
    [|discriminate].
  destruct (env_get_predict_tags env _ model) as [tags|]; [|discriminate].
  destruct (env_ImageWriter env _ shape bbox _ _ _ tags) as [image_out|];
    [|discriminate].
  intros Hrun. apply render_all_ok in Hrun. rewrite Hn in Hrun.
  exists sd, model, c0.
  split; [reflexivity|]. split; [exact Hm|]. split; [exact Hc|].
  assert (Hh : h' = h ++ predict_prelude file partitions c0
                      ++ flat_map rendered (range partitions) ++ [finished]).
  { rewrite Hrun. unfold predict_prelude. rewrite <- !app_assoc.
    reflexivity. }
  split; [exact Hh|].
  intros Hle. rewrite Hh, (range_nonpositive _ Hle). reflexivity.
Qed.

(** [predict] on a file that cannot be unpickled, or whose bundle lacks a
    key: the exception is the one of the loader, [KeyError('model')] when
    ['model'] is missing (also when ['config'] is missing too), and
    [KeyError('config')] when only ['config'] is missing.  In each case
    the run ends right after the attempt to load, before it logs anything
    and before it opens the output image. *)
Theorem predict_bundle_errors :
  forall (file : string) (partitions : Z) (h : list event),
    (forall what,
        env_pickle_load env h file = inr what ->
        predict file partitions h
        = (Raise (External what),
           h ++ [Enter (CallPickleLoad file); Failed (CallPickleLoad file)]))
    /\
    (forall state_dict,
        env_pickle_load env h file = inl state_dict ->
        lookup "model" state_dict = None ->
        predict file partitions h
        = (Raise (KeyError "model"),
           h ++ [Enter (CallPickleLoad file); Leave (CallPickleLoad file)]))
    /\
    (forall state_dict,
        env_pickle_load env h file = inl state_dict ->
        lookup "model" state_dict <> None ->
        lookup "config" state_dict = None ->
        predict file partitions h
        = (Raise (KeyError "config"),
           h ++ [Enter (CallPickleLoad file); Leave (CallPickleLoad file)])).
Proof.
  intros file partitions h.
  unfold predict, io_bind, pickle_load, lift, external.
  split; [|split].
  - intros what ->. reflexivity.
  - intros sd -> Hm. unfold load_bundle, getitem. rewrite Hm. reflexivity.
  - intros sd -> Hm Hc. unfold load_bundle, getitem.
    destruct (lookup "model" sd); [|congruence].
    rewrite Hc. reflexivity.
Qed.

(** ** [main] *)

(** [importlib.machinery.SourceFileLoader('config', file).load_module()]:
    the attributes of the configuration module and whether [name] is among
    them ([cfg_name] is read only when it is), or the exception of the
    loader. *)
Variable load_module : string -> (bool * Config) + string.

(** [config.name = name] *)
Definition with_name (config : Config) (name : string) : Config :=
  mk_Config name (cfg_data_dir config) (cfg_output_dir config)
    (cfg_target_file config) (cfg_target_var config) (cfg_folds config)
    (cfg_crossval_seed config) (cfg_export_targets config)
    (cfg_onehot config) (cfg_patchsize config) (cfg_impute config)
    (cfg_transform config) (cfg_pca_frac config) (cfg_algdict config)
    (cfg_rank_features config) (cfg_cross_validate config).

(** [config.output_dir = output_dir] *)
Definition with_output_dir (config : Config) (output_dir : string) : Config :=
  mk_Config (cfg_name config) (cfg_data_dir config) output_dir
    (cfg_target_file config) (cfg_target_var config) (cfg_folds config)
    (cfg_crossval_seed config) (cfg_export_targets config)
    (cfg_onehot config) (cfg_patchsize config) (cfg_impute config)
    (cfg_transform config) (cfg_pca_frac config) (cfg_algdict config)
    (cfg_rank_features config) (cfg_cross_validate config).

(** [main], with [argv] for [sys.argv].  [logging.basicConfig] decides
    which records of the log are displayed; it adds none. *)
Definition main (argv : list string) : M unit :=
  if negb (Nat.eqb (List.length argv) 2) then raise (SystemExit (-1))
  else
    let config_filename := nth 1 argv EmptyString in
    let name := rstrip (basename config_filename) ".pipeline" in
    ' (has_name, config) <-
        lift (lift_external (load_module config_filename)) ;;
    let config := if (has_name : bool) then config
                  else with_name config name in
    let config :=
      with_output_dir config (env_abspath env (cfg_output_dir config)) in
    run_pipeline config.


End Pipeline.

Arguments mk_Env {float PyValue Targets ImageSource XSets Stats AlgArgs Model
  ImageSpec ImageWriter ConfigRest}.
Arguments env_glob {float PyValue Targets ImageSource XSets Stats AlgArgs Model
  ImageSpec ImageWriter ConfigRest} e _ _.
Arguments env_compose_features {float PyValue Targets ImageSource XSets Stats
  AlgArgs Model ImageSpec ImageWriter ConfigRest} e _ _ _.
Arguments env_RasterioImageSource {float PyValue Targets ImageSource XSets Stats
  AlgArgs Model ImageSpec ImageWriter ConfigRest} e _ _.
Arguments env_extract_features {float PyValue Targets ImageSource XSets Stats
  AlgArgs Model ImageSpec ImageWriter ConfigRest} e _ _ _ _.
Arguments mk_Config {PyValue AlgArgs}.
Arguments cfg_data_dir {PyValue AlgArgs} c.
Arguments cfg_algdict {PyValue AlgArgs} c.
Arguments mk_CliConfig {ConfigRest}.
Arguments mk_CrossValResults {float PyValue}.
Arguments mk_ComposeSettings {PyValue Stats}.
Arguments mk_ScoreListing {float}.
Arguments sl_scores {float} s.
Arguments sl_ranks {float} s.
Arguments PyModel {PyValue XSets Stats Model ConfigRest} m.
Arguments PyConfig {PyValue XSets Stats Model ConfigRest} c.
Arguments Log {float PyValue XSets Stats Model ConfigRest} level msg.
Arguments Enter {float PyValue XSets Stats Model ConfigRest} c.
Arguments Leave {float PyValue XSets Stats Model ConfigRest} c.
Arguments Failed {float PyValue XSets Stats Model ConfigRest} c.
Arguments CallGlob {float PyValue XSets Stats Model ConfigRest} pattern.
Arguments CallBcast {float PyValue XSets Stats Model ConfigRest}.
Arguments CallLoadShapefile {float PyValue XSets Stats Model ConfigRest}
  shape_infile fieldname.
Arguments CallCrossValTargets {float PyValue XSets Stats Model ConfigRest}.
Arguments extract {float PyValue Targets ImageSource XSets Stats AlgArgs Model
  ImageSpec ImageWriter ConfigRest} env targets config _.
Arguments gather_data {float PyValue Targets ImageSource XSets Stats AlgArgs
  Model ImageSpec ImageWriter ConfigRest} env extracted_chunks
  compose_settings _.
Arguments rank_features {float PyValue Targets ImageSource XSets Stats AlgArgs
  Model ImageSpec ImageWriter ConfigRest} env extracted_chunks targets
  algorithm compose_settings config _.
Arguments make_targets {float PyValue Targets ImageSource XSets Stats AlgArgs
  Model ImageSpec ImageWriter ConfigRest} env config _.
Arguments run_pipeline {float} float_ltb {PyValue Targets ImageSource XSets
  Stats AlgArgs Model ImageSpec ImageWriter ConfigRest} env config _.
Arguments feature_rank_listing {float} float_ltb {PyValue Targets ImageSource
  XSets Stats AlgArgs Model ImageSpec ImageWriter ConfigRest} env rows
  features score_listing.
Arguments export_feature_ranks {float} float_ltb {PyValue Targets ImageSource
  XSets Stats AlgArgs Model ImageSpec ImageWriter ConfigRest} env measures
  features scores algorithm config _.
Arguments CallJsonDump {float PyValue XSets Stats Model ConfigRest} outfile
  listing.
Arguments model_state_dict {PyValue XSets Stats Model ConfigRest} model
  image_settings compose_settings.
Arguments load_bundle {PyValue XSets Stats Model ConfigRest} state_dict
  partitions.
Arguments learned {float PyValue XSets Stats Model ConfigRest} es.
Arguments no_geotiffs {float PyValue XSets Stats AlgArgs Model ConfigRest}
  config.

(** ** Two workers *)

Section Agreement.
Context {float PyValue Targets ImageSource XSets Stats AlgArgs Model
         ImageSpec ImageWriter ConfigRest : Type}.
Variable float_ltb : float -> float -> bool.

(** The collaborators as two workers of one run meet them. *)
Variables env1 env2 :
  Env float PyValue Targets ImageSource XSets Stats AlgArgs Model ImageSpec
    ImageWriter ConfigRest.

End Agreement.

(** ** A small concrete run

    Scores and cells are integers; every collaborator succeeds; composition
    is the identity; a second worker holds the same data as this one; the
    cross-validation score of a dataset is its number of columns. *)

Definition DemoEnv : Type :=
  Env Z unit unit string unit unit unit unit unit unit unit.

Definition demo_chunk (ncols : nat) (v : Z) : marray Z :=
  Np.mk_ndarray 2 ncols [repeat (v, false) ncols; repeat (v, false) ncols].

Definition demo_features (tif : string) : option (marray Z) :=
  if String.eqb (basename tif) "mag.tif"
  then Some (demo_chunk 3 1)
  else Some (demo_chunk 2 7).

Definition demo_cross_validate (X : marray Z) : CrossValResults Z unit :=
  mk_CrossValResults [("r2_score", Z.of_nat (Np.ncols X))] tt tt.

Definition demo_bundle : dict (pyobj unit unit unit unit unit) :=
  [("model", PyModel tt);
   ("config", PyConfig (mk_CliConfig 1%Z "demo" "svr" "out" tt))].

Definition demo_env_with (tifs : list string)
  (shapefile : (unit * unit) + string) : DemoEnv :=
  mk_Env 0 (fun path => path)
    (fun _ _ => tifs)
    (fun _ _ _ => shapefile)
    (fun _ _ _ _ _ => inl tt)
    (fun _ _ _ => inl tt)
    (fun _ => inl tt)
    (fun _ => inl tt)
    (fun _ tif => inl tif)
    (fun _ source _ s => inl (demo_features source, s))
    (fun _ x settings => inl (x, settings))
    (fun _ x_out => inl [x_out; x_out])
    (fun _ X _ _ _ => inl (demo_cross_validate X))
    (fun _ _ _ _ _ => inl tt)
    (fun _ _ _ _ _ => inl tt)
    (fun _ _ _ => inl tt)
    (fun _ _ _ => inl tt)
    (fun _ _ => inl demo_bundle)
    (fun _ _ _ => inl (tt, tt))
    (fun _ _ => inl tt)
    (fun _ _ _ _ _ _ _ => inl tt)
    (fun _ _ _ _ _ => inl tt)
    (fun pairs => pairs).

Definition demo_env (tifs : list string) : DemoEnv :=
  demo_env_with tifs (inl (tt, tt)).

(** A worker whose data directory holds neither GeoTIFFs nor a readable
    shapefile. *)
Definition demo_env_unreadable : DemoEnv :=
  demo_env_with [] (inr "IOError").

Definition demo_config : Config unit unit :=
  mk_Config "demo" "data" "out" "targets.shp" "value" tt tt false
    tt tt tt tt tt [("svr", tt); ("krige", tt)] true true.

Definition demo_settings : ComposeSettings unit unit :=
  mk_ComposeSettings tt tt tt None None None None None.

(** The bundle that [export_model] pickles for a model [tt]. *)
Definition demo_exported : dict (pyobj unit unit unit unit unit) :=
  model_state_dict tt [] demo_settings.

(** Two sources whose names differ only in characters of [".tif"]. *)
Definition demo_sources : dict (option (marray Z)) :=
  [("mag.tif", Some (demo_chunk 3 1)); ("magfit.tif", Some (demo_chunk 2 7))].

Lemma gather_data_row_count_witness :
  (forall h0 s out s',
      env_compose_features (demo_env []) h0 None s = inl (out, s') ->
      out = None) /\
  (exists a,
      local_features Z demo_sources = OK (Some a) /\
      nth 0 (Np.rows a) []
      = [(1, false); (1, false); (1, false); (7, false); (7, false)]%Z) /\
  exists X h',
    gather_data (demo_env []) demo_sources demo_settings [] = (OK X, h') /\
    Np.nrows X = 4.
Proof.
  assert (Hyp : forall h0 s out s',
             env_compose_features (demo_env []) h0 None s = inl (out, s') ->
             out = None).
  { intros h0 s out s' H. simpl in H. congruence. }
  split; [exact Hyp|].
  destruct (gather_data_row_count Z unit unit string unit unit unit unit unit
              unit unit (demo_env []) demo_sources demo_settings [])
    as (_ & H2 & H3 & _).
  split.
  - assert (Hn : ~ In None (values demo_sources)).
    { simpl. intros [H|[H|[]]]; discriminate. }
    destruct (H2 Hn) as (_ & _ & Hcat & Hmade).
    destruct Hmade as (a & Hl).
    { discriminate. }
    { simpl. intros c1 c2 [<-|[<-|[]]] [<-|[<-|[]]]; reflexivity. }
    exists a. split; [exact Hl|].
    destruct (Hcat a Hl) as (_ & Hrows & _ & Hwf).
    destruct Hwf as (_ & Hrow).
    { simpl. repeat constructor. }
    rewrite Hrow; [reflexivity|].
    rewrite <- (Hrows (demo_chunk 3 1)); [simpl; lia|].
    left. reflexivity.
  - assert (Hrun : exists X h',
               gather_data (demo_env []) demo_sources demo_settings []
               = (OK X, h')).
    { eexists. eexists. vm_compute. reflexivity. }
    destruct Hrun as (X & h' & Hrun).
    exists X, h'. split; [exact Hrun|].
    destruct (H3 X h' Hrun)
      as (x & x_out & s' & X_list & Hl & Hc & Ha & Hv & _ & _ & Hrows & _ & _).
    rewrite Hrows.
    vm_compute in Hl. injection Hl as <-.
    simpl in Hc. injection Hc as <- <-.
    simpl in Ha. injection Ha as <-.
    reflexivity.
Defined.

Lemma export_feature_ranks_ascending_witness :
  (forall a b, Z.ltb a b = true -> Z.ltb b a = false) /\
  exists listing,
    feature_rank_listing Z.ltb (demo_env []) [("r2_score", [3; 1; 2]%Z)]
      ["a"; "b"; "c"] (mk_ScoreListing [] []) = OK listing /\
    sl_ranks listing = [("r2_score", ["b"; "c"; "a"])] /\
    sl_scores listing = [("r2_score", [1; 2; 3]%Z)] /\
    export_feature_ranks Z.ltb (demo_env []) ["r2_score"] ["a"; "b"; "c"]
      (Np.mk_ndarray 1 3 [[3; 1; 2]%Z]) "svr" demo_config []
    = (OK tt,
       [Enter (CallJsonDump "out/demo_svr_featureranks.json" listing);
        Leave (CallJsonDump "out/demo_svr_featureranks.json" listing)]).
Proof.
  assert (Hyp : forall a b, Z.ltb a b = true -> Z.ltb b a = false).
  { intros a b H. apply Z.ltb_lt in H. apply Z.ltb_ge. lia. }
  split; [exact Hyp|].
  destruct (export_feature_ranks_ascending Z Z.ltb unit unit string unit unit
              unit unit unit unit unit (demo_env [])
              ["r2_score"] ["a"; "b"; "c"]
              (Np.mk_ndarray 1 3 [[3; 1; 2]%Z]) "svr" demo_config [] Hyp)
    as (Hmade & Hwritten).
  destruct Hmade as (listing & Hl).
  - discriminate.
  - repeat constructor. discriminate.
  - exists listing. split; [exact Hl|].
    destruct (Hwritten listing Hl) as (Hdump & _).
    specialize (Hdump eq_refl).
    vm_compute in Hl. injection Hl as <-.
    split; [reflexivity|]. split; [reflexivity|]. exact Hdump.
Defined.

(** Collaborators for scores with a [nan]: the report can be written;
    nothing else is reached, and [sorted] is not asked about pairs that
    are neither consistently ordered nor one ascending run. *)
Definition nan_env : Env F64.t unit unit string unit unit unit unit unit unit
                       unit :=
  mk_Env 0 (fun path => path)
    (fun _ _ => [])
    (fun _ _ _ => inr "unused")
    (fun _ _ _ _ _ => inr "unused")
    (fun _ _ _ => inr "unused")
    (fun _ => inr "unused")
    (fun _ => inr "unused")
    (fun _ _ => inr "unused")
    (fun _ _ _ _ => inr "unused")
    (fun _ _ _ => inr "unused")
    (fun _ _ => inr "unused")
    (fun _ _ _ _ _ => inr "unused")
    (fun _ _ _ _ _ => inr "unused")
    (fun _ _ _ _ _ => inr "unused")
    (fun _ _ _ => inl tt)
    (fun _ _ _ => inr "unused")
    (fun _ _ => inr "unused")
    (fun _ _ _ => inr "unused")
    (fun _ _ => inr "unused")
    (fun _ _ _ _ _ _ _ => inr "unused")
    (fun _ _ _ _ _ => inr "unused")
    (fun _ => []).

Definition nan_scores : list F64.t := [F64.Num 300; F64.NaN; F64.Num 100].

(** C3, as the claim states it, fails when a score is [nan]: the scores
    3.0, nan, 1.0 of the features a, b, c are one run in which no score is
    below the one before it, so [sorted] leaves the pairs as they are and
    the report lists 3.0 before 1.0. *)
Lemma export_feature_ranks_nan_not_ascending :
  export_feature_ranks F64.ltb nan_env ["r2_score"] ["a"; "b"; "c"]
    (Np.mk_ndarray 1 3 [nan_scores]) "svr" demo_config []
  = (OK tt,
     [Enter (CallJsonDump "out/demo_svr_featureranks.json"
               (mk_ScoreListing [("r2_score", nan_scores)]
                  [("r2_score", ["a"; "b"; "c"])]));
      Leave (CallJsonDump "out/demo_svr_featureranks.json"
               (mk_ScoreListing [("r2_score", nan_scores)]
                  [("r2_score", ["a"; "b"; "c"])]))]) /\
  F64.ltb (F64.Num 100) (F64.Num 300) = true /\
  ~ StronglySorted (fun a b => F64.ltb b a = false) nan_scores.
Proof.
  split; [reflexivity|]. split; [reflexivity|].
  intros H. inversion H as [|? ? _ Hall]; subst.
  inversion Hall as [|? ? _ Hall']; subst.
  inversion Hall' as [|? ? H1 _]; subst. discriminate.
Qed.

Lemma no_geotiffs_exits_witness :
  (forall h0,
      env_glob (demo_env []) h0 (path_join (cfg_data_dir demo_config) "*.tif")
      = []) /\
  exists es,
    run_pipeline Z.ltb (demo_env []) demo_config []
    = (Raise (SystemExit (-1)), es) /\
    es = [Enter (CallLoadShapefile "data/targets.shp" "value");
          Leave (CallLoadShapefile "data/targets.shp" "value");
          Enter CallCrossValTargets; Leave CallCrossValTargets;
          Enter CallBcast; Leave CallBcast;
          Enter (CallGlob "data/*.tif"); Leave (CallGlob "data/*.tif");
          Log "CRITICAL" "No geotiffs found in data!"].
Proof.
  split; [reflexivity|].
  destruct (no_geotiffs_exits Z Z.ltb unit unit string unit unit unit unit
              unit unit unit (demo_env []) demo_config []
              (fun _ => eq_refl))
    as (_ & e & es & Hrun & _ & Hok & _).
  destruct (Hok tt _ eq_refl) as [-> Hes].
  exists ([] ++ es). split; [exact Hrun|]. exact Hes.
Defined.


(** C10, as the claim states it, fails for [run_pipeline]: without
    GeoTIFFs and with a shapefile that cannot be loaded, the run ends with
    the loader's exception before [extract] is reached, not with
    [SystemExit(-1)]. *)
Lemma run_pipeline_stops_before_extract :
  env_glob demo_env_unreadable []
    (path_join (cfg_data_dir demo_config) "*.tif") = [] /\
  run_pipeline Z.ltb demo_env_unreadable demo_config []
  = (Raise (External "IOError"),
     [Enter (CallLoadShapefile "data/targets.shp" "value");
      Failed (CallLoadShapefile "data/targets.shp" "value")]) /\
  External "IOError" <> SystemExit (-1).
Proof.
  split; [reflexivity|]. split; [reflexivity|]. discriminate.
Qed.

(** C4, as the claim states it, fails: [predict] asks the bundle that
    [export_model] wrote for the key ['config'], which is not among the
    keys stored. *)
Lemma predict_rejects_exported_bundle :
  keys demo_exported
  = ["model"; "image_settings"; "compose_settings"] /\
  ~ In "config" (keys demo_exported) /\
  load_bundle demo_exported 1 = Raise (KeyError "config").
Proof.
  split; [reflexivity|]. split; [|reflexivity].
  simpl. intros [H|[H|[H|[]]]]; discriminate.
Qed.

(** C2 at two sources whose names collide once [".tif"] is stripped as a
    set of characters: [rank_features] returns a single feature, ["mag"],
    and a single column of scores; the score kept is the one computed with
    ["magfit.tif"] left out (a dataset of three columns). *)
Theorem rank_features_merges_stripped_names :
  rstrip "mag.tif" ".tif" = "mag" /\
  rstrip "magfit.tif" ".tif" = "mag" /\
  exists h',
    rank_features (demo_env []) demo_sources tt "svr" demo_settings
      demo_config []
    = (OK (["r2_score"], ["mag"], Np.mk_ndarray 1 1 [[3%Z]]), h').
Proof.
  split; [reflexivity|]. split; [reflexivity|].
  eexists. vm_compute. reflexivity.
Qed.

(** Two sources whose stripped names differ. *)
Definition demo_distinct : dict (option (marray Z)) :=
  [("mag.tif", Some (demo_chunk 3 1)); ("grav.tif", Some (demo_chunk 2 7))].

Lemma rank_features_leave_one_out_witness :
  NoDup (map (fun name => rstrip name ".tif") (keys demo_distinct)) /\
  exists h',
    rank_features (demo_env []) demo_distinct tt "svr" demo_settings
      demo_config []
    = (OK (["r2_score"], ["grav"; "mag"], Np.mk_ndarray 1 2 [[3; 2]%Z]), h')
    /\
    exists feature_scores : dict (CrossValResults Z unit),
      keys feature_scores = ["mag"; "grav"] /\
      ["grav"; "mag"] = sorted_strings (keys feature_scores).
Proof.
  assert (Hnd : NoDup (map (fun name => rstrip name ".tif")
                         (keys demo_distinct))).
  { vm_compute. repeat constructor; simpl; intuition discriminate. }
  split; [exact Hnd|].
  assert (Hrun : exists h',
             rank_features (demo_env []) demo_distinct tt "svr" demo_settings
               demo_config []
             = (OK (["r2_score"], ["grav"; "mag"],
                    Np.mk_ndarray 1 2 [[3; 2]%Z]), h')).
  { eexists. vm_compute. reflexivity. }
  destruct Hrun as (h' & Hrun). exists h'. split; [exact Hrun|].
  destruct (rank_features_leave_one_out Z unit unit string unit unit unit unit
              unit unit unit (demo_env []) demo_distinct tt "svr"
              demo_settings demo_config [] h' _ _ _ Hnd Hrun)
    as (fs & Hkeys & _ & _ & Hfeat & _).
  exists fs. split; [exact Hkeys|exact Hfeat].
Defined.

(** A whole run of the pipeline on two GeoTIFFs and two algorithms: the
    models are learned in the sorted order of the algorithm names. *)
Lemma run_pipeline_demo :
  exists h',
    run_pipeline Z.ltb (demo_env ["data/magfit.tif"; "data/mag.tif"])
      demo_config [] = (OK tt, h') /\
    learned h' = ["krige"; "svr"].
Proof. eexists. split; vm_compute; reflexivity. Qed.

(** With a single source the dataset left after removing it has no
    column at all, and [rank_features] raises. *)
Lemma rank_features_single_source :
  exists h',
    rank_features (demo_env []) [("mag.tif", Some (demo_chunk 3 1))] tt "svr"
      demo_settings demo_config []
    = (Raise (ValueError "need at least one array to concatenate"), h').
Proof. eexists. vm_compute. reflexivity. Qed.

(** ** The further properties at the concrete run *)

Arguments local_features {float} extracted_chunks.
Arguments env_chunk_index {float PyValue Targets ImageSource XSets Stats
  AlgArgs Model ImageSpec ImageWriter ConfigRest} e.
Arguments gather_events {float PyValue XSets Stats Model ConfigRest} x x_out.
Arguments opened {float PyValue XSets Stats Model ConfigRest} es.
Arguments extracted {float PyValue XSets Stats Model ConfigRest} es.
Arguments pickled {float PyValue XSets Stats Model ConfigRest} es.
Arguments gathers {float PyValue XSets Stats Model ConfigRest} es.
Arguments is_file_io {float PyValue XSets Stats Model ConfigRest} c.
Arguments quiet {float PyValue XSets Stats Model ConfigRest} p ev.
Arguments finished {float PyValue XSets Stats Model ConfigRest}.
Arguments predict_prelude {float PyValue XSets Stats Model ConfigRest} file
  partitions c0.
Arguments predict {float PyValue Targets ImageSource XSets Stats AlgArgs Model
  ImageSpec ImageWriter ConfigRest} env model_or_cluster_file partitions _.
Arguments main {float} float_ltb {PyValue Targets ImageSource XSets Stats
  AlgArgs Model ImageSpec ImageWriter ConfigRest} env load_module argv _.

(** A worker other than the coordinator, with the collaborators of
    [demo_env]. *)
Definition demo_worker_env (tifs : list string) : DemoEnv :=
  mk_Env 1 (fun path => path)
    (fun _ _ => tifs)
    (fun _ _ _ => inl (tt, tt))
    (fun _ _ _ _ _ => inl tt)
    (fun _ _ _ => inl tt)
    (fun _ => inl tt)
    (fun _ => inl tt)
    (fun _ tif => inl tif)
    (fun _ source _ s => inl (demo_features source, s))
    (fun _ x settings => inl (x, settings))
    (fun _ x_out => inl [x_out; x_out])
    (fun _ X _ _ _ => inl (demo_cross_validate X))
    (fun _ _ _ _ _ => inl tt)
    (fun _ _ _ _ _ => inl tt)
    (fun _ _ _ => inl tt)
    (fun _ _ _ => inl tt)
    (fun _ _ => inl demo_bundle)
    (fun _ _ _ => inl (tt, tt))
    (fun _ _ => inl tt)
    (fun _ _ _ _ _ _ _ => inl tt)
    (fun _ _ _ _ _ => inl tt)
    (fun pairs => pairs).

(** A configuration module that sets no [name]. *)
Definition demo_load_module (_ : string) : (bool * Config unit unit) + string :=
  inl (false, demo_config).

Lemma local_features_shape_witness :
  ~ In None (values demo_sources) /\
  exists a,
    local_features demo_sources = OK (Some a) /\
    Np.nrows a = 2 /\ Np.ncols a = 5.
Proof.
  assert (Hyp : ~ In None (values demo_sources)).
  { simpl. intros [H|[H|[]]]; discriminate. }
  split; [exact Hyp|].
  destruct (local_features_shape Z demo_sources Hyp) as (_ & Hshape & _).
  assert (Hrun : exists x, local_features demo_sources = OK x).
  { eexists. vm_compute. reflexivity. }
  destruct Hrun as (x & Hrun).
  destruct (Hshape x Hrun) as (a & -> & Hrows & Hcols & _).
  exists a. split; [exact Hrun|]. split.
  - rewrite <- (Hrows (demo_chunk 3 1)); [reflexivity|]. left. reflexivity.
  - rewrite Hcols. reflexivity.
Defined.

Lemma gather_data_outcomes_witness :
  exists x X h',
    local_features demo_sources = OK x /\
    gather_data (demo_env []) demo_sources demo_settings [] = (OK X, h') /\
    h' = [] ++ gather_events x x /\
    forall a, In (Some a) [x; x] -> Np.ncols a = Np.ncols X.
Proof.
  assert (Hl : exists x, local_features demo_sources = OK x).
  { eexists. vm_compute. reflexivity. }
  destruct Hl as (x & Hl).
  assert (Hrun : exists X h',
             gather_data (demo_env []) demo_sources demo_settings []
             = (OK X, h')).
  { eexists. eexists. vm_compute. reflexivity. }
  destruct Hrun as (X & h' & Hrun).
  exists x, X, h'. split; [exact Hl|]. split; [exact Hrun|].
  destruct (gather_data_outcomes Z unit unit string unit unit unit unit unit
              unit unit (demo_env []) demo_sources demo_settings
              demo_settings [] x x [x; x] Hl eq_refl eq_refl)
    as (_ & _ & Hok).
  exact (Hok X h' Hrun).
Defined.

Lemma extract_settings_match_witness :
  exists result settings h' es,
    extract (demo_env ["data/magfit.tif"; "data/mag.tif"]) tt demo_config []
    = (OK (result, settings), h') /\
    keys result = sorted_strings (keys settings) /\
    keys settings = ["magfit.tif"; "mag.tif"] /\
    h' = [] ++ es /\
    opened es = ["data/magfit.tif"; "data/mag.tif"] /\
    extracted es = opened es.
Proof.
  assert (Hrun : exists result settings h',
             extract (demo_env ["data/magfit.tif"; "data/mag.tif"]) tt
               demo_config []
             = (OK (result, settings), h')).
  { do 3 eexists. vm_compute. reflexivity. }
  destruct Hrun as (result & settings & h' & Hrun).
  destruct (extract_settings_match Z unit unit string unit unit unit unit unit
              unit unit _ _ _ _ _ _ _ Hrun)
    as (_ & Hkeys & _ & _ & Horder & _ & es & Hh & Ho & Hx).
  exists result, settings, h', es.
  split; [exact Hrun|]. split; [exact Hkeys|].
  split.
  { apply Horder. simpl. repeat constructor; simpl; intuition discriminate. }
  split; [exact Hh|]. split; [exact Ho|exact Hx].
Defined.

(** Scores with one metric and no feature. *)
Definition demo_empty_scores : Np.ndarray Z := Np.mk_ndarray 1 0 [[]].

Lemma export_feature_ranks_empty_row_witness :
  In ("r2_score", []) (combine ["r2_score"] (Np.rows demo_empty_scores)) /\
  exists msg,
    export_feature_ranks Z.ltb (demo_env []) ["r2_score"] ["a"]
      demo_empty_scores "svr" demo_config []
    = (Raise (ValueError msg), []).
Proof.
  assert (Hyp : In ("r2_score", [])
                  (combine ["r2_score"] (Np.rows demo_empty_scores))).
  { left. reflexivity. }
  split; [exact Hyp|].
  exact (export_feature_ranks_empty_row Z Z.ltb unit unit string unit unit
           unit unit unit unit unit (demo_env []) ["r2_score"] ["a"]
           demo_empty_scores "svr" demo_config [] "r2_score" []
           Hyp (or_intror eq_refl)).
Defined.

Lemma export_feature_ranks_ties_witness :
  (forall a b c, Z.ltb b a = false -> Z.ltb c b = false ->
                 Z.ltb c a = false) /\
  exists listing sorted_features sorted_scores,
    feature_rank_listing Z.ltb (demo_env []) [("r2_score", [2; 1; 2]%Z)]
      ["a"; "b"; "c"] (mk_ScoreListing [] []) = OK listing /\
    lookup "r2_score" (sl_ranks listing) = Some sorted_features /\
    lookup "r2_score" (sl_scores listing) = Some sorted_scores /\
    List.length sorted_features = List.length sorted_scores /\
    filter (tied snd Z.ltb 2%Z) (combine sorted_features sorted_scores)
    = [("a", 2%Z); ("c", 2%Z)].
Proof.
  assert (Hyp : forall a b c, Z.ltb b a = false -> Z.ltb c b = false ->
                              Z.ltb c a = false).
  { intros a b c H1 H2. apply Z.ltb_ge in H1, H2. apply Z.ltb_ge. lia. }
  split; [exact Hyp|].
  assert (Hrun : exists listing,
             feature_rank_listing Z.ltb (demo_env [])
               [("r2_score", [2; 1; 2]%Z)]
               ["a"; "b"; "c"] (mk_ScoreListing [] []) = OK listing).
  { eexists. vm_compute. reflexivity. }
  destruct Hrun as (listing & Hrun).
  assert (Hlook : exists fs ss,
             lookup "r2_score" (sl_ranks listing) = Some fs /\
             lookup "r2_score" (sl_scores listing) = Some ss).
  { pose proof Hrun as H. vm_compute in H. injection H as <-.
    do 2 eexists. split; reflexivity. }
  destruct Hlook as (fs & ss & Hfs & Hss).
  exists listing, fs, ss.
  split; [exact Hrun|]. split; [exact Hfs|]. split; [exact Hss|].
  destruct (export_feature_ranks_ties Z Z.ltb unit unit string unit unit
              unit unit unit unit unit (demo_env [])
              ["r2_score"] ["a"; "b"; "c"]
              (Np.mk_ndarray 1 3 [[2; 1; 2]%Z]) listing Hyp Hrun
              "r2_score" fs ss Hfs Hss)
    as (row & Hin & Hlen & _ & Hties).
  split; [exact Hlen|].
  rewrite Hties. destruct Hin as [Hin|[]]. injection Hin as <-.
  reflexivity.
Defined.

Lemma coordinator_pickles_each_model_witness :
  env_chunk_index (demo_env ["data/magfit.tif"; "data/mag.tif"]) = 0 /\
  exists h' es,
    run_pipeline Z.ltb (demo_env ["data/magfit.tif"; "data/mag.tif"])
      demo_config [] = (OK tt, h') /\
    h' = [] ++ es /\
    pickled es = ["out/demo_krige.state"; "out/demo_svr.state"].
Proof.
  split; [reflexivity|].
  assert (Hrun : exists h',
             run_pipeline Z.ltb (demo_env ["data/magfit.tif"; "data/mag.tif"])
               demo_config [] = (OK tt, h')).
  { eexists. vm_compute. reflexivity. }
  destruct Hrun as (h' & Hrun).
  destruct (coordinator_pickles_each_model Z Z.ltb unit unit string unit unit
              unit unit unit unit unit
              (demo_env ["data/magfit.tif"; "data/mag.tif"]) demo_config []
              h' eq_refl Hrun)
    as (es & Hh & Hp).
  exists h', es. split; [exact Hrun|]. split; [exact Hh|].
  rewrite Hp. reflexivity.
Defined.

Lemma worker_writes_nothing_witness :
  env_chunk_index (demo_worker_env ["data/magfit.tif"; "data/mag.tif"]) <> 0 /\
  exists h' es,
    run_pipeline Z.ltb (demo_worker_env ["data/magfit.tif"; "data/mag.tif"])
      demo_config [] = (OK tt, h') /\
    h' = [] ++ es /\
    Forall (quiet is_file_io) es.
Proof.
  assert (Hyp : env_chunk_index
                  (demo_worker_env ["data/magfit.tif"; "data/mag.tif"]) <> 0).
  { simpl. discriminate. }
  split; [exact Hyp|].
  assert (Hrun : exists h',
             run_pipeline Z.ltb
               (demo_worker_env ["data/magfit.tif"; "data/mag.tif"])
               demo_config [] = (OK tt, h')).
  { eexists. vm_compute. reflexivity. }
  destruct Hrun as (h' & Hrun).
  destruct (worker_writes_nothing Z Z.ltb unit unit string unit unit
              unit unit unit unit unit _ _ _ _ _ Hyp Hrun)
    as (es & Hh & Hq).
  exists h', es. split; [exact Hrun|]. split; [exact Hh|exact Hq].
Defined.

Lemma run_pipeline_allgather_count_witness :
  exists h' es,
    run_pipeline Z.ltb (demo_env ["data/magfit.tif"; "data/mag.tif"])
      demo_config [] = (OK tt, h') /\
    h' = [] ++ es /\
    gathers es = 5.
Proof.
  assert (Hrun : exists h',
             run_pipeline Z.ltb (demo_env ["data/magfit.tif"; "data/mag.tif"])
               demo_config [] = (OK tt, h')).
  { eexists. vm_compute. reflexivity. }
  destruct Hrun as (h' & Hrun).
  destruct (run_pipeline_allgather_count Z Z.ltb unit unit string unit unit
              unit unit unit unit unit _ _ _ _ Hrun)
    as (es & targets & h0 & chunks & settings & h1 & Hh & He & Hg).
  exists h', es. split; [exact Hrun|]. split; [exact Hh|].
  rewrite Hg. destruct targets.
  unfold extract, io_bind, glob, external in He. simpl in He.
  injection He as <- _ _. reflexivity.
Defined.

Lemma predict_run_witness :
  exists h' c0,
    predict (demo_env []) "out/demo_svr.state" 0 [] = (OK tt, h') /\
    lookup "config" demo_bundle = Some (PyConfig c0) /\
    h' = [] ++ predict_prelude "out/demo_svr.state" 0 c0 ++ [finished].
Proof.
  assert (Hrun : exists h',
             predict (demo_env []) "out/demo_svr.state" 0 [] = (OK tt, h')).
  { eexists. vm_compute. reflexivity. }
  destruct Hrun as (h' & Hrun).
  destruct (predict_run Z unit unit string unit unit unit unit unit unit unit
              _ _ _ _ _ Hrun)
    as (sd & m & c0 & Hload & _ & Hc & _ & Hh).
  simpl in Hload. injection Hload as <-.
  exists h', c0. split; [exact Hrun|]. split; [exact Hc|].
  apply Hh. lia.
Defined.


End Pipeline.
